(** * Mobile network capacity model: the radio capacity formulas and the
      point/ring/site pipeline of [mobile_capacity/capacity.py]

    The development embeds the methods of class [Capacity] as Rocq
    functions over lists (numpy arrays, pandas columns) and proves the
    properties stated for them.

    Numbers.  A numpy [float64] is embedded as a value of [float64] below:
    not-a-number, the two infinities, or a finite value carrying its exact
    rational.  Comparisons, not-a-number propagation, the infinities and
    division by zero follow IEEE 754 / numpy; the rounding of finite results
    (and overflow to infinity, and the sign of zero) is not part of the
    embedding: finite arithmetic is exact. *)

From Stdlib Require Import Ascii String Decimal DecimalString DecimalPos DecimalZ.
From Stdlib Require Import ZArith QArith Qcanon List Bool Lia.
Import ListNotations.

Set Implicit Arguments.

(* ================================================================= *)
(** ** Floating-point values *)

Module Float.

Inductive float64 : Type :=
| NaN
| PInf
| NInf
| Fin (q : Qc).

Definition of_Z (z : Z) : float64 := Fin (Q2Qc (inject_Z z)).
Definition of_Q (q : Q) : float64 := Fin (Q2Qc q).

Definition zero : float64 := Fin 0%Qc.

Definition isnan (x : float64) : bool :=
  match x with NaN => true | _ => false end.

Definition isfinite (x : float64) : bool :=
  match x with Fin _ => true | _ => false end.

(** The infinity (or not-a-number) with the sign of a comparison with 0. *)
Definition inf_of_sign (c : comparison) : float64 :=
  match c with Gt => PInf | Lt => NInf | Eq => NaN end.

Definition neg (x : float64) : float64 :=
  match x with
  | NaN => NaN
  | PInf => NInf
  | NInf => PInf
  | Fin a => Fin (- a)%Qc
  end.

Definition add (x y : float64) : float64 :=
  match x, y with
  | NaN, _ | _, NaN => NaN
  | PInf, NInf | NInf, PInf => NaN
  | PInf, _ | _, PInf => PInf
  | NInf, _ | _, NInf => NInf
  | Fin a, Fin b => Fin (a + b)%Qc
  end.

Definition sub (x y : float64) : float64 := add x (neg y).

Definition mul (x y : float64) : float64 :=
  match x, y with
  | NaN, _ | _, NaN => NaN
  | Fin a, Fin b => Fin (a * b)%Qc
  | PInf, PInf | NInf, NInf => PInf
  | PInf, NInf | NInf, PInf => NInf
  | PInf, Fin a | Fin a, PInf => inf_of_sign (a ?= 0)%Qc
  | NInf, Fin a | Fin a, NInf => inf_of_sign (0 ?= a)%Qc
  end.

(** numpy's [true_divide]: a zero divisor gives an infinity or
    not-a-number (with a warning), never an exception. *)
Definition div (x y : float64) : float64 :=
  match x, y with
  | NaN, _ | _, NaN => NaN
  | Fin a, Fin b =>
      if Qc_eq_bool b 0 then inf_of_sign (a ?= 0)%Qc else Fin (a / b)%Qc
  | Fin _, (PInf | NInf) => zero
  | (PInf | NInf), (PInf | NInf) => NaN
  | PInf, Fin b => match (b ?= 0)%Qc with Lt => NInf | _ => PInf end
  | NInf, Fin b => match (b ?= 0)%Qc with Lt => PInf | _ => NInf end
  end.

(** [x <= y]; false as soon as one side is not-a-number. *)
Definition leb (x y : float64) : bool :=
  match x, y with
  | NaN, _ | _, NaN => false
  | NInf, _ | _, PInf => true
  | PInf, _ | _, NInf => false
  | Fin a, Fin b => match (a ?= b)%Qc with Gt => false | _ => true end
  end.

(** [x < y]; false as soon as one side is not-a-number. *)
Definition ltb (x y : float64) : bool :=
  match x, y with
  | NaN, _ | _, NaN => false
  | PInf, _ | _, NInf => false
  | NInf, _ | _, PInf => true
  | Fin a, Fin b => match (a ?= b)%Qc with Lt => true | _ => false end
  end.

Definition geb (x y : float64) : bool := leb y x.
Definition gtb (x y : float64) : bool := ltb y x.

(** Decidable equality of values, for evaluating the model. *)
Definition eqb (x y : float64) : bool :=
  match x, y with
  | NaN, NaN | PInf, PInf | NInf, NInf => true
  | Fin a, Fin b => Qc_eq_bool a b
  | _, _ => false
  end.

Fixpoint list_eqb (xs ys : list float64) : bool :=
  match xs, ys with
  | [], [] => true
  | x :: xs', y :: ys' => eqb x y && list_eqb xs' ys'
  | _, _ => false
  end.

End Float.
Export Float.

Declare Scope float_scope.
Delimit Scope float_scope with float.
Infix "+" := add : float_scope.
Infix "-" := sub : float_scope.
Infix "*" := mul : float_scope.
Infix "/" := div : float_scope.
Infix "<=?" := leb : float_scope.
Infix "<?" := ltb : float_scope.
Infix ">=?" := geb : float_scope.
Infix ">?" := gtb : float_scope.

(* ================================================================= *)
(** ** Exceptions *)

(** The Python exceptions that the modelled code can raise. *)
Inductive exn : Type :=
| ValueError
| IndexError
| KeyError
| ZeroDivisionError
| OverflowError.

Inductive result (A : Type) : Type :=
| Ok (a : A)
| Raise (e : exn).
Arguments Ok {A} a.
Arguments Raise {A} e.

Definition bind {A B : Type} (c : result A) (k : A -> result B) : result B :=
  match c with
  | Ok a => k a
  | Raise e => Raise e
  end.

Notation "x <- c ;; k" := (bind c (fun x => k))
  (at level 61, c at next level, right associativity).

Definition raises {A : Type} (c : result A) : Prop :=
  exists e, c = Raise e.

(** Python's [/] on two Python numbers: a zero divisor raises. *)
Definition py_truediv (x y : float64) : result float64 :=
  match y with
  | Fin b => if Qc_eq_bool b 0 then Raise ZeroDivisionError else Ok (x / y)%float
  | _ => Ok (x / y)%float
  end.

(* ================================================================= *)
(** ** The numpy operations used by the capacity formulas *)

Module Np.

(** A two-dimensional array, row-major; [ncols] is kept because an array
    with no rows still has a second dimension. *)
Record matrix (A : Type) : Type := Matrix {
  ncols : nat;
  rows : list (list A)
}.

(** [np.full(n, v)] *)
Definition full {A : Type} (n : nat) (v : A) : list A := repeat v n.

(** [a[np.newaxis, :] >= q[:, np.newaxis]]: one row per element of [q]. *)
Definition ge_outer (a q : list float64) : matrix bool :=
  Matrix (length a) (map (fun d => map (fun x => x >=? d)%float a) q).

(** Index of the first [true] of a row. *)
Fixpoint first_true (r : list bool) : option nat :=
  match r with
  | [] => None
  | b :: r' => if b then Some 0%nat else option_map S (first_true r')
  end.

(** [argmax] of a row of booleans: the first index holding the maximum,
    that is the first [true], and index 0 when the row is all [false]. *)
Definition argmax_row (r : list bool) : nat :=
  match first_true r with
  | Some i => i
  | None => 0%nat
  end.

(** [m.argmax(axis=1)]: numpy refuses a reduction axis of length zero
    ("attempt to get argmax of an empty sequence"). *)
Definition argmax_axis1 (m : matrix bool) : result (list nat) :=
  if (ncols m =? 0)%nat then Raise ValueError
  else Ok (map argmax_row (rows m)).

(** [m.any(axis=1)] *)
Definition any_axis1 (m : matrix bool) : list bool :=
  map (existsb (fun b => b)) (rows m).

(** [~mask] *)
Definition invert (mask : list bool) : list bool := map negb mask.

(** [a[indices]] with an integer index array: an index past the end raises. *)
Fixpoint take {A : Type} (a : list A) (indices : list nat) : result (list A) :=
  match indices with
  | [] => Ok []
  | i :: indices' =>
      match nth_error a i with
      | None => Raise IndexError
      | Some x => rest <- take a indices' ;; Ok (x :: rest)
      end
  end.

(** [a[mask] = v] with a scalar [v]. *)
Fixpoint putmask {A : Type} (a : list A) (mask : list bool) (v : A) : list A :=
  match a, mask with
  | x :: a', m :: mask' => (if m then v else x) :: putmask a' mask' v
  | _, _ => a
  end.

(** [a[mask]] with a boolean mask: the mask must have the array's length. *)
Fixpoint select {A : Type} (a : list A) (mask : list bool) : list A :=
  match a, mask with
  | x :: a', m :: mask' =>
      if m then x :: select a' mask' else select a' mask'
  | _, _ => []
  end.

Definition compress {A : Type} (a : list A) (mask : list bool) : result (list A) :=
  if (length mask =? length a)%nat then Ok (select a mask) else Raise IndexError.

Definition count_true (mask : list bool) : nat := length (filter (fun b => b) mask).

(** Writes [vals] in order at the [true] positions of [mask]. *)
Fixpoint scatter {A : Type} (a : list A) (mask : list bool) (vals : list A) : list A :=
  match a, mask with
  | x :: a', m :: mask' =>
      if m then
        match vals with
        | v :: vals' => v :: scatter a' mask' vals'
        | [] => x :: scatter a' mask' []
        end
      else x :: scatter a' mask' vals
  | _, _ => a
  end.

(** [a[mask] = vals] with an array [vals]: one value per [true] of the
    mask, or a single value that is replicated; anything else raises. *)
Definition place {A : Type} (a : list A) (mask : list bool) (vals : list A)
  : result (list A) :=
  if negb (length mask =? length a)%nat then Raise IndexError
  else if (length vals =? count_true mask)%nat then Ok (scatter a mask vals)
  else match vals with
       | [v] => Ok (putmask a mask v)
       | _ => Raise ValueError
       end.

(** Replaces the [i]-th entry of a row. *)
Fixpoint set_nth {A : Type} (i : nat) (v : A) (row : list A) : list A :=
  match row, i with
  | [], _ => []
  | _ :: row', O => v :: row'
  | x :: row', S i' => x :: set_nth i' v row'
  end.

(** [m[:, i] = col] *)
Fixpoint set_column {A : Type} (i : nat) (col : list A) (m : list (list A))
  : list (list A) :=
  match m, col with
  | row :: m', v :: col' => set_nth i v row :: set_column i col' m'
  | _, _ => m
  end.

(** Inner product of one row with the weight vector. *)
Fixpoint inner (row w : list float64) : float64 :=
  match row, w with
  | x :: row', y :: w' => (x * y + inner row' w')%float
  | _, _ => zero
  end.

(** [np.dot(m, w)] for a two-dimensional [m] and a vector [w]. *)
Definition dot (m : list (list float64)) (w : list float64) : list float64 :=
  map (fun row => inner row w) m.

(** Element-wise binary operation on one-dimensional arrays under numpy
    broadcasting: equal lengths pair up, a length-1 operand is
    replicated, any other combination raises. *)
Definition broadcast2 {A B : Type} (f : A -> A -> B) (xs ys : list A)
  : result (list B) :=
  if (length xs =? length ys)%nat then
    Ok (map (fun p => f (fst p) (snd p)) (combine xs ys))
  else
    match xs, ys with
    | [x], _ => Ok (map (fun y => f x y) ys)
    | _, [y] => Ok (map (fun x => f x y) xs)
    | _, _ => Raise ValueError
    end.

End Np.

(* ================================================================= *)
(** ** Class [Capacity]: parameters and radio capacity formulas *)

(** The three spectrum bands, the columns of the two lookup tables. *)
Inductive band : Type := L850 | L1800 | L2600.

(** The attributes of a [Capacity] object read by the modelled methods.
    The radius parameters are Python [int]s (they feed [range]); the
    lookup tables hold, per band, the distance breakpoints in kilometres
    and the achievable bitrates in kbps, as [float64] columns. *)
Record Capacity : Type := {
  bw_L850 : float64;
  bw_L1800 : float64;
  bw_L2600 : float64;
  cco : float64;
  dlthtarg : float64;
  rb_num_multiplier : Z;
  max_radius : Z;
  min_radius : Z;
  radius_step : Z;
  bwdistance_km : band -> list float64;
  bwdlachievbr : band -> list float64
}.

Section Formulas.

Variable self : Capacity.

Local Open Scope float_scope.

(** Property [bw]: the total bandwidth in MHz. *)
Definition bw : float64 := bw_L850 self + bw_L1800 self + bw_L2600 self.

(** Property [nrb]: the number of resource blocks. *)
Definition nrb : float64 := bw * of_Z (rb_num_multiplier self).

(** Property [avrbpdsch]: [((100 - cco) / nrb) * 100]. *)
Definition avrbpdsch : result float64 :=
  q <- py_truediv (of_Z 100 - cco self) nrb ;;
  Ok (q * of_Z 100).

(** The band weights, [bw_band / bw]. *)
Definition weights : result (list float64) :=
  w0 <- py_truediv (bw_L850 self) bw ;;
  w1 <- py_truediv (bw_L1800 self) bw ;;
  w2 <- py_truediv (bw_L2600 self) bw ;;
  Ok [w0; w1; w2].

(** The body of the loop of [get_dl_bitrate] for one band: the bitrate of
    the first breakpoint that is at least each queried distance. *)
Definition band_bitrate (distances_array bitrate_array poi_distances : list float64)
  : result (list float64) :=
  let mask := Np.ge_outer distances_array poi_distances in
  indices <- Np.argmax_axis1 mask ;;
  let no_larger_equal := Np.invert (Np.any_axis1 mask) in
  dl_bitrate <- Np.take bitrate_array indices ;;
  Ok (Np.putmask dl_bitrate no_larger_equal NaN).

(** The loop [for i, bw in enumerate(["L850", "L1800", "L2600"])]. *)
Fixpoint fill_bands (bands : list (nat * band)) (poi_distances : list float64)
    (dl_bitrates : list (list float64)) : result (list (list float64)) :=
  match bands with
  | [] => Ok dl_bitrates
  | (i, b) :: bands' =>
      dl_bitrate <- band_bitrate (bwdistance_km self b) (bwdlachievbr self b)
                      poi_distances ;;
      fill_bands bands' poi_distances (Np.set_column i dl_bitrate dl_bitrates)
  end.

Definition get_dl_bitrate (poi_distances : list float64) : result (list float64) :=
  let poi_distances := map (fun d => d / of_Z 1000) poi_distances in
  weights <- weights ;;
  let dl_bitrates := Np.full (length poi_distances) [NaN; NaN; NaN] in
  dl_bitrates <- fill_bands [(0%nat, L850); (1%nat, L1800); (2%nat, L2600)]
                   poi_distances dl_bitrates ;;
  Ok (Np.dot dl_bitrates weights).

(** The statements inside the [try] of [poiddatareq]. *)
Definition poiddatareq_body (d results : list float64) : result (list float64) :=
  dl_bitrate <- get_dl_bitrate d ;;
  let mask := map (fun x => x <=? of_Z (max_radius self)) d in
  selected <- Np.compress dl_bitrate mask ;;
  avrbpdsch <- avrbpdsch ;;
  let required := map (fun b => dlthtarg self * of_Z 1024 / (b / avrbpdsch)) selected in
  results <- Np.place results mask required ;;
  Np.place results (Np.invert mask) [PInf].

(** [poiddatareq]: every exception of the body is caught and logged, and
    the array created before the [try] is returned. *)
Definition poiddatareq (d : list float64) : list float64 :=
  let results := Np.full (length d) NaN in
  match poiddatareq_body d results with
  | Ok results' => results'
  | Raise _ => results
  end.

(** [brrbpopcd]: bitrate per resource block at the given distances. *)
Definition brrbpopcd (popcd : list float64) : list float64 :=
  let results := Np.full (length popcd) NaN in
  match (dl_bitrate <- get_dl_bitrate popcd ;;
         avrbpdsch <- avrbpdsch ;;
         Ok (map (fun b => b / avrbpdsch) dl_bitrate)) with
  | Ok results' => results'
  | Raise _ => results
  end.

(** [upoprbu]: only the first argument may be a scalar. *)
Definition upoprbu (upopbr brrbpopcd : list float64) : result (list float64) :=
  if negb (length upopbr =? 1)%nat && negb (length upopbr =? length brrbpopcd)%nat
  then Raise ValueError
  else Np.broadcast2 div upopbr brrbpopcd.

(** [cellavcap]: only the first argument may be a scalar. *)
Definition cellavcap (avrbpdsch upoprbu : list float64) : result (list float64) :=
  if negb (length avrbpdsch =? 1)%nat && negb (length avrbpdsch =? length upoprbu)%nat
  then Raise ValueError
  else Np.broadcast2 sub avrbpdsch upoprbu.

(** [sufcapch]: either argument may be a scalar. *)
Definition sufcapch (cellavcap rbdlthtarg : list float64) : result (list bool) :=
  if negb (length cellavcap =? 1)%nat && negb (length rbdlthtarg =? 1)%nat
     && negb (length cellavcap =? length rbdlthtarg)%nat
  then Raise ValueError
  else Np.broadcast2 gtb cellavcap rbdlthtarg.

End Formulas.

(** The configuration of the worked scenario; the scenario does not fix the
    radius parameters. *)
Definition scenario (max_radius min_radius radius_step : Z) : Capacity := {|
  bw_L850 := of_Z 10;
  bw_L1800 := of_Z 10;
  bw_L2600 := of_Z 10;
  cco := of_Z 10;
  dlthtarg := of_Z 5;
  rb_num_multiplier := 5;
  max_radius := max_radius;
  min_radius := min_radius;
  radius_step := radius_step;
  bwdistance_km := fun b =>
    match b with
    | L850 => [of_Z 2; of_Z 5; of_Z 10]
    | L1800 => [of_Z 1; of_Z 3; of_Z 6]
    | L2600 => [of_Q (1 # 2); of_Z 1; of_Z 2]
    end;
  bwdlachievbr := fun b =>
    match b with
    | L850 => [of_Z 20000; of_Z 10000; of_Z 5000]
    | L1800 => [of_Z 15000; of_Z 8000; of_Z 3000]
    | L2600 => [of_Z 10000; of_Z 5000; of_Z 1000]
    end
|}.


(* ================================================================= *)
(** ** [calculate_buffer_areas]: rings *)

(** Python's [range(start, stop, step)]: its length and its items, as the
    range object computes them. *)
Definition range_length (start stop step : Z) : Z :=
  if (0 <? step)%Z then
    if (start <? stop)%Z then ((stop - start - 1) / step + 1)%Z else 0%Z
  else
    if (stop <? start)%Z then ((start - stop - 1) / (- step) + 1)%Z else 0%Z.

Definition py_range (start stop step : Z) : result (list Z) :=
  if (step =? 0)%Z then Raise ValueError
  else Ok (map (fun k => (start + Z.of_nat k * step)%Z)
             (seq 0 (Z.to_nat (range_length start stop step)))).

Module Columns.

Local Open Scope string_scope.

(** [str(z)] for a Python [int]. *)
Definition str (z : Z) : string := NilZero.string_of_int (Z.to_int z).

(** The f-string [f'{prefix}_{radius}']. *)
Definition fmt (prefix : string) (radius : Z) : string :=
  prefix ++ "_" ++ str radius.

Definition is_digit (c : ascii) : bool :=
  match c with
  | "0" | "1" | "2" | "3" | "4" | "5" | "6" | "7" | "8" | "9" => true
  | _ => false
  end%char.

(** The longest prefix of digits. *)
Fixpoint take_digits (s : string) : string :=
  match s with
  | EmptyString => EmptyString
  | String c s' => if is_digit c then String c (take_digits s') else EmptyString
  end.

(** [str.extract(r'(\d+)')]: the first maximal run of digits, if any. *)
Fixpoint extract_digits (s : string) : option string :=
  match s with
  | EmptyString => None
  | String c s' =>
      if is_digit c then Some (String c (take_digits s')) else extract_digits s'
  end.

(** The first integer that a 64-bit signed integer cannot hold. *)
Definition int64_bound : Z := 9223372036854775808.

(** [.astype(int)] on the extracted text: a missing match cannot be
    converted, and the target type is [int64], so that a value from
    [2^63] on overflows. *)
Definition astype_int (o : option string) : result Z :=
  match o with
  | None => Raise ValueError
  | Some s =>
      match NilZero.uint_of_string s with
      | Some u =>
          if (Z.of_uint u <? int64_bound)%Z then Ok (Z.of_uint u)
          else Raise OverflowError
      | None => Raise ValueError
      end
  end.

(** [col.startswith(p)] *)
Fixpoint startswith (p col : string) : bool :=
  match p, col with
  | EmptyString, _ => true
  | String _ _, EmptyString => false
  | String a p', String b col' => Ascii.eqb a b && startswith p' col'
  end.

Definition has_column (name : string) (columns : list string) : bool :=
  existsb (String.eqb name) columns.

(** [df[name] = ...]: a new column is appended, an existing one is
    overwritten in place. *)
Definition set_column (name : string) (columns : list string) : list string :=
  if has_column name columns then columns else (columns ++ [name])%list.

(** The four columns that the loop adds for one radius. *)
Definition radius_columns (radius : Z) : list string :=
  [fmt "buffer" radius; fmt "ring" radius; fmt "clring" radius;
   fmt "clbuffer" radius]%list.

(** The columns of the cell-site frame when the loop starts. *)
Definition base_columns : list string :=
  ["ict_id"; "lat"; "lon"; "geometry"; "voronoi_polygons"]%list.

End Columns.

(** One row of [rings_gdf]: site, radius label [buffer], representative
    [radius]. *)
Record ring_record : Type := {
  ring_ict_id : Z;
  ring_buffer : Z;
  ring_radius : float64
}.

Section Rings.

Variable self : Capacity.

(** The identifiers of the rows of [cellsites_gdf]. *)
Variable sites : list Z.

Import Columns.
Local Open Scope string_scope.

(** [frame.apply(f, axis=1)] assigned to a column: on a frame without
    rows [apply] returns a frame instead of a column, and the assignment
    raises. *)
Definition apply_rows : result unit :=
  match sites with
  | [] => Raise ValueError
  | _ :: _ => Ok tt
  end.

(** The body of the loop over the radii, on the columns of
    [cellsites_gdf]. *)
Definition ring_step (columns : list string) (radius : Z) : result (list string) :=
  let buffer_col := fmt "buffer" radius in
  let ring_col := fmt "ring" radius in
  let clring_col := fmt "clring" radius in
  let clbuffer_col := fmt "clbuffer" radius in
  let columns := set_column buffer_col columns in
  columns <-
    (if (radius =? min_radius self)%Z then Ok (set_column ring_col columns)
     else
       let prev_buffer := fmt "buffer" (radius - radius_step self) in
       if has_column prev_buffer columns then Ok (set_column ring_col columns)
       else Raise KeyError) ;;
  _ <- apply_rows ;;
  let columns := set_column clring_col columns in
  _ <- apply_rows ;;
  let columns := set_column clbuffer_col columns in
  Ok columns.

Fixpoint ring_loop (radii : list Z) (columns : list string) : result (list string) :=
  match radii with
  | [] => Ok columns
  | radius :: radii' =>
      columns <- ring_step columns radius ;;
      ring_loop radii' columns
  end%list.

(** [melt(id_vars='ict_id')]: for each value column, one row per site. *)
Definition melt (sites : list Z) (value_columns : list string) : list (Z * string) :=
  flat_map (fun c => map (fun s => (s, c)) sites) value_columns.

Fixpoint ring_rows (melted : list (Z * string)) : result (list ring_record) :=
  match melted with
  | [] => Ok []
  | (s, c) :: melted' =>
      buffer <- astype_int (extract_digits c) ;;
      rest <- ring_rows melted' ;;
      Ok ({| ring_ict_id := s;
             ring_buffer := buffer;
             ring_radius := (of_Z buffer - of_Z (radius_step self) / of_Z 2)%float |}
          :: rest)
  end%list.

(** The ring part of [calculate_buffer_areas]: the loop over the radii,
    the selection of the maximal clipped buffer and the long-format
    ring table. *)
Definition rings_gdf : result (list ring_record) :=
  radii <- py_range (min_radius self) (max_radius self + 1) (radius_step self) ;;
  columns <- ring_loop radii base_columns ;;
  _ <- (if has_column (fmt "clbuffer" (max_radius self)) columns
        then Ok tt else Raise KeyError) ;;
  let rings_columns := filter (startswith "clring") columns in
  ring_rows (melt sites rings_columns).

End Rings.

(* ================================================================= *)
(** ** [calculate_buffer_areas]: visibility and point-level results *)

(** A point of interest, as a row of [pois_gdf]. *)
Record poi : Type := {
  poi_id : Z;
  lat : float64;
  lon : float64
}.

(** A row of the precomputed visibility table.  A missing site identifier
    or visibility flag is [None]. *)
Record visibility_pair : Type := {
  vp_poi_id : Z;
  vp_ict_id : option Z;
  vp_order : Z;
  vp_ground_distance : float64;
  vp_is_visible : option bool
}.

(** A row of [pois_within_cellsites] after the visibility analysis. *)
Record poi_row : Type := {
  row_poi : poi;
  row_ict_id : option Z;
  row_ground_distance : float64;
  row_is_visible : option bool
}.

(** A row of [cellsites_rbu]: one per site identifier of the ring table. *)
Record site_capacity : Type := {
  sc_ict_id : Z;
  sc_upoprbu : float64;
  sc_cellavcap : float64
}.

(** A row of the annotated point table that is returned. *)
Record poi_result : Type := {
  res_poi : poi;
  res_ict_id : option Z;
  res_ground_distance : float64;
  res_is_visible : option bool;
  res_rbdlthtarg : float64;
  res_upoprbu : float64;
  res_cellavcap : float64;
  res_sufcapch : bool
}.

(** One invocation [perform_pair_analysis(poi_id, ict_id)] of the
    visibility analyzer. *)
Definition oracle_call : Type := (Z * Z)%type.

(** A computation together with the oracle invocations it performs, in
    order. *)
Definition traced (A : Type) : Type := (A * list oracle_call)%type.

Definition tret {A : Type} (a : A) : traced A := (a, []).

Definition tbind {A B : Type} (c : traced A) (k : A -> traced B) : traced B :=
  let (a, t1) := c in
  let (b, t2) := k a in
  (b, t1 ++ t2).

Definition calls {A : Type} (c : traced A) : list oracle_call := snd c.
Definition value {A : Type} (c : traced A) : A := fst c.

(** [pois_gdf.estimate_utm_crs()] in the geodata preparation: a frame
    without points has no bounds to estimate a projection from, and the
    call raises. *)
Definition estimate_utm_crs (pois : list poi) : result unit :=
  match pois with
  | [] => Raise ValueError
  | _ :: _ => Ok tt
  end.

(** [series.fillna(v)] for one cell, a missing cell being not-a-number. *)
Definition fillna (v x : float64) : float64 := if isnan x then v else x.

Section Pipeline.

Variable self : Capacity.

(** [visibility_analyzer.perform_pair_analysis]: ground distance and
    visibility flag of a (point, site) pair. *)
Variable perform_pair_analysis : Z -> Z -> float64 * option bool.

(** The containment test of the spatial join: the point lies within the
    maximal clipped buffer of the site. *)
Variable within : poi -> Z -> bool.

(** [gpd.sjoin(pois_gdf, buffers_gdf, how='left', predicate='within')]:
    one row per buffer that contains the point, and one row without a
    site for a point that no buffer contains. *)
Definition sjoin_left (pois : list poi) (buffers : list Z) : list (poi * option Z) :=
  flat_map (fun p =>
              match filter (within p) buffers with
              | [] => [(p, None)]
              | found => map (fun s => (p, Some s)) found
              end) pois.

(** [drop_duplicates(subset='poi_id', keep='first')] *)
Fixpoint drop_duplicates (seen : list Z) (rows : list (poi * option Z))
  : list (poi * option Z) :=
  match rows with
  | [] => []
  | (p, s) :: rows' =>
      if existsb (Z.eqb (poi_id p)) seen then drop_duplicates seen rows'
      else (p, s) :: drop_duplicates (poi_id p :: seen) rows'
  end.

(** The nested function [_get_visibility_status] applied to one row. *)
Definition _get_visibility_status (row : poi * option Z)
  : traced (float64 * option bool) :=
  match snd row with
  | None => tret (NaN, None)
  | Some ict_id =>
      (perform_pair_analysis (poi_id (fst row)) ict_id,
       [(poi_id (fst row), ict_id)])
  end.

(** [frame.apply(_get_visibility_status, axis=1)], row after row. *)
Fixpoint apply_visibility (rows : list (poi * option Z)) : traced (list poi_row) :=
  match rows with
  | [] => tret []
  | row :: rows' =>
      tbind (_get_visibility_status row) (fun status =>
      tbind (apply_visibility rows') (fun rest =>
      tret ({| row_poi := fst row;
               row_ict_id := snd row;
               row_ground_distance := fst status;
               row_is_visible := snd status |} :: rest)))
  end.

(** The branch [if self.visibility is None].  Unpacking the zipped
    results into the two new columns needs at least one row. *)
Definition live_visibility (pois : list poi) (buffers : list Z)
  : traced (result (list poi_row)) :=
  let joined := drop_duplicates [] (sjoin_left pois buffers) in
  tbind (apply_visibility joined) (fun rows =>
  tret (match rows with
        | [] => Raise ValueError
        | _ => Ok rows
        end)).

(** [pois.merge(visibility_filtered, on="poi_id", how="left")] for one
    point: a row per matching pair, or one row of missing values. *)
Definition merge_poi (visibility_filtered : list visibility_pair) (p : poi)
  : list poi_row :=
  match filter (fun v => (vp_poi_id v =? poi_id p)%Z) visibility_filtered with
  | [] => [{| row_poi := p;
              row_ict_id := None;
              row_ground_distance := NaN;
              row_is_visible := None |}]
  | found =>
      map (fun v => {| row_poi := p;
                       row_ict_id := vp_ict_id v;
                       row_ground_distance := vp_ground_distance v;
                       row_is_visible := vp_is_visible v |}) found
  end.

(** The [else] branch: the precomputed pairs of rank order 1, joined to
    the points. *)
Definition precomputed_visibility (visibility : list visibility_pair)
    (pois : list poi) : list poi_row :=
  let visibility_filtered := filter (fun v => (vp_order v =? 1)%Z) visibility in
  flat_map (merge_poi visibility_filtered) pois.

(** The section VISIBILITY ANALYSIS. *)
Definition visibility_analysis (visibility : option (list visibility_pair))
    (pois : list poi) (buffers : list Z) : traced (result (list poi_row)) :=
  match visibility with
  | None => live_visibility pois buffers
  | Some visibility => tret (Ok (precomputed_visibility visibility pois))
  end.

(** [rows.merge(cellsites_rbu, on='ict_id', how='left')] for one row: the
    site rows with the same identifier; a row without a site identifier
    matches nothing, the keys of [cellsites_rbu] being group keys. *)
Definition merge_site (cellsites_rbu : list site_capacity) (ict_id : option Z)
  : list (float64 * float64) :=
  let found :=
    match ict_id with
    | None => []
    | Some s => filter (fun c => (sc_ict_id c =? s)%Z) cellsites_rbu
    end in
  match found with
  | [] => [(NaN, NaN)]
  | _ => map (fun c => (sc_upoprbu c, sc_cellavcap c)) found
  end.

(** A point row with its [rbdlthtarg] and the merged site columns. *)
Definition merged_row : Type := (poi_row * float64 * (float64 * float64))%type.

Definition merge_sites (cellsites_rbu : list site_capacity)
    (rows : list (poi_row * float64)) : list merged_row :=
  flat_map (fun r => map (fun c => (r, c)) (merge_site cellsites_rbu (row_ict_id (fst r))))
    rows.

Definition assemble (m : merged_row) (cellavcap : float64) (sufcapch : bool)
  : poi_result :=
  let '(row, rbdlthtarg, (upoprbu, _)) := m in
  {| res_poi := row_poi row;
     res_ict_id := row_ict_id row;
     res_ground_distance := row_ground_distance row;
     res_is_visible := row_is_visible row;
     res_rbdlthtarg := rbdlthtarg;
     res_upoprbu := upoprbu;
     res_cellavcap := cellavcap;
     res_sufcapch := sufcapch |}.

(** The sections POI-LEVEL COMPUTATIONS and MERGE POI AND CELL SITE. *)
Definition poi_level (cellsites_rbu : list site_capacity) (rows : list poi_row)
  : result (list poi_result) :=
  let rbdlthtarg := poiddatareq self (map row_ground_distance rows) in
  let merged := merge_sites cellsites_rbu (combine rows rbdlthtarg) in
  let cellavcap_col := map (fun m => fillna zero (snd (snd m))) merged in
  let rbdlthtarg_col := map (fun m => snd (fst m)) merged in
  sufcapch_col <- sufcapch cellavcap_col rbdlthtarg_col ;;
  Ok (map (fun x => assemble (fst (fst x)) (snd (fst x)) (snd x))
        (combine (combine merged cellavcap_col) sufcapch_col)).

(** [calculate_buffer_areas], from the geodata preparation to the
    annotated point table.  [sites] are the identifiers of the
    deduplicated cell sites and [cellsites_rbu] is the per-site table of
    the ring- and site-level computations.  The projection is estimated
    from the points before anything else; the geometries themselves
    (Voronoi cells, buffers, rings) are not part of the embedding. *)
Definition calculate_buffer_areas (visibility : option (list visibility_pair))
    (pois : list poi) (sites : list Z) (cellsites_rbu : list site_capacity)
  : traced (result (list ring_record * list poi_result)) :=
  match estimate_utm_crs pois with
  | Raise e => tret (Raise e)
  | Ok _ =>
      match rings_gdf self sites with
      | Raise e => tret (Raise e)
      | Ok rings =>
          tbind (visibility_analysis visibility pois sites) (fun rows =>
          tret (rows <- rows ;;
                results <- poi_level cellsites_rbu rows ;;
                Ok (rings, results)))
      end
  end.

End Pipeline.

(* ================================================================= *)
(** ** Reference definitions for the statements *)

(** The step function of one band: the bitrate of the first entry whose
    breakpoint is at least [d], and not-a-number when there is none. *)
Fixpoint bitrate_at (distances bitrates : list float64) (d : float64) : float64 :=
  match distances, bitrates with
  | x :: distances', b :: bitrates' =>
      if (x >=? d)%float then b else bitrate_at distances' bitrates' d
  | _, _ => NaN
  end.

(** A distance is within the range of a breakpoint table when some
    breakpoint is at least the distance. *)
Definition in_range (distances : list float64) (d : float64) : bool :=
  existsb (fun x => (x >=? d)%float) distances.

(** The bandwidth of a band and its tables. *)
Definition band_bw (self : Capacity) (b : band) : float64 :=
  match b with
  | L850 => bw_L850 self
  | L1800 => bw_L1800 self
  | L2600 => bw_L2600 self
  end.

(** The bitrate of band [b] at a distance given in metres. *)
Definition band_value (self : Capacity) (b : band) (d : float64) : float64 :=
  bitrate_at (bwdistance_km self b) (bwdlachievbr self b) (d / of_Z 1000)%float.

(** The bandwidth-share-weighted sum of the three band values. *)
Definition weighted_bitrate (self : Capacity) (d : float64) : float64 :=
  (band_value self L850 d * (bw_L850 self / bw self)
   + (band_value self L1800 d * (bw_L1800 self / bw self)
      + (band_value self L2600 d * (bw_L2600 self / bw self) + zero)))%float.

(** A Python number that is not zero, so that dividing by it does not
    raise. *)
Definition nonzero (x : float64) : bool :=
  match x with
  | Fin q => negb (Qc_eq_bool q 0)
  | _ => true
  end.

(** Every band has at least one breakpoint, and a bitrate for every
    breakpoint. *)
Definition tables_ok (self : Capacity) : bool :=
  forallb (fun b =>
             negb (length (bwdistance_km self b) =? 0)%nat
             && (length (bwdistance_km self b) <=? length (bwdlachievbr self b))%nat)
    [L850; L1800; L2600].

(** The configurations on which the bitrate lookup and [avrbpdsch] do not
    raise: total bandwidth and number of resource blocks are not zero and
    the tables are well shaped. *)
Definition config_ok (self : Capacity) : bool :=
  nonzero (bw self) && nonzero (nrb self) && tables_ok self.

(** The value of [avrbpdsch] when it does not raise. *)
Definition avrbpdsch_value (self : Capacity) : float64 :=
  ((of_Z 100 - cco self) / nrb self * of_Z 100)%float.

(** The requirement computed for a distance within [max_radius]. *)
Definition required_rb (self : Capacity) (d : float64) : float64 :=
  (dlthtarg self * of_Z 1024 / (weighted_bitrate self d / avrbpdsch_value self))%float.

(** A configuration with its two lookup tables replaced. *)
Definition with_tables (self : Capacity)
    (distances bitrates : band -> list float64) : Capacity :=
  {| bw_L850 := bw_L850 self;
     bw_L1800 := bw_L1800 self;
     bw_L2600 := bw_L2600 self;
     cco := cco self;
     dlthtarg := dlthtarg self;
     rb_num_multiplier := rb_num_multiplier self;
     max_radius := max_radius self;
     min_radius := min_radius self;
     radius_step := radius_step self;
     bwdistance_km := distances;
     bwdlachievbr := bitrates |}.

(** The values expected of the worked scenario: bitrate 15000 kbps, 150
    resource blocks, 60 of them available, 20.48 required. *)
Definition scenario_expected (self : Capacity) : Prop :=
  get_dl_bitrate self [of_Z 1500] = Ok [of_Z 15000] /\
  nrb self = of_Z 150 /\
  avrbpdsch self = Ok (of_Z 60) /\
  poiddatareq self [of_Z 1500] = [of_Q (2048 # 100)].

(** Positive infinity exactly at the positions whose distance exceeds
    [max_radius]. *)
Definition infinite_exactly_beyond (self : Capacity) (d : list float64) : Prop :=
  forall i x, nth_error d i = Some x ->
    (nth_error (poiddatareq self d) i = Some PInf
     <-> (x >? of_Z (max_radius self))%float = true).

(** A call raises exactly when both arguments are non-scalar arrays of
    different lengths. *)
Definition raises_exactly_on_mismatch {B : Type}
    (f : list float64 -> list float64 -> result (list B))
    (xs ys : list float64) : Prop :=
  raises (f xs ys) <->
  (length xs <> 1%nat /\ length ys <> 1%nat /\ length xs <> length ys).

(** A table of bitrates that never increases from one entry to the next. *)
Fixpoint nonincreasing (bs : list float64) : bool :=
  match bs with
  | x :: (y :: _) as rest => (x >=? y)%float && nonincreasing rest
  | _ => true
  end.

Definition finite_table (bs : list float64) : bool := forallb isfinite bs.

Definition bands : list band := [L850; L1800; L2600].

(** Every band has finite, non-increasing bitrates. *)
Definition bitrates_nonincreasing (self : Capacity) : bool :=
  forallb (fun b => finite_table (bwdlachievbr self b)
                    && nonincreasing (bwdlachievbr self b)) bands.

(** The bandwidths are finite and not negative, and their total is not
    zero. *)
Definition shares_ok (self : Capacity) : bool :=
  forallb (fun b => isfinite (band_bw self b) && (zero <=? band_bw self b)%float) bands
  && nonzero (bw self).

(** A distance in metres that is within the range of every band's table. *)
Definition within_tables (self : Capacity) (d : float64) : bool :=
  forallb (fun b => in_range (bwdistance_km self b) (d / of_Z 1000)%float) bands.

(** The shape shared by [upoprbu] and [cellavcap]: the size check names
    the first argument only. *)
Definition first_scalar {B : Type} (op : float64 -> float64 -> B)
    (xs ys : list float64) : result (list B) :=
  if negb (length xs =? 1)%nat && negb (length xs =? length ys)%nat
  then Raise ValueError
  else Np.broadcast2 op xs ys.

(** The row built from a joined (point, site) row, given the visibility
    analyzer. *)
Definition live_row (perform_pair_analysis : Z -> Z -> float64 * option bool)
    (row : poi * option Z) : poi_row :=
  {| row_poi := fst row;
     row_ict_id := snd row;
     row_ground_distance :=
       match snd row with
       | None => NaN
       | Some s => fst (perform_pair_analysis (poi_id (fst row)) s)
       end;
     row_is_visible :=
       match snd row with
       | None => None
       | Some s => snd (perform_pair_analysis (poi_id (fst row)) s)
       end |}.

(** The oracle invocation made for a joined row. *)
Definition live_call (row : poi * option Z) : list oracle_call :=
  match snd row with
  | None => []
  | Some s => [(poi_id (fst row), s)]
  end.

(** The last two steps of the point level on one merged row. *)
Definition finish (m : merged_row) : poi_result :=
  assemble m (fillna zero (snd (snd m)))
    (fillna zero (snd (snd m)) >? snd (fst m))%float.

(** The [k]-th radius of the loop. *)
Definition nth_radius (self : Capacity) (k : nat) : Z :=
  (min_radius self + Z.of_nat k * radius_step self)%Z.

(** The rows of the long-format ring table for a list of radii: the label
    read back from a column name is the absolute value of its radius. *)
Definition ring_table (self : Capacity) (sites : list Z) (radii : list Z)
  : list ring_record :=
  flat_map (fun r =>
              map (fun s => {| ring_ict_id := s;
                               ring_buffer := Z.abs r;
                               ring_radius :=
                                 (of_Z (Z.abs r) - of_Z (radius_step self) / of_Z 2)%float |})
                sites) radii.

(** The step is positive, the range is not empty and the step divides
    it. *)
Definition evenly_divided (self : Capacity) : Prop :=
  (0 < radius_step self)%Z /\
  (min_radius self <= max_radius self)%Z /\
  ((max_radius self - min_radius self) mod radius_step self = 0)%Z.

(** Number of steps from [min_radius] to [max_radius]. *)
Definition steps (self : Capacity) : nat :=
  Z.to_nat ((max_radius self - min_radius self) / radius_step self).

(** [min_radius, min_radius + radius_step, ..., max_radius]. *)
Definition arithmetic_radii (self : Capacity) : list Z :=
  map (nth_radius self) (seq 0 (S (steps self))).


(** Every radius label fits a 64-bit signed integer. *)
Definition int64_labels (self : Capacity) : Prop :=
  (- Columns.int64_bound < min_radius self)%Z /\
  (max_radius self < Columns.int64_bound)%Z.


(** The rank-order-1 pairs of the table for a point. *)
Definition rank1_pairs (table : list visibility_pair) (p : poi)
  : list visibility_pair :=
  filter (fun v => (vp_order v =? 1)%Z && (vp_poi_id v =? poi_id p)%Z) table.

(** The row of a point that has no pair, and the row of a point with one
    of its pairs. *)
Definition missing_row (p : poi) : poi_row :=
  {| row_poi := p;
     row_ict_id := None;
     row_ground_distance := NaN;
     row_is_visible := None |}.

Definition pair_row (p : poi) (v : visibility_pair) : poi_row :=
  {| row_poi := p;
     row_ict_id := vp_ict_id v;
     row_ground_distance := vp_ground_distance v;
     row_is_visible := vp_is_visible v |}.

(** The points joined by point identifier to the rank-order-1 pairs:
    point after point, a row for each of its pairs, and one row of missing
    values for a point without any. *)
Definition joined_by_poi_id (table : list visibility_pair) (pois : list poi)
  : list poi_row :=
  flat_map (fun p =>
              match rank1_pairs table p with
              | [] => [missing_row p]
              | found => map (pair_row p) found
              end) pois.

(** The visibility columns of a returned row. *)
Definition visibility_columns (r : poi_result) : poi_row :=
  {| row_poi := res_poi r;
     row_ict_id := res_ict_id r;
     row_ground_distance := res_ground_distance r;
     row_is_visible := res_is_visible r |}.

(** A small run of the pipeline: point 1 lies within the buffer of site 7,
    point 2 within none. *)
Definition demo_pois : list poi :=
  [ {| poi_id := 1; lat := of_Z 10; lon := of_Z 20 |};
    {| poi_id := 2; lat := of_Z 11; lon := of_Z 21 |} ].

Definition demo_within (p : poi) (s : Z) : bool :=
  (poi_id p =? 1)%Z && (s =? 7)%Z.

Definition demo_oracle (p s : Z) : float64 * option bool := (of_Z 500, Some true).

Definition demo_rbu : list site_capacity :=
  [ {| sc_ict_id := 7; sc_upoprbu := of_Z 10; sc_cellavcap := of_Z 50 |} ].

Definition demo_visibility : list visibility_pair :=
  [ {| vp_poi_id := 1; vp_ict_id := Some 8%Z; vp_order := 2;
       vp_ground_distance := of_Z 1800; vp_is_visible := Some false |};
    {| vp_poi_id := 1; vp_ict_id := Some 7%Z; vp_order := 1;
       vp_ground_distance := of_Z 500; vp_is_visible := Some true |} ].

Definition demo_run (visibility : option (list visibility_pair))
  : traced (result (list ring_record * list poi_result)) :=
  calculate_buffer_areas (scenario 2000 1000 1000) demo_oracle demo_within
    visibility demo_pois [7%Z] demo_rbu.

Definition demo_rings (visibility : option (list visibility_pair)) : list ring_record :=
  match value (demo_run visibility) with
  | Ok (rings, _) => rings
  | Raise _ => []
  end.

Definition demo_results (visibility : option (list visibility_pair)) : list poi_result :=
  match value (demo_run visibility) with
  | Ok (_, results) => results
  | Raise _ => []
  end.


(* ================================================================= *)
(** ** Class [Capacity]: the demand side *)

(** A row of the table built by [mbbtps], which is also the layout of the
    table [mbbt] that the demand formulas read. *)
Record mbbtps_row : Type := {
  entityName : string;
  entityIso_mbbsubscr : string;
  dataValue_mbbsubscr : float64;
  dataValue_mbbtraffic : float64;
  mbb_traffic_per_subscr_per_month : float64;
  dataYear : Z
}.

(** The attributes of a [Capacity] object read by the demand-side methods,
    beside those of [Capacity] above.  [sectors_per_site] and [nbhours] are
    Python [int]s. *)
Record Demand : Type := {
  country_code : string;
  sectors_per_site : Z;
  mbb_subscr : float64;
  oppopshare : float64;
  nonbhu : float64;
  nbhours : Z;
  mbbt : list mbbtps_row
}.

(** The constants set by [__init__]. *)
Definition days : float64 := of_Q (304 # 10).
Definition minperhour : float64 := of_Z 60.
Definition secpermin : float64 := of_Z 60.
Definition bitsinkbit : float64 := of_Z 1000.
Definition bitsingbyte : float64 := of_Z 8589934592.

(** [series.item()]: the only element, and an error for any other size. *)
Definition item {A : Type} (xs : list A) : result A :=
  match xs with
  | [x] => Ok x
  | _ => Raise ValueError
  end.

(** [xs[0]] *)
Definition first {A : Type} (xs : list A) : result A :=
  match xs with
  | x :: _ => Ok x
  | [] => Raise IndexError
  end.

(** A function that can raise, applied to every element in order. *)
Fixpoint mapM {A B : Type} (f : A -> result B) (xs : list A) : result (list B) :=
  match xs with
  | [] => Ok []
  | x :: xs' =>
      y <- f x ;;
      ys <- mapM f xs' ;;
      Ok (y :: ys)
  end.

(** A Python number or a one-dimensional array: arithmetic between two
    Python numbers follows Python (a zero divisor raises), arithmetic with an
    array follows numpy. *)
Inductive operand : Type :=
| Scalar (x : float64)
| Array (xs : list float64).

(** [np.array(o, dtype=float).flatten()] *)
Definition flatten (o : operand) : list float64 :=
  match o with
  | Scalar x => [x]
  | Array xs => xs
  end.

(** The rows of [mbbt] of the configured country. *)
Definition country_rows (self : Demand) : list mbbtps_row :=
  filter (fun r => String.eqb (entityIso_mbbsubscr r) (country_code self)) (mbbt self).

(** Property [udatavmonth_pu]. *)
Definition udatavmonth_pu (self : Demand) : result float64 :=
  item (map mbb_traffic_per_subscr_per_month (country_rows self)).

(** Property [udatavmonth_year]. *)
Definition udatavmonth_year (self : Demand) : result Z :=
  item (map dataYear (country_rows self)).

Section DemandFormulas.

Variable self : Capacity.
Variable demand : Demand.

Local Open Scope float_scope.

(** [avubrnonbh]: average user bitrate in the non-busy hour, in kbps.
    [udatavmonth] is a Python number, as [udatavmonth_pu] returns it, so
    every division is Python's. *)
Definition avubrnonbh (udatavmonth : float64) : result float64 :=
  a <- py_truediv udatavmonth days ;;
  b <- py_truediv a (of_Z (nbhours demand)) ;;
  c <- py_truediv (b * nonbhu demand) (of_Z 100) ;;
  d <- py_truediv c minperhour ;;
  e <- py_truediv d secpermin ;;
  py_truediv (e * bitsingbyte) bitsinkbit.

(** [upopbr]: with a Python number for [pop] the last division is
    Python's, with an array it is numpy's. *)
Definition upopbr (avubrnonbh : float64) (pop : operand) : result operand :=
  subscr <- py_truediv (mbb_subscr demand) (of_Z 100) ;;
  share <- py_truediv (oppopshare demand) (of_Z 100) ;;
  match pop with
  | Scalar x =>
      q <- py_truediv (avubrnonbh * x * subscr * share)
             (of_Z (sectors_per_site demand)) ;;
      Ok (Scalar q)
  | Array xs =>
      Ok (Array (map (fun x => avubrnonbh * x * subscr * share
                               / of_Z (sectors_per_site demand)) xs))
  end.

(** The dictionary returned by [capacity_checker]. *)
Record checker_result : Type := {
  cc_upopbr : operand;
  cc_upoprbu : list float64;
  cc_cellavcap : list float64;
  cc_capcheck : list bool
}.

(** [capacity_checker]; [d] and [popcd] are taken flattened. *)
Definition capacity_checker (d popcd : list float64) (udatavmonth : float64)
    (pop : operand) : result checker_result :=
  let rbdlthtarg := poiddatareq self d in
  let brrpopcd := brrbpopcd self popcd in
  avubrnonbh <- avubrnonbh udatavmonth ;;
  upopbr <- upopbr avubrnonbh pop ;;
  upoprbu <- upoprbu (flatten upopbr) brrpopcd ;;
  avrbpdsch <- avrbpdsch self ;;
  cellavcap <- cellavcap [avrbpdsch] upoprbu ;;
  capcheck <- sufcapch cellavcap rbdlthtarg ;;
  Ok {| cc_upopbr := upopbr;
        cc_upoprbu := upoprbu;
        cc_cellavcap := cellavcap;
        cc_capcheck := capcheck |}.

End DemandFormulas.

(* ================================================================= *)
(** ** [calculate_buffer_areas]: ring-level and site-level computations *)

(** A pandas sum: missing values are skipped, and a sum over nothing is
    zero. *)
Definition nansum (xs : list float64) : float64 :=
  fold_left (fun acc x => if isnan x then acc else (acc + x)%float) xs zero.

(** The distinct keys of a [groupby], in ascending order. *)
Fixpoint insert_key {K : Type} (cmp : K -> K -> comparison) (k : K) (keys : list K)
  : list K :=
  match keys with
  | [] => [k]
  | k' :: keys' =>
      match cmp k k' with
      | Lt => k :: keys
      | Eq => keys
      | Gt => k' :: insert_key cmp k keys'
      end
  end.

Definition group_keys {K : Type} (cmp : K -> K -> comparison) (ks : list K) : list K :=
  fold_right (insert_key cmp) [] ks.

(** [frame.groupby(key)[column].sum()] on (key, value) rows. *)
Definition groupby_sum (rows : list (Z * float64)) : list (Z * float64) :=
  map (fun k => (k, nansum (map snd (filter (fun r => (fst r =? k)%Z) rows))))
    (group_keys Z.compare (map fst rows)).

(** A row of [rings_gdf] with the columns added by the ring level. *)
Record ring_level_row : Type := {
  rl_ring : ring_record;
  rl_brrbpopcd : float64;
  rl_population : float64;
  rl_upopbr : float64;
  rl_upoprbu : float64
}.

Section RingLevel.

Variable self : Capacity.
Variable demand : Demand.

(** The population samples that the inner spatial join puts within the
    ring of a site with a given radius label. *)
Variable population_within : Z -> Z -> list float64.

(** The population column of a ring: the sum over its samples, left-merged
    on (site, label), and zero for a ring without samples. *)
Definition ring_population (r : ring_record) : float64 :=
  fillna zero
    (match population_within (ring_ict_id r) (ring_buffer r) with
     | [] => NaN
     | samples => nansum samples
     end).

Definition ring_level_rows (rings : list ring_record)
    (brrbpopcd population upopbr upoprbu : list float64) : list ring_level_row :=
  map (fun x =>
         let '(r, b, p, u, ru) := x in
         {| rl_ring := r;
            rl_brrbpopcd := b;
            rl_population := p;
            rl_upopbr := u;
            rl_upoprbu := ru |})
    (combine (combine (combine (combine rings brrbpopcd) population) upopbr) upoprbu).

(** The section RING-LEVEL COMPUTATIONS AROUND EACH CELL SITE. *)
Definition ring_level (rings : list ring_record) : result (list ring_level_row) :=
  brrbpopcd_col <- mapM (fun r => first (brrbpopcd self [ring_radius r])) rings ;;
  let population := map ring_population rings in
  udatavmonth <- udatavmonth_pu demand ;;
  avubrnonbh <- avubrnonbh demand udatavmonth ;;
  upopbr_col <- upopbr demand avubrnonbh (Array population) ;;
  upoprbu_col <- upoprbu (flatten upopbr_col) brrbpopcd_col ;;
  Ok (ring_level_rows rings brrbpopcd_col population (flatten upopbr_col) upoprbu_col).

(** The section CELL SITE-LEVEL COMPUTATIONS: the utilisation summed per
    site and the available capacity of each site. *)
Definition site_level (ring_rows : list ring_level_row) : result (list site_capacity) :=
  let cellsites_rbu :=
    groupby_sum (map (fun r => (ring_ict_id (rl_ring r), rl_upoprbu r)) ring_rows) in
  mapM (fun g =>
          avrbpdsch <- avrbpdsch self ;;
          c <- cellavcap [avrbpdsch] [snd g] ;;
          c0 <- first c ;;
          Ok {| sc_ict_id := fst g; sc_upoprbu := snd g; sc_cellavcap := c0 |})
    cellsites_rbu.

Variable perform_pair_analysis : Z -> Z -> float64 * option bool.
Variable within : poi -> Z -> bool.

(** [calculate_buffer_areas] with its ring- and site-level computations:
    the geodata preparation, the ring table, the visibility analysis, the
    ring and site levels, and the merge of the points with the sites. *)
Definition calculate_buffer_areas_demand (visibility : option (list visibility_pair))
    (pois : list poi) (sites : list Z)
  : traced (result (list ring_level_row * list poi_result)) :=
  match estimate_utm_crs pois with
  | Raise e => tret (Raise e)
  | Ok _ =>
      match rings_gdf self sites with
      | Raise e => tret (Raise e)
      | Ok rings =>
          tbind (visibility_analysis perform_pair_analysis within visibility pois
                   sites)
            (fun rows =>
               tret (rows <- rows ;;
                     ring_rows <- ring_level rings ;;
                     cellsites_rbu <- site_level ring_rows ;;
                     results <- poi_level self cellsites_rbu rows ;;
                     Ok (ring_rows, results)))
      end
  end.

End RingLevel.

(* ================================================================= *)
(** ** [mbbtps] *)

(** A row of the two ITU tables, [mbbsubscr] and [mbbtraffic]. *)
Record itu_row : Type := {
  itu_entityName : string;
  itu_entityIso : string;
  itu_dataYear : Z;
  itu_dataValue : float64
}.

(** A row of the two tables merged on entity name and year. *)
Record itu_pair : Type := {
  pair_subscr : itu_row;
  pair_traffic : itu_row
}.

(** numpy's [x != 0]: true for not-a-number. *)
Definition ne0 (x : float64) : bool :=
  match x with
  | Fin q => negb (Qc_eq_bool q 0)
  | _ => true
  end.

(** [pd.merge(mbbsubscr, mbbtraffic, on=['entityName', 'dataYear'])] *)
Definition merge_itu (mbbsubscr mbbtraffic : list itu_row) : list itu_pair :=
  flat_map (fun s =>
              map (fun t => {| pair_subscr := s; pair_traffic := t |})
                (filter (fun t => String.eqb (itu_entityName t) (itu_entityName s)
                                  && (itu_dataYear t =? itu_dataYear s)%Z)
                   mbbtraffic))
    mbbsubscr.

Definition pair_name (p : itu_pair) : string := itu_entityName (pair_subscr p).
Definition pair_year (p : itu_pair) : Z := itu_dataYear (pair_subscr p).

(** [groupby('entityName')['dataYear'].max()]: one row per entity, in the
    order of the names, with its latest year. *)
Definition latest_years (filtered_data : list itu_pair) : list (string * Z) :=
  map (fun name =>
         (name,
          match map pair_year
                  (filter (fun p => String.eqb (pair_name p) name) filtered_data) with
          | [] => 0%Z
          | y :: ys => fold_left Z.max ys y
          end))
    (group_keys String.compare (map pair_name filtered_data)).

(** [mbbtps]: the traffic per subscription and month of every entity, for
    its latest year with data in both tables. *)
Definition mbbtps (mbbsubscr mbbtraffic : list itu_row) : list mbbtps_row :=
  let df := merge_itu mbbsubscr mbbtraffic in
  let filtered_data :=
    filter (fun p => ne0 (itu_dataValue (pair_subscr p))
                     && ne0 (itu_dataValue (pair_traffic p))) df in
  let latest_years := latest_years filtered_data in
  let df :=
    flat_map (fun p =>
                map (fun _ => p)
                  (filter (fun l => String.eqb (fst l) (pair_name p)
                                    && (snd l =? pair_year p)%Z) latest_years))
      filtered_data in
  map (fun p =>
         {| entityName := pair_name p;
            entityIso_mbbsubscr := itu_entityIso (pair_subscr p);
            dataValue_mbbsubscr := itu_dataValue (pair_subscr p);
            dataValue_mbbtraffic := itu_dataValue (pair_traffic p);
            mbb_traffic_per_subscr_per_month :=
              (itu_dataValue (pair_traffic p) * of_Z (1024 ^ 3)
               / itu_dataValue (pair_subscr p) / of_Z 12)%float;
            dataYear := pair_year p |})
    df.

(* ================================================================= *)
(** ** Reference definitions for the further statements *)

(** The bitrate per resource block at a distance, when the lookup and
    [avrbpdsch] return. *)
Definition bitrate_per_rb (self : Capacity) (d : float64) : float64 :=
  (weighted_bitrate self d / avrbpdsch_value self)%float.

(** A finite value that is not negative, and one that is positive. *)
Definition is_nonneg (x : float64) : bool := isfinite x && (zero <=? x)%float.
Definition is_positive (x : float64) : bool := isfinite x && (zero <? x)%float.

(** Every bitrate of every band is finite and not negative. *)
Definition bitrates_nonneg (self : Capacity) : bool :=
  forallb (fun b => forallb is_nonneg (bwdlachievbr self b)) bands.

(** A configuration whose tables have three breakpoints but one bitrate. *)
Definition short_bitrates : Capacity :=
  with_tables (scenario 2000 1000 1000)
    (fun _ => [of_Z 1; of_Z 2; of_Z 3]) (fun _ => [of_Z 100]).

(** Not-a-number, or a finite number that is not negative. *)
Definition nan_or_nonneg (x : float64) : Prop :=
  x = NaN \/ exists q, x = Fin q /\ (0 <= q)%Qc.

(** Kilobits per second of one gigabyte per month spread over one non-busy
    hour a day at 100 % usage: [8589934592 / (30.4 * 100 * 60 * 60 * 1000)]. *)
Definition kbps_per_gb_month : Qc := Q2Qc (8589934592 # 10944000000).


(** A small demand configuration: three sectors per site, 50 subscriptions
    per 100 people, half of the population with the operator, 50 % usage
    over ten non-busy hours, and a traffic table with one row for the
    country. *)
Definition demo_demand : Demand :=
  {| country_code := "ESP";
     sectors_per_site := 3;
     mbb_subscr := of_Z 50;
     oppopshare := of_Z 50;
     nonbhu := of_Z 50;
     nbhours := 10;
     mbbt := [ {| entityName := "Spain";
                  entityIso_mbbsubscr := "ESP";
                  dataValue_mbbsubscr := of_Z 1000;
                  dataValue_mbbtraffic := of_Z 5;
                  mbb_traffic_per_subscr_per_month := of_Z 5;
                  dataYear := 2022 |};
               {| entityName := "France";
                  entityIso_mbbsubscr := "FRA";
                  dataValue_mbbsubscr := of_Z 2000;
                  dataValue_mbbtraffic := of_Z 8;
                  mbb_traffic_per_subscr_per_month := of_Z 7;
                  dataYear := 2021 |} ] |}.

(** The reasons for which [capacity_checker] raises. *)
Definition checker_fails (self : Capacity) (demand : Demand)
    (d popcd : list float64) (pop : operand) : Prop :=
  nbhours demand = 0%Z
  \/ (exists x, pop = Scalar x /\ sectors_per_site demand = 0%Z)
  \/ (length (flatten pop) <> 1%nat /\ length (flatten pop) <> length popcd)
  \/ nonzero (nrb self) = false
  \/ (length popcd <> 1%nat /\ length d <> 1%nat /\ length popcd <> length d).

(** A run of [capacity_checker] for one population centre at 1000 m. *)
Definition demo_check (d : list float64) : result checker_result :=
  capacity_checker (scenario 2000 1000 1000) demo_demand d [of_Z 1000] (of_Z 5)
    (Scalar (of_Z 1000)).

(** The value of [upopbr] for one population. *)
Definition upopbr_value (demand : Demand) (a x : float64) : float64 :=
  (a * x * (mbb_subscr demand / of_Z 100) * (oppopshare demand / of_Z 100)
   / of_Z (sectors_per_site demand))%float.

(** The bitrate per resource block at the radius of a ring. *)
Definition ring_bitrate (self : Capacity) (r : ring_record) : float64 :=
  nth 0 (brrbpopcd self [ring_radius r]) NaN.

(** The row of the ring table for one ring, given the average user
    bitrate. *)
Definition ring_row (self : Capacity) (demand : Demand)
    (population_within : Z -> Z -> list float64) (a : float64) (r : ring_record)
  : ring_level_row :=
  {| rl_ring := r;
     rl_brrbpopcd := ring_bitrate self r;
     rl_population := ring_population population_within r;
     rl_upopbr := upopbr_value demand a (ring_population population_within r);
     rl_upoprbu := (upopbr_value demand a (ring_population population_within r)
                    / ring_bitrate self r)%float |}.

(** The utilisation summed per site. *)
Definition site_loads (ring_rows : list ring_level_row) : list (Z * float64) :=
  groupby_sum (map (fun r => (ring_ict_id (rl_ring r), rl_upoprbu r)) ring_rows).

(** The row of the site table for one group. *)
Definition site_row (av : float64) (g : Z * float64) : site_capacity :=
  {| sc_ict_id := fst g; sc_upoprbu := snd g; sc_cellavcap := (av - snd g)%float |}.

(** The reasons for which the pipeline raises. *)
Definition pipeline_fails (self : Capacity) (demand : Demand)
    (pois : list poi) (sites : list Z) : Prop :=
  pois = []
  \/ ~ evenly_divided self
  \/ sites = []
  \/ ~ int64_labels self
  \/ length (country_rows demand) <> 1%nat
  \/ nbhours demand = 0%Z
  \/ nonzero (nrb self) = false.

(** A row of the returned table without its visibility flag. *)
Definition without_flag (r : poi_result)
  : poi * option Z * float64 * float64 * float64 * float64 * bool :=
  (res_poi r, res_ict_id r, res_ground_distance r, res_rbdlthtarg r,
   res_upoprbu r, res_cellavcap r, res_sufcapch r).

(** The population samples of the small run: 1200 people in the ring of
    site 7 labelled 1000, nobody elsewhere. *)
Definition demo_population (s b : Z) : list float64 :=
  if ((s =? 7) && (b =? 1000))%Z then [of_Z 700; of_Z 500] else [].

Definition demo_full_run (visibility : option (list visibility_pair))
    (oracle : Z -> Z -> float64 * option bool)
  : traced (result (list ring_level_row * list poi_result)) :=
  calculate_buffer_areas_demand (scenario 2000 1000 1000) demo_demand demo_population
    oracle demo_within visibility demo_pois [7%Z].

Definition demo_full_results (visibility : option (list visibility_pair))
    (oracle : Z -> Z -> float64 * option bool) : list poi_result :=
  match value (demo_full_run visibility oracle) with
  | Ok (_, results) => results
  | Raise _ => []
  end.

Definition demo_full_rings (visibility : option (list visibility_pair))
    (oracle : Z -> Z -> float64 * option bool) : list ring_level_row :=
  match value (demo_full_run visibility oracle) with
  | Ok (rings, _) => rings
  | Raise _ => []
  end.

(** An oracle that reports the same distances as [demo_oracle] and no line
    of sight. *)
Definition demo_oracle_blocked (p s : Z) : float64 * option bool :=
  (of_Z 500, Some false).

(** A list of keys in strictly ascending order. *)
Fixpoint ascending (ks : list Z) : Prop :=
  match ks with
  | [] => True
  | k :: ks' => Forall (Z.lt k) ks' /\ ascending ks'
  end.

(** A visibility pair, and a row of the visibility analysis, without the
    visibility flag. *)
Definition pair_without_flag (v : visibility_pair) : Z * option Z * Z * float64 :=
  (vp_poi_id v, vp_ict_id v, vp_order v, vp_ground_distance v).

Definition row_without_flag (row : poi_row) : poi * option Z * float64 :=
  (row_poi row, row_ict_id row, row_ground_distance row).

(** Two outcomes of the pipeline that differ at most in the visibility
    flags of the point table. *)
Definition same_but_flags (x y : result (list ring_level_row * list poi_result))
  : Prop :=
  match x, y with
  | Ok (rings1, results1), Ok (rings2, results2) =>
      rings1 = rings2 /\ map without_flag results1 = map without_flag results2
  | Raise e1, Raise e2 => e1 = e2
  | _, _ => False
  end.

(** The visibility table of the small run with the other flags. *)
Definition demo_visibility_other : list visibility_pair :=
  [ {| vp_poi_id := 1; vp_ict_id := Some 8%Z; vp_order := 2;
       vp_ground_distance := of_Z 1800; vp_is_visible := Some true |};
    {| vp_poi_id := 1; vp_ict_id := Some 7%Z; vp_order := 1;
       vp_ground_distance := of_Z 500; vp_is_visible := Some false |} ].

(** Not-a-number or zero: what a ring without population adds to the load
    of its site. *)
Definition zero_or_nan (x : float64) : Prop := x = NaN \/ x = zero.

(** The small run over an uninhabited area. *)
Definition nobody (s b : Z) : list float64 := [].

Definition demo_empty_run
  : traced (result (list ring_level_row * list poi_result)) :=
  calculate_buffer_areas_demand (scenario 2000 1000 1000) demo_demand nobody
    demo_oracle demo_within None demo_pois [7%Z].

Definition demo_empty_results : list poi_result :=
  match value demo_empty_run with
  | Ok (_, results) => results
  | Raise _ => []
  end.

Definition demo_empty_rings : list ring_level_row :=
  match value demo_empty_run with
  | Ok (rings, _) => rings
  | Raise _ => []
  end.

(** The pairs of rows of the two ITU tables that [mbbtps] keeps: same
    entity and year, and none of the two values equal to zero. *)
Definition usable_pairs (mbbsubscr mbbtraffic : list itu_row) : list itu_pair :=
  filter (fun p => ne0 (itu_dataValue (pair_subscr p))
                   && ne0 (itu_dataValue (pair_traffic p)))
    (merge_itu mbbsubscr mbbtraffic).

Definition usable (mbbsubscr mbbtraffic : list itu_row) (s t : itu_row) : Prop :=
  In s mbbsubscr /\ In t mbbtraffic /\
  itu_entityName t = itu_entityName s /\ itu_dataYear t = itu_dataYear s /\
  ne0 (itu_dataValue s) = true /\ ne0 (itu_dataValue t) = true.

(** The row that [mbbtps] builds from a pair. *)
Definition mbbtps_row_of (s t : itu_row) : mbbtps_row :=
  {| entityName := itu_entityName s;
     entityIso_mbbsubscr := itu_entityIso s;
     dataValue_mbbsubscr := itu_dataValue s;
     dataValue_mbbtraffic := itu_dataValue t;
     mbb_traffic_per_subscr_per_month :=
       (itu_dataValue t * of_Z (1024 ^ 3) / itu_dataValue s / of_Z 12)%float;
     dataYear := itu_dataYear s |}.

(** Two small ITU tables: Spain has data for 2021 and 2022, France has a
    zero subscription count in its only year. *)
Definition demo_mbbsubscr : list itu_row :=
  [ {| itu_entityName := "Spain"; itu_entityIso := "ESP";
       itu_dataYear := 2021; itu_dataValue := of_Z 1000 |};
    {| itu_entityName := "Spain"; itu_entityIso := "ESP";
       itu_dataYear := 2022; itu_dataValue := of_Z 1100 |};
    {| itu_entityName := "France"; itu_entityIso := "FRA";
       itu_dataYear := 2021; itu_dataValue := of_Z 0 |} ].

Definition demo_mbbtraffic : list itu_row :=
  [ {| itu_entityName := "Spain"; itu_entityIso := "ESP";
       itu_dataYear := 2021; itu_dataValue := of_Z 5 |};
    {| itu_entityName := "Spain"; itu_entityIso := "ESP";
       itu_dataYear := 2022; itu_dataValue := of_Z 6 |};
    {| itu_entityName := "France"; itu_entityIso := "FRA";
       itu_dataYear := 2021; itu_dataValue := of_Z 7 |} ].

(** The first site, in the order of the site table, whose maximal buffer
    contains a point. *)
Definition first_site (within : poi -> Z -> bool) (sites : list Z) (p : poi)
  : option Z :=
  hd_error (filter (within p) sites).

(** The oracle invocation for a point: one for a point that some buffer
    contains, none otherwise. *)
Definition point_call (within : poi -> Z -> bool) (sites : list Z) (p : poi)
  : list oracle_call :=
  match first_site within sites p with
  | None => []
  | Some s => [(poi_id p, s)]
  end.
(* ================================================================= *)
(** * Properties *)

(** ** Floating-point values *)

Section FloatFacts.

Local Open Scope float_scope.

Lemma eqb_eq (x y : float64) : eqb x y = true -> x = y.
Proof.
  destruct x, y; simpl; try discriminate; try reflexivity.
  intros H. f_equal. now apply Qc_eq_bool_correct.
Qed.

Lemma list_eqb_eq (xs ys : list float64) : list_eqb xs ys = true -> xs = ys.
Proof.
  revert ys. induction xs as [|x xs IH]; intros [|y ys]; simpl;
    try discriminate; try reflexivity.
  intros H. apply andb_true_iff in H as [Hx Hxs].
  f_equal; [now apply eqb_eq | now apply IH].
Qed.

Lemma leb_Fin (a b : Qc) : (Fin a <=? Fin b) = true <-> (a <= b)%Qc.
Proof.
  simpl. rewrite Qcle_alt.
  destruct (a ?= b)%Qc; split; intros H; try reflexivity; try discriminate;
    try congruence.
Qed.

Lemma ltb_Fin (a b : Qc) : (Fin a <? Fin b) = true <-> (a < b)%Qc.
Proof.
  simpl. rewrite Qclt_alt.
  destruct (a ?= b)%Qc; split; intros H; try reflexivity; try discriminate.
Qed.

Lemma leb_of_Z (a b : Z) : (of_Z a <=? of_Z b) = true <-> (a <= b)%Z.
Proof.
  unfold of_Z. rewrite leb_Fin. unfold Qcle. cbn [this Q2Qc].
  rewrite !Qred_correct, <- Zle_Qle. reflexivity.
Qed.

Lemma leb_trans (x y z : float64) :
  (x <=? y) = true -> (y <=? z) = true -> (x <=? z) = true.
Proof.
  destruct x as [| | |a], y as [| | |b], z as [| | |c];
    try discriminate; try reflexivity; try (now intros).
  rewrite !leb_Fin. apply Qcle_trans.
Qed.

Lemma gtb_not_leb (x y : float64) : (x >? y) = true -> (x <=? y) = false.
Proof.
  unfold gtb. destruct x as [| | |a], y as [| | |b]; try discriminate; try reflexivity.
  intros H. apply ltb_Fin in H.
  destruct (Fin a <=? Fin b) eqn:E; [|reflexivity].
  apply leb_Fin in E. now apply Qclt_not_le in H.
Qed.

Lemma leb_nan_l (x : float64) : (NaN <=? x) = false.
Proof. reflexivity. Qed.

Lemma leb_nan_r (x : float64) : (x <=? NaN) = false.
Proof. now destruct x. Qed.

Lemma ltb_nan_r (x : float64) : (x <? NaN) = false.
Proof. now destruct x. Qed.

Lemma ltb_pinf_l (x : float64) : (PInf <? x) = false.
Proof. now destruct x. Qed.

Lemma mul_nan_l (x : float64) : NaN * x = NaN.
Proof. reflexivity. Qed.

Lemma mul_nan_r (x : float64) : x * NaN = NaN.
Proof. now destruct x. Qed.

Lemma add_nan_l (x : float64) : NaN + x = NaN.
Proof. reflexivity. Qed.

Lemma add_nan_r (x : float64) : x + NaN = NaN.
Proof. now destruct x. Qed.

Lemma div_nan_l (x : float64) : NaN / x = NaN.
Proof. reflexivity. Qed.

Lemma div_nan_r (x : float64) : x / NaN = NaN.
Proof. now destruct x. Qed.

(** Division by a positive finite number keeps the order. *)
Lemma div_leb_compat (x y : float64) (c : Qc) :
  (0 < c)%Qc -> (x <=? y) = true -> (x / Fin c <=? y / Fin c) = true.
Proof.
  intros Hc Hxy.
  assert (Hz : Qc_eq_bool c 0 = false).
  { destruct (Qc_eq_bool c 0) eqn:E; [|reflexivity].
    apply Qc_eq_bool_correct in E. subst c. now apply Qclt_not_eq in Hc. }
  assert (Hs : (c ?= 0)%Qc = Gt) by now apply Qcgt_alt.
  destruct x as [| | |a], y as [| | |b]; try discriminate; simpl;
    rewrite ?Hz, ?Hs; try reflexivity.
  apply leb_Fin. apply leb_Fin in Hxy. unfold Qcdiv.
  apply Qcmult_le_compat_r; [assumption|].
  apply Qclt_le_weak. unfold Qclt, Qcinv. cbn [this Q2Qc].
  rewrite !Qred_correct. now apply Qinv_lt_0_compat.
Qed.

(** Multiplying two finite values by a finite non-negative weight keeps
    the order, and so does adding finite values. *)
Lemma mul_leb_compat (a b w : Qc) :
  (0 <= w)%Qc -> (a <= b)%Qc -> (Fin a * Fin w <=? Fin b * Fin w) = true.
Proof.
  intros Hw Hab. simpl mul. apply leb_Fin. now apply Qcmult_le_compat_r.
Qed.

Lemma add_leb_compat (a b c d : Qc) :
  (a <= b)%Qc -> (c <= d)%Qc -> (Fin a + Fin c <=? Fin b + Fin d) = true.
Proof.
  intros Hab Hcd. simpl add. apply leb_Fin. now apply Qcplus_le_compat.
Qed.

End FloatFacts.

(** ** numpy operations *)

Section NpFacts.

Import Np.

Lemma first_true_lt (r : list bool) (i : nat) :
  first_true r = Some i -> (i < length r)%nat.
Proof.
  revert i. induction r as [|b r IH]; simpl; intros i; [discriminate|].
  destruct b.
  - intros [= <-]. lia.
  - destruct (first_true r) as [k|]; simpl; [|discriminate].
    intros [= <-]. specialize (IH k eq_refl). lia.
Qed.

Lemma first_true_spec (r : list bool) (i : nat) :
  first_true r = Some i <->
  nth_error r i = Some true /\
  forall j, (j < i)%nat -> nth_error r j = Some false.
Proof.
  revert i. induction r as [|b r IH]; intros i; simpl.
  - split; [discriminate|]. intros [H _]. now destruct i.
  - destruct b.
    + split.
      * intros [= <-]. split; [reflexivity|]. intros j Hj. lia.
      * intros [Hi Hlt]. destruct i as [|i]; [reflexivity|].
        specialize (Hlt 0%nat ltac:(lia)). discriminate.
    + destruct i as [|i].
      * split.
        -- destruct (first_true r); discriminate.
        -- intros [H _]. discriminate.
      * specialize (IH i). split.
        -- destruct (first_true r) as [k|]; simpl; [|discriminate].
           intros [= ->]. destruct IH as [IH _]. destruct (IH eq_refl) as [Hi Hlt].
           split; [exact Hi|]. intros [|j] Hj; simpl; [reflexivity|].
           apply Hlt. lia.
        -- intros [Hi Hlt]. destruct IH as [_ IH].
           rewrite IH; [reflexivity|]. split; [exact Hi|].
           intros j Hj. apply (Hlt (S j)). lia.
Qed.

Lemma first_true_none (r : list bool) :
  first_true r = None <-> existsb (fun b => b) r = false.
Proof.
  induction r as [|b r IH]; simpl; [tauto|].
  destruct b; simpl.
  - split; discriminate.
  - rewrite <- IH. destruct (first_true r); simpl; split; congruence.
Qed.

Lemma argmax_row_lt (r : list bool) : r <> [] -> (argmax_row r < length r)%nat.
Proof.
  intros Hr. unfold argmax_row. destruct (first_true r) as [i|] eqn:E.
  - now apply first_true_lt.
  - destruct r; [congruence|simpl; lia].
Qed.

Lemma putmask_length {A : Type} (a : list A) (mask : list bool) (v : A) :
  length (putmask a mask v) = length a.
Proof.
  revert mask. induction a as [|x a IH]; intros [|m mask]; simpl; auto.
Qed.

Lemma scatter_length {A : Type} (a : list A) (mask : list bool) (vals : list A) :
  length (scatter a mask vals) = length a.
Proof.
  revert mask vals. induction a as [|x a IH]; intros [|m mask] vals; simpl; auto.
  destruct m; [destruct vals|]; simpl; now rewrite IH.
Qed.

(** Writing [f x] at the selected positions and [v] at the others, as
    [poiddatareq] does with its two masked assignments. *)
Lemma scatter_select_putmask {A B : Type} (f : A -> B) (p : A -> bool) (g : A -> A)
    (u v : B) (xs : list A) :
  putmask (scatter (repeat u (length xs)) (map p xs)
             (map f (select (map g xs) (map p xs))))
          (invert (map p xs)) v
  = map (fun x => if p x then f (g x) else v) xs.
Proof.
  induction xs as [|x xs IH]; simpl; [reflexivity|].
  destruct (p x); simpl; now rewrite IH.
Qed.

Lemma count_true_select {A : Type} (a : list A) (mask : list bool) :
  length mask = length a -> length (select a mask) = count_true mask.
Proof.
  revert mask. induction a as [|x a IH]; intros [|m mask]; simpl;
    try discriminate; try reflexivity.
  intros [= H]. unfold count_true in *. simpl. destruct m; simpl; now rewrite IH.
Qed.

Lemma set_columns_full {A B : Type} (f0 f1 f2 : A -> B) (u : B) (xs : list A) :
  set_column 2 (map f2 xs)
    (set_column 1 (map f1 xs)
       (set_column 0 (map f0 xs) (full (length xs) [u; u; u])))
  = map (fun x => [f0 x; f1 x; f2 x]) xs.
Proof.
  unfold full. induction xs as [|x xs IH]; simpl; [reflexivity|].
  now rewrite IH.
Qed.

Lemma broadcast2_same {A B : Type} (f : A -> A -> B) (xs ys : list A) :
  length xs = length ys ->
  broadcast2 f xs ys = Ok (map (fun p => f (fst p) (snd p)) (combine xs ys)).
Proof.
  intros H. unfold broadcast2. now rewrite H, Nat.eqb_refl.
Qed.

Lemma broadcast2_scalar_l {A B : Type} (f : A -> A -> B) (x : A) (ys : list A) :
  broadcast2 f [x] ys = Ok (map (f x) ys).
Proof.
  unfold broadcast2. destruct (length [x] =? length ys)%nat eqn:E.
  - apply Nat.eqb_eq in E. destruct ys as [|y [|y' ys]]; try discriminate.
    reflexivity.
  - reflexivity.
Qed.

Lemma broadcast2_scalar_r {A B : Type} (f : A -> A -> B) (xs : list A) (y : A) :
  broadcast2 f xs [y] = Ok (map (fun x => f x y) xs).
Proof.
  unfold broadcast2. destruct (length xs =? length [y])%nat eqn:E.
  - apply Nat.eqb_eq in E. destruct xs as [|x [|x' xs]]; try discriminate.
    reflexivity.
  - destruct xs as [|x [|x' xs]]; reflexivity.
Qed.

Lemma broadcast2_raises {A B : Type} (f : A -> A -> B) (xs ys : list A) :
  length xs <> 1%nat -> length ys <> 1%nat -> length xs <> length ys ->
  broadcast2 f xs ys = Raise ValueError.
Proof.
  intros Hx Hy Hxy. unfold broadcast2.
  destruct (Nat.eqb_spec (length xs) (length ys)) as [E|_]; [contradiction|].
  destruct xs as [|x [|x' xs]], ys as [|y [|y' ys]]; simpl in *;
    try reflexivity; try congruence.
Qed.

End NpFacts.

(** ** The bitrate lookup *)

Section LookupFacts.

Import Np.

Lemma take_map {A B : Type} (u : B) (bs : list B) (g : A -> nat) (q : list A) :
  (forall d, In d q -> (g d < length bs)%nat) ->
  take bs (map g q) = Ok (map (fun d => nth (g d) bs u) q).
Proof.
  induction q as [|d q IH]; simpl; intros H; [reflexivity|].
  destruct (nth_error bs (g d)) as [x|] eqn:E.
  - rewrite IH by (intros; apply H; now right). simpl.
    now rewrite (nth_error_nth _ _ u E).
  - apply nth_error_None in E. specialize (H d (or_introl eq_refl)). lia.
Qed.

Lemma putmask_map {A B : Type} (h : A -> B) (m : A -> bool) (v : B) (q : list A) :
  putmask (map h q) (map m q) v = map (fun d => if m d then v else h d) q.
Proof.
  induction q as [|d q IH]; simpl; [reflexivity|]. now rewrite IH.
Qed.

Lemma lookup_pointwise (ds bs : list float64) (d : float64) :
  (if negb (existsb (fun b => b) (map (fun x => (x >=? d)%float) ds)) then NaN
   else nth (argmax_row (map (fun x => (x >=? d)%float) ds)) bs NaN)
  = bitrate_at ds bs d.
Proof.
  revert bs. induction ds as [|x ds IH]; intros bs; simpl; [reflexivity|].
  unfold argmax_row. simpl.
  destruct (x >=? d)%float eqn:Hx; simpl.
  - destruct bs; reflexivity.
  - destruct bs as [|b bs].
    + destruct (negb _); [reflexivity|].
      now destruct (match option_map S _ with Some i => i | None => 0%nat end).
    + specialize (IH bs). unfold argmax_row in IH.
      destruct (existsb (fun b => b) (map (fun x => (x >=? d)%float) ds)) eqn:Hex;
        simpl in *; [|exact IH].
      destruct (first_true (map (fun x => (x >=? d)%float) ds)) as [i|] eqn:Hft;
        simpl; [exact IH|].
      apply first_true_none in Hft. congruence.
Qed.

(** On well-shaped tables the loop body of [get_dl_bitrate] returns, and
    what it returns is the step function at every queried distance. *)
Lemma band_bitrate_eq (ds bs q : list float64) :
  ds <> [] -> (length ds <= length bs)%nat ->
  band_bitrate ds bs q = Ok (map (bitrate_at ds bs) q).
Proof.
  intros Hne Hlen. unfold band_bitrate, argmax_axis1, any_axis1, invert, ge_outer.
  cbn [ncols rows].
  destruct (Nat.eqb_spec (length ds) 0) as [E|_].
  { destruct ds; [congruence|discriminate]. }
  cbn [bind]. rewrite !map_map.
  rewrite (take_map NaN).
  - cbn [bind]. rewrite putmask_map. f_equal.
    apply map_ext. intros d. apply lookup_pointwise.
  - intros d _. eapply Nat.lt_le_trans; [|exact Hlen].
    rewrite <- (length_map (fun x => (x >=? d)%float) ds).
    apply argmax_row_lt. destruct ds; [congruence|discriminate].
Qed.

Lemma bitrate_at_out_of_range (ds bs : list float64) (d : float64) :
  in_range ds d = false -> bitrate_at ds bs d = NaN.
Proof.
  revert bs. induction ds as [|x ds IH]; intros bs; simpl; [reflexivity|].
  intros H. apply orb_false_iff in H as [Hx Hds].
  destruct bs; [reflexivity|]. rewrite Hx. now apply IH.
Qed.

Lemma bitrate_at_first (ds bs : list float64) (d : float64) (i : nat) (x b : float64) :
  nth_error ds i = Some x -> nth_error bs i = Some b ->
  (x >=? d)%float = true ->
  (forall j y, (j < i)%nat -> nth_error ds j = Some y -> (y >=? d)%float = false) ->
  bitrate_at ds bs d = b.
Proof.
  revert bs i. induction ds as [|x0 ds IH]; intros bs i Hx Hb Hge Hlt.
  - now destruct i.
  - destruct bs as [|b0 bs]; [now destruct i|]. simpl.
    destruct i as [|i]; simpl in Hx, Hb.
    + injection Hx as ->. injection Hb as ->. now rewrite Hge.
    + rewrite (Hlt 0%nat x0) by (simpl; try lia; reflexivity).
      apply (IH bs i); try assumption.
      intros j y Hj Hy. apply (Hlt (S j) y); [lia|exact Hy].
Qed.

(** Within range the value is an entry of the bitrate table, found at the
    index of the first breakpoint that qualifies. *)
Lemma bitrate_at_in_range (ds bs : list float64) (d : float64) :
  (length ds <= length bs)%nat -> in_range ds d = true ->
  exists i x b,
    nth_error ds i = Some x /\ nth_error bs i = Some b /\
    (x >=? d)%float = true /\
    (forall j y, (j < i)%nat -> nth_error ds j = Some y -> (y >=? d)%float = false) /\
    bitrate_at ds bs d = b.
Proof.
  revert bs. induction ds as [|x ds IH]; intros bs Hlen H; [discriminate|].
  destruct bs as [|b bs]; [simpl in Hlen; lia|].
  simpl in H |- *. destruct (x >=? d)%float eqn:Hx.
  - exists 0%nat, x, b. repeat split; try assumption. intros j y Hj. lia.
  - simpl in H, Hlen. destruct (IH bs ltac:(lia) H) as (i & x' & b' & H1 & H2 & H3 & H4 & H5).
    exists (S i), x', b'. repeat split; try assumption.
    intros [|j] y Hj Hy; simpl in Hy; [congruence|].
    apply (H4 j y); [lia|exact Hy].
Qed.

End LookupFacts.

(** ** [get_dl_bitrate] and [poiddatareq] in closed form *)

Section FormulaFacts.

Import Np.
Variable self : Capacity.

Lemma py_truediv_ok (x y : float64) :
  nonzero y = true -> py_truediv x y = Ok (x / y)%float.
Proof.
  unfold py_truediv, nonzero. destruct y as [| | |b]; try reflexivity.
  now destruct (Qc_eq_bool b 0).
Qed.

Lemma py_truediv_zero (x y : float64) :
  nonzero y = false -> py_truediv x y = Raise ZeroDivisionError.
Proof.
  unfold py_truediv, nonzero. destruct y as [| | |b]; try discriminate.
  now destruct (Qc_eq_bool b 0).
Qed.

Lemma tables_ok_band (b : band) :
  tables_ok self = true ->
  bwdistance_km self b <> [] /\
  (length (bwdistance_km self b) <= length (bwdlachievbr self b))%nat.
Proof.
  unfold tables_ok. rewrite forallb_forall. intros H.
  assert (Hb : In b [L850; L1800; L2600]) by (destruct b; simpl; auto).
  specialize (H b Hb). apply andb_true_iff in H as [H1 H2].
  split; [|now apply Nat.leb_le].
  intros E. rewrite E in H1. discriminate.
Qed.

Lemma config_ok_inv :
  config_ok self = true ->
  nonzero (bw self) = true /\ nonzero (nrb self) = true /\ tables_ok self = true.
Proof.
  unfold config_ok. intros H.
  apply andb_true_iff in H as [H H3]. apply andb_true_iff in H as [H1 H2]. auto.
Qed.

Lemma avrbpdsch_eq :
  nonzero (nrb self) = true -> avrbpdsch self = Ok (avrbpdsch_value self).
Proof.
  intros H. unfold avrbpdsch. now rewrite py_truediv_ok.
Qed.

(** On a configuration with non-zero total bandwidth and well-shaped
    tables [get_dl_bitrate] returns the weighted sum at every distance. *)
Lemma get_dl_bitrate_eq (d : list float64) :
  nonzero (bw self) = true -> tables_ok self = true ->
  get_dl_bitrate self d = Ok (map (weighted_bitrate self) d).
Proof.
  intros Hbw Ht. unfold get_dl_bitrate, weights.
  rewrite !py_truediv_ok by assumption. cbn [bind fill_bands].
  destruct (tables_ok_band L850 Ht) as [N0 L0].
  destruct (tables_ok_band L1800 Ht) as [N1 L1].
  destruct (tables_ok_band L2600 Ht) as [N2 L2].
  rewrite !band_bitrate_eq by assumption. cbn [bind].
  rewrite !map_map, length_map.
  rewrite (set_columns_full
             (fun x => bitrate_at (bwdistance_km self L850) (bwdlachievbr self L850)
                         (x / of_Z 1000)%float)
             (fun x => bitrate_at (bwdistance_km self L1800) (bwdlachievbr self L1800)
                         (x / of_Z 1000)%float)
             (fun x => bitrate_at (bwdistance_km self L2600) (bwdlachievbr self L2600)
                         (x / of_Z 1000)%float)).
  unfold dot. rewrite map_map. reflexivity.
Qed.

Lemma scatter_repeat {A : Type} (a : list A) (mask : list bool) (v : A) :
  scatter a mask (repeat v (count_true mask)) = putmask a mask v.
Proof.
  revert mask. induction a as [|x a IH]; intros [|m mask]; simpl; try reflexivity.
  unfold count_true in *. destruct m; simpl; now rewrite IH.
Qed.

Lemma place_scalar {A : Type} (a : list A) (mask : list bool) (v : A) :
  length mask = length a -> place a mask [v] = Ok (putmask a mask v).
Proof.
  intros H. unfold place. rewrite H, Nat.eqb_refl. cbn [negb].
  destruct (Nat.eqb_spec (length [v]) (count_true mask)) as [E|_]; [|reflexivity].
  rewrite <- scatter_repeat, <- E. reflexivity.
Qed.

Lemma place_exact {A : Type} (a : list A) (mask : list bool) (vals : list A) :
  length mask = length a -> length vals = count_true mask ->
  place a mask vals = Ok (scatter a mask vals).
Proof.
  intros H1 H2. unfold place. now rewrite H1, H2, !Nat.eqb_refl.
Qed.

(** On a valid configuration the body of [poiddatareq] does not raise:
    every position within [max_radius] holds the requirement formula and
    every other position holds positive infinity. *)
Lemma poiddatareq_eq (d : list float64) :
  config_ok self = true ->
  poiddatareq self d =
  map (fun x => if (x <=? of_Z (max_radius self))%float
                then required_rb self x else PInf) d.
Proof.
  intros Hok. destruct (config_ok_inv Hok) as (Hbw & Hnrb & Ht).
  unfold poiddatareq, poiddatareq_body.
  rewrite get_dl_bitrate_eq by assumption. cbn [bind].
  unfold compress. rewrite !length_map, Nat.eqb_refl. cbn [bind].
  rewrite avrbpdsch_eq by assumption. cbn [bind].
  rewrite place_exact.
  - cbn [bind]. rewrite place_scalar.
    + unfold full.
      rewrite (scatter_select_putmask
                 (fun b => (dlthtarg self * of_Z 1024 / (b / avrbpdsch_value self))%float)
                 (fun x => (x <=? of_Z (max_radius self))%float)
                 (weighted_bitrate self) NaN PInf d).
      reflexivity.
    + unfold invert. rewrite scatter_length. unfold full.
      now rewrite !length_map, repeat_length.
  - unfold full. now rewrite length_map, repeat_length.
  - rewrite length_map. apply count_true_select. now rewrite !length_map.
Qed.

Lemma place_length {A : Type} (a : list A) (mask : list bool) (vals r : list A) :
  place a mask vals = Ok r -> length r = length a.
Proof.
  unfold place. destruct (negb _); [discriminate|].
  destruct (_ =? _)%nat.
  - intros [= <-]. apply scatter_length.
  - destruct vals as [|v [|v' vals]]; try discriminate.
    intros [= <-]. apply putmask_length.
Qed.

(** [poiddatareq] returns one value per input distance, whether or not
    its body raises. *)
Lemma poiddatareq_length (d : list float64) :
  length (poiddatareq self d) = length d.
Proof.
  unfold poiddatareq.
  destruct (poiddatareq_body self d (full (length d) NaN)) as [r|e] eqn:E;
    [|apply repeat_length].
  unfold poiddatareq_body in E.
  destruct (get_dl_bitrate self d) as [dl|e]; cbn [bind] in E; [|discriminate].
  destruct (compress dl _) as [sel|e]; cbn [bind] in E; [|discriminate].
  destruct (avrbpdsch self) as [av|e]; cbn [bind] in E; [|discriminate].
  destruct (place (full (length d) NaN) _ _) as [r1|e] eqn:E1; cbn [bind] in E;
    [|discriminate].
  apply place_length in E, E1. rewrite E, E1. apply repeat_length.
Qed.

End FormulaFacts.

(** ** What a successful lookup returned *)

Section Inversion.

Import Np.
Variable self : Capacity.

Lemma take_inv {A B : Type} (u : B) (bs : list B) (g : A -> nat) (q : list A)
    (out : list B) :
  take bs (map g q) = Ok out -> out = map (fun d => nth (g d) bs u) q.
Proof.
  revert out. induction q as [|d q IH]; simpl; intros out.
  - now intros [= <-].
  - destruct (nth_error bs (g d)) as [x|] eqn:E; [|discriminate].
    destruct (take bs (map g q)) as [rest|e]; cbn [bind]; [|discriminate].
    intros [= <-]. rewrite (nth_error_nth _ _ u E). f_equal. now apply IH.
Qed.

Lemma band_bitrate_inv (ds bs q col : list float64) :
  band_bitrate ds bs q = Ok col -> col = map (bitrate_at ds bs) q.
Proof.
  unfold band_bitrate, argmax_axis1, any_axis1, invert, ge_outer.
  cbn [ncols rows]. destruct (length ds =? 0)%nat; [discriminate|].
  cbn [bind]. rewrite !map_map.
  destruct (take bs _) as [dl|e] eqn:E; cbn [bind]; [|discriminate].
  intros [= <-]. apply (take_inv NaN) in E. subst dl.
  rewrite putmask_map. apply map_ext. intros d. apply lookup_pointwise.
Qed.

Lemma py_truediv_inv (x y q : float64) :
  py_truediv x y = Ok q -> q = (x / y)%float /\ nonzero y = true.
Proof.
  unfold py_truediv, nonzero. destruct y as [| | |b]; try (intros [= <-]; now split).
  destruct (Qc_eq_bool b 0); [discriminate|]. intros [= <-]. now split.
Qed.

Lemma get_dl_bitrate_inv (d out : list float64) :
  get_dl_bitrate self d = Ok out -> out = map (weighted_bitrate self) d.
Proof.
  unfold get_dl_bitrate, weights.
  destruct (py_truediv (bw_L850 self) (bw self)) as [w0|e] eqn:E0; cbn [bind];
    [|discriminate].
  destruct (py_truediv (bw_L1800 self) (bw self)) as [w1|e] eqn:E1; cbn [bind];
    [|discriminate].
  destruct (py_truediv (bw_L2600 self) (bw self)) as [w2|e] eqn:E2; cbn [bind];
    [|discriminate].
  apply py_truediv_inv in E0 as [-> _], E1 as [-> _], E2 as [-> _].
  cbn [fill_bands].
  destruct (band_bitrate (bwdistance_km self L850) _ _) as [c0|e] eqn:B0; cbn [bind];
    [|discriminate].
  destruct (band_bitrate (bwdistance_km self L1800) _ _) as [c1|e] eqn:B1; cbn [bind];
    [|discriminate].
  destruct (band_bitrate (bwdistance_km self L2600) _ _) as [c2|e] eqn:B2; cbn [bind];
    [|discriminate].
  apply band_bitrate_inv in B0, B1, B2. subst c0 c1 c2.
  intros [= <-]. rewrite !map_map, length_map.
  rewrite (set_columns_full
             (fun x => bitrate_at (bwdistance_km self L850) (bwdlachievbr self L850)
                         (x / of_Z 1000)%float)
             (fun x => bitrate_at (bwdistance_km self L1800) (bwdlachievbr self L1800)
                         (x / of_Z 1000)%float)
             (fun x => bitrate_at (bwdistance_km self L2600) (bwdlachievbr self L2600)
                         (x / of_Z 1000)%float)).
  unfold dot. rewrite map_map. reflexivity.
Qed.

(** [poiddatareq] returns either the requirement at every position within
    [max_radius] and positive infinity elsewhere, or, when its body
    raised, not-a-number everywhere. *)
Lemma poiddatareq_cases (d : list float64) :
  poiddatareq self d =
    map (fun x => if (x <=? of_Z (max_radius self))%float
                  then required_rb self x else PInf) d
  \/ poiddatareq self d = repeat NaN (length d).
Proof.
  unfold poiddatareq, poiddatareq_body.
  destruct (get_dl_bitrate self d) as [dl|e] eqn:E; cbn [bind]; [|now right].
  apply get_dl_bitrate_inv in E. subst dl.
  unfold compress. rewrite !length_map, Nat.eqb_refl. cbn [bind].
  destruct (avrbpdsch self) as [av|e] eqn:Ea; cbn [bind]; [|now right].
  assert (av = avrbpdsch_value self) as ->.
  { unfold avrbpdsch in Ea.
    destruct (py_truediv _ _) as [q|e] eqn:Eq; cbn [bind] in Ea; [|discriminate].
    apply py_truediv_inv in Eq as [-> _]. now injection Ea as <-. }
  left. rewrite place_exact.
  - cbn [bind]. rewrite place_scalar.
    + unfold full.
      rewrite (scatter_select_putmask
                 (fun b => (dlthtarg self * of_Z 1024 / (b / avrbpdsch_value self))%float)
                 (fun x => (x <=? of_Z (max_radius self))%float)
                 (weighted_bitrate self) NaN PInf d).
      reflexivity.
    + unfold invert. rewrite scatter_length. unfold full.
      now rewrite !length_map, repeat_length.
  - unfold full. now rewrite length_map, repeat_length.
  - rewrite length_map. apply count_true_select. now rewrite !length_map.
Qed.

End Inversion.

(* ================================================================= *)
(** * The worked scenario *)

(** C1, as stated, fails: at 1500 m the weighted bitrate of the scenario is
    not 15000 kbps and the requirement is not 20.48 resource blocks. *)
Lemma scenario_1500_not_as_expected : ~ scenario_expected (scenario 2000 1000 1000).
Proof.
  intros [H _]. vm_compute in H. discriminate H.
Qed.

(** C1, amended: with bandwidths 10/10/10 MHz, the three band tables of the
    scenario, cco = 10, rb_num_multiplier = 5 and dlthtarg = 5, a distance
    of 1500 m selects 20000 kbps on L850 (breakpoint 2 km), 8000 kbps on
    L1800 (breakpoint 3 km) and 1000 kbps on L2600 (breakpoint 2 km), so
    get_dl_bitrate([1500]) = 29000/3 kbps; nrb = 150 and avrbpdsch = 60;
    and, when max_radius is at least 1500, poiddatareq([1500]) = 4608/145
    resource blocks (about 31.78). *)
Theorem scenario_1500 (rmax rmin rstep : Z) :
  (1500 <= rmax)%Z ->
  let self := scenario rmax rmin rstep in
  band_bitrate (bwdistance_km self L850) (bwdlachievbr self L850) [of_Q (3 # 2)]
    = Ok [of_Z 20000] /\
  band_bitrate (bwdistance_km self L1800) (bwdlachievbr self L1800) [of_Q (3 # 2)]
    = Ok [of_Z 8000] /\
  band_bitrate (bwdistance_km self L2600) (bwdlachievbr self L2600) [of_Q (3 # 2)]
    = Ok [of_Z 1000] /\
  get_dl_bitrate self [of_Z 1500] = Ok [of_Q (29000 # 3)] /\
  nrb self = of_Z 150 /\
  avrbpdsch self = Ok (of_Z 60) /\
  poiddatareq self [of_Z 1500] = [of_Q (4608 # 145)].
Proof.
  intros Hmax self.
  assert (Hband : forall b v,
             list_eqb (map (bitrate_at (bwdistance_km self b) (bwdlachievbr self b))
                         [of_Q (3 # 2)]) [v] = true ->
             band_bitrate (bwdistance_km self b) (bwdlachievbr self b) [of_Q (3 # 2)]
             = Ok [v]).
  { intros b v Hv. rewrite band_bitrate_eq.
    - f_equal; now apply list_eqb_eq.
    - destruct b; discriminate.
    - destruct b; simpl; lia. }
  repeat match goal with |- _ /\ _ => split end.
  - now apply Hband.
  - now apply Hband.
  - now apply Hband.
  - rewrite get_dl_bitrate_eq by reflexivity. f_equal; now apply list_eqb_eq.
  - now apply eqb_eq.
  - rewrite avrbpdsch_eq by reflexivity. f_equal; now apply eqb_eq.
  - rewrite poiddatareq_eq by reflexivity. cbn [map].
    replace (of_Z 1500 <=? of_Z (max_radius self))%float with true
      by (symmetry; now apply leb_of_Z).
    f_equal; now apply eqb_eq.
Qed.

Lemma scenario_1500_witness :
  (1500 <= 2000)%Z /\
  poiddatareq (scenario 2000 1000 1000) [of_Z 1500] = [of_Q (4608 # 145)].
Proof.
  split; [lia|].
  apply (scenario_1500 (rmax := 2000) 1000 1000). lia.
Defined.

(* ================================================================= *)
(** * Unserviceable distances *)

(** C2, as stated, fails: an undefined distance is not greater than
    [max_radius], yet its position holds positive infinity. *)
Lemma nan_distance_infinite_not_beyond :
  ~ infinite_exactly_beyond (scenario 2000 1000 1000) [NaN].
Proof.
  intros H. destruct (H 0%nat NaN eq_refl) as [H1 _].
  specialize (H1 eq_refl). discriminate H1.
Qed.

(** C2, amended: [poiddatareq] never raises and returns one value per input
    distance, for every input and configuration.  On a valid
    configuration (total bandwidth and number of resource blocks not zero,
    every band with at least one breakpoint and a bitrate per breakpoint),
    whatever the tables contain, it returns positive infinity at every
    position whose distance fails [d <= max_radius] -- a distance greater
    than [max_radius] or an undefined one -- and the requirement
    [dlthtarg * 1024 / (dl_bitrate / avrbpdsch)] at every other position. *)
Theorem poiddatareq_unserviceable (self : Capacity) (d : list float64) :
  length (poiddatareq self d) = length d /\
  (config_ok self = true ->
   forall i x, nth_error d i = Some x ->
     ((x >? of_Z (max_radius self))%float = true ->
      nth_error (poiddatareq self d) i = Some PInf) /\
     ((x <=? of_Z (max_radius self))%float = false ->
      nth_error (poiddatareq self d) i = Some PInf) /\
     ((x <=? of_Z (max_radius self))%float = true ->
      nth_error (poiddatareq self d) i = Some (required_rb self x))).
Proof.
  split; [apply poiddatareq_length|].
  intros Hok i x Hx. rewrite poiddatareq_eq by assumption.
  rewrite nth_error_map, Hx. cbn [option_map].
  repeat match goal with |- _ /\ _ => split end.
  - intros H. now rewrite (gtb_not_leb _ _ H).
  - intros H. now rewrite H.
  - intros H. now rewrite H.
Qed.

Lemma poiddatareq_unserviceable_witness :
  config_ok (scenario 2000 1000 1000) = true /\
  nth_error (poiddatareq (scenario 2000 1000 1000) [of_Z 500; of_Z 2500; NaN]) 1
  = Some PInf /\
  nth_error (poiddatareq (scenario 2000 1000 1000) [of_Z 500; of_Z 2500; NaN]) 2
  = Some PInf.
Proof.
  pose proof (proj2 (poiddatareq_unserviceable (scenario 2000 1000 1000)
                       [of_Z 500; of_Z 2500; NaN]) eq_refl) as H.
  split; [reflexivity|]. split.
  - apply (proj1 (H 1%nat (of_Z 2500) eq_refl)). reflexivity.
  - apply (proj1 (proj2 (H 2%nat NaN eq_refl))). reflexivity.
Defined.


(** Two more cases behind the amended statement.  With a band that has no
    breakpoint the lookup raises inside [poiddatareq], which then returns
    not-a-number even beyond [max_radius]; and with bitrates that are all
    zero the requirement within [max_radius] is itself positive infinity. *)
Example poiddatareq_empty_band :
  poiddatareq (with_tables (scenario 2000 1000 1000)
                 (fun _ => []) (bwdlachievbr (scenario 2000 1000 1000)))
    [of_Z 2500] = [NaN].
Proof. reflexivity. Qed.

Example poiddatareq_zero_bitrate :
  poiddatareq (with_tables (scenario 2000 1000 1000)
                 (bwdistance_km (scenario 2000 1000 1000)) (fun _ => [zero; zero; zero]))
    [of_Z 500] = [PInf].
Proof. reflexivity. Qed.

(* ================================================================= *)
(** * Broadcasting of scalar arguments *)

Section Broadcast.

Import Np.
Variables (B : Type) (op : float64 -> float64 -> B).

Lemma first_scalar_raises (xs ys : list float64) :
  raises (first_scalar op xs ys) <->
  (length xs <> 1%nat /\ length xs <> length ys).
Proof.
  unfold first_scalar.
  destruct (Nat.eqb_spec (length xs) 1) as [E1|N1];
    destruct (Nat.eqb_spec (length xs) (length ys)) as [E2|N2]; cbn [negb andb].
  - rewrite broadcast2_same by assumption. split.
    + intros [e He]. discriminate.
    + intros [H _]. contradiction.
  - destruct xs as [|x [|x' xs]]; try discriminate.
    rewrite broadcast2_scalar_l. split.
    + intros [e He]. discriminate.
    + intros [H _]. contradiction.
  - rewrite broadcast2_same by assumption. split.
    + intros [e He]. discriminate.
    + intros [_ H]. contradiction.
  - split; [now intros _|]. intros _. now exists ValueError.
Qed.

Lemma first_scalar_l (s : float64) (ys : list float64) :
  first_scalar op [s] ys = Ok (map (op s) ys).
Proof. unfold first_scalar. cbn [length Nat.eqb negb andb]. apply broadcast2_scalar_l. Qed.

Lemma first_scalar_same (xs ys : list float64) :
  length xs = length ys ->
  first_scalar op xs ys = Ok (map (fun p => op (fst p) (snd p)) (combine xs ys)).
Proof.
  intros H. unfold first_scalar. rewrite H, Nat.eqb_refl, andb_false_r.
  now apply broadcast2_same.
Qed.

End Broadcast.

(** C3, as stated, fails: [upoprbu] rejects an array paired with a scalar
    in second position, although not both arguments are non-scalar. *)
Lemma upoprbu_rejects_scalar_second :
  ~ raises_exactly_on_mismatch upoprbu [of_Z 6; of_Z 8] [of_Z 2].
Proof.
  intros [H _].
  destruct H as (_ & Hy & _); [now exists ValueError|].
  now apply Hy.
Qed.

(** C3, amended: [upoprbu] and [cellavcap] accept a scalar (size-1) first
    argument paired with an array, or two arrays of equal length, produce
    an array of the second argument's length by replicating the scalar, and
    raise a validation error exactly when the first argument is neither of
    size 1 nor of the second argument's size (so also for an array paired
    with a scalar in second position); [sufcapch] accepts a scalar in
    either position, produces an array of the array's length, and raises
    exactly when both arguments are non-scalar arrays of different
    lengths. *)
Theorem broadcast_rules :
  (forall s ys, upoprbu [s] ys = Ok (map (fun y => s / y)%float ys)) /\
  (forall xs ys, length xs = length ys ->
     upoprbu xs ys = Ok (map (fun p => fst p / snd p)%float (combine xs ys))) /\
  (forall xs ys, raises (upoprbu xs ys) <->
     (length xs <> 1%nat /\ length xs <> length ys)) /\
  (forall s ys, cellavcap [s] ys = Ok (map (fun y => s - y)%float ys)) /\
  (forall xs ys, length xs = length ys ->
     cellavcap xs ys = Ok (map (fun p => fst p - snd p)%float (combine xs ys))) /\
  (forall xs ys, raises (cellavcap xs ys) <->
     (length xs <> 1%nat /\ length xs <> length ys)) /\
  (forall s ys, sufcapch [s] ys = Ok (map (fun y => s >? y)%float ys)) /\
  (forall xs s, sufcapch xs [s] = Ok (map (fun x => x >? s)%float xs)) /\
  (forall xs ys, length xs = length ys ->
     sufcapch xs ys = Ok (map (fun p => fst p >? snd p)%float (combine xs ys))) /\
  (forall xs ys, raises_exactly_on_mismatch sufcapch xs ys).
Proof.
  repeat match goal with |- _ /\ _ => split end.
  - apply (first_scalar_l div).
  - apply (first_scalar_same div).
  - apply (first_scalar_raises div).
  - apply (first_scalar_l sub).
  - apply (first_scalar_same sub).
  - apply (first_scalar_raises sub).
  - intros s ys. unfold sufcapch. cbn [length Nat.eqb negb andb].
    apply broadcast2_scalar_l.
  - intros xs s. unfold sufcapch. cbn [length Nat.eqb negb andb].
    rewrite andb_false_r. apply broadcast2_scalar_r.
  - intros xs ys H. unfold sufcapch. rewrite H, Nat.eqb_refl, andb_false_r.
    now apply broadcast2_same.
  - intros xs ys. unfold raises_exactly_on_mismatch, sufcapch.
    destruct (Nat.eqb_spec (length xs) 1) as [E1|N1]; cbn [negb andb].
    { destruct xs as [|x [|x' xs]]; try discriminate.
      rewrite broadcast2_scalar_l. split.
      - intros [e He]. discriminate.
      - intros [H _]. now contradiction H. }
    destruct (Nat.eqb_spec (length ys) 1) as [E2|N2]; cbn [negb andb].
    { destruct ys as [|y [|y' ys]]; try discriminate.
      rewrite broadcast2_scalar_r. split.
      - intros [e He]. discriminate.
      - intros (_ & H & _). now contradiction H. }
    destruct (Nat.eqb_spec (length xs) (length ys)) as [E3|N3]; cbn [negb].
    { rewrite broadcast2_same by assumption. split.
      - intros [e He]. discriminate.
      - intros (_ & _ & H). contradiction. }
    split; [now intros _|]. intros _. now exists ValueError.
Qed.

Lemma broadcast_rules_witness :
  upoprbu [of_Z 6; of_Z 8] [of_Z 2; of_Z 4]
  = Ok (map (fun p => fst p / snd p)%float
          (combine [of_Z 6; of_Z 8] [of_Z 2; of_Z 4])) /\
  raises (cellavcap [of_Z 6; of_Z 8] [of_Z 2]).
Proof.
  destruct broadcast_rules as (_ & Hsame & _ & _ & _ & Hraise & _).
  split.
  - apply Hsame. reflexivity.
  - apply Hraise. split; simpl; lia.
Defined.

(* ================================================================= *)
(** * The bitrate lookup of [get_dl_bitrate] *)

(** C4: [get_dl_bitrate] returns one value per queried distance on every
    configuration with a non-zero total bandwidth and well-shaped tables;
    and whenever it returns, every position at which one of the three bands
    gives not-a-number holds not-a-number, the value of each position being
    the sum of the three band values weighted by the unchanged shares
    [bw_band / bw], with no substitution for an undefined band. *)
Theorem get_dl_bitrate_nan_propagates (self : Capacity) (d : list float64) :
  (nonzero (bw self) = true -> tables_ok self = true ->
   exists out, get_dl_bitrate self d = Ok out /\ length out = length d) /\
  (forall out b column i,
      get_dl_bitrate self d = Ok out ->
      band_bitrate (bwdistance_km self b) (bwdlachievbr self b)
        (map (fun x => x / of_Z 1000)%float d) = Ok column ->
      nth_error column i = Some NaN ->
      nth_error out i = Some NaN) /\
  (forall out i x,
      get_dl_bitrate self d = Ok out ->
      nth_error d i = Some x ->
      nth_error out i
      = Some (band_value self L850 x * (bw_L850 self / bw self)
              + (band_value self L1800 x * (bw_L1800 self / bw self)
                 + (band_value self L2600 x * (bw_L2600 self / bw self) + zero)))%float).
Proof.
  repeat match goal with |- _ /\ _ => split end.
  - intros Hbw Ht. eexists. split; [now apply get_dl_bitrate_eq|].
    now rewrite length_map.
  - intros out b column i Hout Hcol Hnan.
    apply get_dl_bitrate_inv in Hout. apply band_bitrate_inv in Hcol. subst out column.
    rewrite map_map, nth_error_map in Hnan. rewrite nth_error_map.
    destruct (nth_error d i) as [x|]; [|discriminate]. cbn [option_map] in *.
    injection Hnan as Hnan. f_equal. unfold weighted_bitrate, band_value.
    destruct b; rewrite Hnan; rewrite ?mul_nan_l, ?add_nan_l, ?add_nan_r; reflexivity.
  - intros out i x Hout Hx. apply get_dl_bitrate_inv in Hout. subst out.
    now rewrite nth_error_map, Hx.
Qed.

Lemma get_dl_bitrate_nan_propagates_witness :
  (exists out, get_dl_bitrate (scenario 5000 1000 1000) [of_Z 3000] = Ok out /\
               length out = 1%nat) /\
  nth_error [NaN] 0 = Some NaN.
Proof.
  destruct (get_dl_bitrate_nan_propagates (scenario 5000 1000 1000) [of_Z 3000])
    as (Hret & Hnan & _).
  split.
  - apply Hret; reflexivity.
  - apply (Hnan [NaN] L2600 [NaN] 0%nat); reflexivity.
Defined.

(** C5: for every band whose table has at least one breakpoint and a
    bitrate per breakpoint, the loop body of [get_dl_bitrate] returns one
    value per queried distance: the bitrate of the first entry whose
    breakpoint is at least the distance (in kilometres), and not-a-number
    when no breakpoint is at least the distance. *)
Theorem band_bitrate_first_breakpoint (self : Capacity) (b : band) (d : list float64) :
  tables_ok self = true ->
  exists column,
    band_bitrate (bwdistance_km self b) (bwdlachievbr self b)
      (map (fun x => x / of_Z 1000)%float d) = Ok column /\
    length column = length d /\
    forall j x, nth_error d j = Some x ->
      let km := (x / of_Z 1000)%float in
      (forall i breakpoint bitrate,
          nth_error (bwdistance_km self b) i = Some breakpoint ->
          nth_error (bwdlachievbr self b) i = Some bitrate ->
          (breakpoint >=? km)%float = true ->
          (forall i' earlier, (i' < i)%nat ->
              nth_error (bwdistance_km self b) i' = Some earlier ->
              (earlier >=? km)%float = false) ->
          nth_error column j = Some bitrate) /\
      ((forall breakpoint, In breakpoint (bwdistance_km self b) ->
           (breakpoint >=? km)%float = false) ->
       nth_error column j = Some NaN).
Proof.
  intros Ht. destruct (tables_ok_band self b Ht) as [Hne Hlen].
  eexists. split; [now apply band_bitrate_eq|].
  split; [now rewrite !length_map|].
  intros j x Hx. cbv zeta. rewrite map_map, nth_error_map, Hx. cbn [option_map]. split.
  - intros i breakpoint bitrate Hi Hb Hge Hfirst. f_equal.
    now apply (bitrate_at_first _ _ _ Hi Hb Hge).
  - intros Hnone. f_equal. apply bitrate_at_out_of_range.
    unfold in_range. destruct (existsb _ _) eqn:E; [|reflexivity].
    apply existsb_exists in E as (y & Hy & Hge). rewrite (Hnone y Hy) in Hge.
    discriminate.
Qed.

Lemma band_bitrate_first_breakpoint_witness :
  tables_ok (scenario 5000 1000 1000) = true /\
  exists column,
    band_bitrate (bwdistance_km (scenario 5000 1000 1000) L1800)
      (bwdlachievbr (scenario 5000 1000 1000) L1800)
      (map (fun x => x / of_Z 1000)%float [of_Z 1500; of_Z 7000]) = Ok column /\
    nth_error column 0 = Some (of_Z 8000) /\
    nth_error column 1 = Some NaN.
Proof.
  split; [reflexivity|].
  destruct (band_bitrate_first_breakpoint (scenario 5000 1000 1000) L1800
              [of_Z 1500; of_Z 7000] eq_refl) as (column & Hcol & _ & H).
  exists column. split; [exact Hcol|]. split.
  - apply (proj1 (H 0%nat (of_Z 1500) eq_refl) 1%nat (of_Z 3) (of_Z 8000));
      try reflexivity.
    intros [|i'] earlier Hi' He; [|lia]. now injection He as <-.
  - apply (proj2 (H 1%nat (of_Z 7000) eq_refl)).
    intros breakpoint [<-|[<-|[<-|[]]]]; reflexivity.
Defined.

(* ================================================================= *)
(** * Monotonicity of the bitrate in the distance *)

Section Monotone.

Lemma nonincreasing_head (b : float64) (bs : list float64) (y : float64) :
  finite_table (b :: bs) = true -> nonincreasing (b :: bs) = true ->
  In y bs -> (y <=? b)%float = true.
Proof.
  revert b. induction bs as [|b' bs IH]; intros b Hf Hn Hy; [contradiction|].
  cbn [nonincreasing] in Hn. apply andb_true_iff in Hn as [Hge Hn].
  cbn [finite_table forallb] in Hf. apply andb_true_iff in Hf as [_ Hf].
  destruct Hy as [<-|Hy]; [exact Hge|].
  apply leb_trans with b'; [|exact Hge]. now apply IH.
Qed.

Lemma bitrate_at_In (ds bs : list float64) (d : float64) :
  (length ds <= length bs)%nat -> in_range ds d = true ->
  In (bitrate_at ds bs d) bs.
Proof.
  intros Hlen Hr.
  destruct (bitrate_at_in_range ds bs d Hlen Hr) as (i & x & v & _ & Hv & _ & _ & <-).
  now apply nth_error_In in Hv.
Qed.

Lemma in_range_leb (ds : list float64) (d1 d2 : float64) :
  (d1 <=? d2)%float = true -> in_range ds d2 = true -> in_range ds d1 = true.
Proof.
  intros Hd. unfold in_range. rewrite !existsb_exists.
  intros (x & Hx & Hge). exists x. split; [exact Hx|].
  unfold geb in *. now apply leb_trans with d2.
Qed.

Lemma finite_In (bs : list float64) (y : float64) :
  finite_table bs = true -> In y bs -> exists q, y = Fin q.
Proof.
  unfold finite_table. rewrite forallb_forall. intros H Hy.
  specialize (H y Hy). destruct y; try discriminate. now eexists.
Qed.

(** For one band: a larger distance never gives a larger bitrate. *)
Lemma bitrate_at_nonincreasing (ds bs : list float64) (d1 d2 : float64) :
  finite_table bs = true -> nonincreasing bs = true ->
  (length ds <= length bs)%nat ->
  (d1 <=? d2)%float = true -> in_range ds d2 = true ->
  exists q1 q2,
    bitrate_at ds bs d1 = Fin q1 /\ bitrate_at ds bs d2 = Fin q2 /\ (q2 <= q1)%Qc.
Proof.
  intros Hf Hn Hlen Hd Hr.
  assert (Hgoal : (bitrate_at ds bs d2 <=? bitrate_at ds bs d1)%float = true).
  { revert bs Hf Hn Hlen Hr. induction ds as [|x ds IH]; intros bs Hf Hn Hlen Hr;
      [discriminate|].
    destruct bs as [|b bs]; [simpl in Hlen; lia|].
    cbn [bitrate_at]. cbn [in_range existsb] in Hr.
    destruct (x >=? d2)%float eqn:H2.
    - assert (H1 : (x >=? d1)%float = true) by (unfold geb in *; now apply leb_trans with d2).
      rewrite H1. cbn [finite_table forallb] in Hf. apply andb_true_iff in Hf as [Hb _].
      destruct b; try discriminate. apply leb_Fin, Qcle_refl.
    - cbn [orb] in Hr. simpl in Hlen.
      destruct (x >=? d1)%float eqn:H1.
      + apply nonincreasing_head with bs; try assumption.
        apply bitrate_at_In; [lia|exact Hr].
      + apply IH; try assumption; try lia.
        * cbn [finite_table forallb] in Hf. now apply andb_true_iff in Hf as [_ Hf].
        * destruct bs; [reflexivity|]. cbn [nonincreasing] in Hn.
          now apply andb_true_iff in Hn as [_ Hn]. }
  destruct (finite_In bs (bitrate_at ds bs d1) Hf) as [q1 E1].
  { apply bitrate_at_In; [exact Hlen|]. now apply in_range_leb with d2. }
  destruct (finite_In bs (bitrate_at ds bs d2) Hf) as [q2 E2].
  { now apply bitrate_at_In. }
  exists q1, q2. rewrite E1, E2 in Hgoal. apply leb_Fin in Hgoal. auto.
Qed.

Variable self : Capacity.

Lemma forallb_bands (p : band -> bool) (b : band) :
  forallb p bands = true -> p b = true.
Proof.
  rewrite forallb_forall. intros H. apply H. destruct b; simpl; auto.
Qed.

(** The share of a band is a finite, non-negative number. *)
Lemma share_nonneg (b : band) :
  shares_ok self = true ->
  exists w, (band_bw self b / bw self)%float = Fin w /\ (0 <= w)%Qc.
Proof.
  unfold shares_ok. intros H. apply andb_true_iff in H as [Hall Hnz].
  assert (Hfin : forall b', exists q, band_bw self b' = Fin q /\ (0 <= q)%Qc).
  { intros b'. apply (forallb_bands _ b') in Hall.
    apply andb_true_iff in Hall as [Hf Hp].
    destruct (band_bw self b') as [| | |q]; try discriminate.
    exists q. split; [reflexivity|]. now apply leb_Fin. }
  destruct (Hfin L850) as (q0 & E0 & P0), (Hfin L1800) as (q1 & E1 & P1),
    (Hfin L2600) as (q2 & E2 & P2).
  destruct (Hfin b) as (q & E & P).
  assert (Ebw : bw self = Fin (q0 + q1 + q2)%Qc).
  { unfold bw. simpl in E0, E1, E2. now rewrite E0, E1, E2. }
  rewrite Ebw in Hnz |- *. rewrite E. simpl in Hnz |- *.
  destruct (Qc_eq_bool (q0 + q1 + q2) 0) eqn:Ez; [discriminate|].
  eexists. split; [reflexivity|].
  assert (Hpos : (0 < q0 + q1 + q2)%Qc).
  { assert (Hle : (0 <= q0 + q1 + q2)%Qc).
    { replace 0%Qc with (0 + 0 + 0)%Qc by ring.
      repeat apply Qcplus_le_compat; assumption. }
    apply Qcle_lt_or_eq in Hle as [Hlt|Heq]; [exact Hlt|].
    rewrite <- Heq in Ez. unfold Qc_eq_bool in Ez.
    now destruct (Qc_eq_dec 0 0). }
  unfold Qcdiv. replace 0%Qc with (0 * / (q0 + q1 + q2))%Qc by ring.
  apply Qcmult_le_compat_r; [exact P|].
  apply Qclt_le_weak. unfold Qclt, Qcinv. cbn [this Q2Qc].
  rewrite !Qred_correct. now apply Qinv_lt_0_compat.
Qed.

End Monotone.

(** C6: when every band has finite bitrates that never increase along its
    table (and the bandwidths are finite, not negative, with a total that
    is not zero), then for all distances [d1 <= d2] within the range of the
    tables, each band's bitrate at [d1] is at least its bitrate at [d2],
    and so is the weighted sum returned by [get_dl_bitrate].  The breakpoint
    tables need not even be ascending. *)
Theorem get_dl_bitrate_nonincreasing (self : Capacity) (d1 d2 : float64) :
  shares_ok self = true ->
  tables_ok self = true ->
  bitrates_nonincreasing self = true ->
  (d1 <=? d2)%float = true ->
  within_tables self d2 = true ->
  (forall b, exists v1 v2,
      band_bitrate (bwdistance_km self b) (bwdlachievbr self b)
        (map (fun x => x / of_Z 1000)%float [d1; d2]) = Ok [v1; v2] /\
      (v1 >=? v2)%float = true) /\
  (exists r1 r2,
      get_dl_bitrate self [d1; d2] = Ok [r1; r2] /\ (r1 >=? r2)%float = true).
Proof.
  intros Hs Ht Hn Hd Hw.
  assert (Hkm : (d1 / of_Z 1000 <=? d2 / of_Z 1000)%float = true).
  { apply div_leb_compat; [reflexivity|exact Hd]. }
  assert (Hband : forall b, exists q1 q2,
             band_value self b d1 = Fin q1 /\ band_value self b d2 = Fin q2 /\
             (q2 <= q1)%Qc).
  { intros b. unfold band_value.
    apply (forallb_bands _ b) in Hn. apply andb_true_iff in Hn as [Hf Hni].
    apply (forallb_bands _ b) in Hw.
    destruct (tables_ok_band self b Ht) as [_ Hlen].
    now apply bitrate_at_nonincreasing. }
  split.
  - intros b. destruct (tables_ok_band self b Ht) as [Hne Hlen].
    destruct (Hband b) as (q1 & q2 & E1 & E2 & Hle).
    exists (Fin q1), (Fin q2). split.
    + rewrite band_bitrate_eq by assumption. cbn [map].
      unfold band_value in E1, E2. now rewrite E1, E2.
    + now apply leb_Fin.
  - assert (Hnz : nonzero (bw self) = true).
    { unfold shares_ok in Hs. now apply andb_true_iff in Hs as [_ Hs]. }
    rewrite get_dl_bitrate_eq by assumption. cbn [map].
    do 2 eexists. split; [reflexivity|].
    unfold weighted_bitrate.
    destruct (Hband L850) as (a1 & a2 & -> & -> & Ha).
    destruct (Hband L1800) as (b1 & b2 & -> & -> & Hb).
    destruct (Hband L2600) as (c1 & c2 & -> & -> & Hc).
    destruct (share_nonneg self L850 Hs) as (w0 & E0 & P0).
    destruct (share_nonneg self L1800 Hs) as (w1 & E1 & P1).
    destruct (share_nonneg self L2600 Hs) as (w2 & E2 & P2).
    cbn [band_bw] in E0, E1, E2. rewrite E0, E1, E2.
    unfold geb, zero. cbn [mul add].
    apply leb_Fin.
    repeat apply Qcplus_le_compat; try apply Qcle_refl;
      now apply Qcmult_le_compat_r.
Qed.

Lemma get_dl_bitrate_nonincreasing_witness :
  exists r1 r2,
    get_dl_bitrate (scenario 5000 1000 1000) [of_Z 500; of_Z 1500] = Ok [r1; r2] /\
    (r1 >=? r2)%float = true.
Proof.
  apply (@get_dl_bitrate_nonincreasing (scenario 5000 1000 1000) (of_Z 500) (of_Z 1500));
    reflexivity.
Defined.

(* ================================================================= *)
(** * The point-level pipeline *)

Section PipelineFacts.

Variable self : Capacity.
Variable perform_pair_analysis : Z -> Z -> float64 * option bool.
Variable within : poi -> Z -> bool.

Lemma apply_visibility_eq (rows : list (poi * option Z)) :
  apply_visibility perform_pair_analysis rows
  = (map (live_row perform_pair_analysis) rows, flat_map live_call rows).
Proof.
  induction rows as [|[p s] rows IH]; [reflexivity|].
  cbn [apply_visibility]. rewrite IH.
  unfold _get_visibility_status, live_row, live_call, tbind, tret.
  destruct s as [s|]; cbn [fst snd]; rewrite ?app_nil_r; reflexivity.
Qed.

Lemma live_visibility_calls (pois : list poi) (buffers : list Z) :
  calls (live_visibility perform_pair_analysis within pois buffers)
  = flat_map live_call (drop_duplicates [] (sjoin_left within pois buffers)).
Proof.
  unfold live_visibility. rewrite apply_visibility_eq.
  unfold calls, tbind, tret. cbn [snd]. now rewrite app_nil_r.
Qed.

Lemma live_visibility_rows (pois : list poi) (buffers : list Z) (rows : list poi_row) :
  value (live_visibility perform_pair_analysis within pois buffers) = Ok rows ->
  rows = map (live_row perform_pair_analysis) (drop_duplicates [] (sjoin_left within pois buffers)).
Proof.
  unfold live_visibility. rewrite apply_visibility_eq.
  unfold value, tbind, tret. cbn [fst].
  destruct (map (live_row perform_pair_analysis) _); [discriminate|]. now intros [= <-].
Qed.

Lemma live_row_unassigned (row : poi_row) (joined : list (poi * option Z)) :
  In row (map (live_row perform_pair_analysis) joined) -> row_ict_id row = None ->
  row_ground_distance row = NaN.
Proof.
  rewrite in_map_iff. intros ([p s] & <- & _). cbn. now intros ->.
Qed.

Lemma merge_poi_unassigned (filtered : list visibility_pair) (p : poi) (row : poi_row) :
  (forall v, In v filtered -> vp_ict_id v = None -> vp_ground_distance v = NaN) ->
  In row (merge_poi filtered p) -> row_ict_id row = None ->
  row_ground_distance row = NaN.
Proof.
  intros Hwf. unfold merge_poi.
  destruct (filter _ filtered) as [|v0 found] eqn:E.
  - intros [<-|[]]. reflexivity.
  - rewrite <- E. rewrite in_map_iff. intros (v & <- & Hv). cbn.
    apply filter_In in Hv as [Hv _]. now apply Hwf.
Qed.

Lemma precomputed_unassigned (visibility : list visibility_pair) (pois : list poi)
    (row : poi_row) :
  (forall v, In v visibility -> vp_ict_id v = None -> vp_ground_distance v = NaN) ->
  In row (precomputed_visibility visibility pois) -> row_ict_id row = None ->
  row_ground_distance row = NaN.
Proof.
  intros Hwf. unfold precomputed_visibility. rewrite in_flat_map.
  intros (p & _ & Hrow). apply merge_poi_unassigned with (2 := Hrow).
  intros v Hv. apply filter_In in Hv as [Hv _]. now apply Hwf.
Qed.

Lemma combine_finish {A B C D : Type} (f : A -> B) (g : A -> C) (k : B * C -> D)
    (l : list A) :
  combine (combine l (map f l)) (map k (combine (map f l) (map g l)))
  = map (fun m => ((m, f m), k (f m, g m))) l.
Proof.
  induction l as [|x l IH]; simpl; [reflexivity|]. now rewrite IH.
Qed.

(** The point level never raises: the two arguments of the final
    [sufcapch] are columns of one frame. *)
Lemma poi_level_eq (cellsites_rbu : list site_capacity) (rows : list poi_row) :
  poi_level self cellsites_rbu rows
  = Ok (map finish
          (merge_sites cellsites_rbu
             (combine rows (poiddatareq self (map row_ground_distance rows))))).
Proof.
  unfold poi_level.
  set (merged := merge_sites _ _).
  unfold sufcapch. rewrite !length_map, Nat.eqb_refl, andb_false_r.
  rewrite broadcast2_same by now rewrite !length_map.
  cbn [bind]. f_equal.
  rewrite (combine_finish (fun m : merged_row => fillna zero (snd (snd m)))
             (fun m : merged_row => snd (fst m))
             (fun p => (fst p >? snd p)%float)).
  rewrite map_map. reflexivity.
Qed.

(** Each returned row comes from one row of the visibility stage, the
    requirement computed at that row's position, and one merged site
    row. *)
Lemma poi_level_row (cellsites_rbu : list site_capacity) (rows : list poi_row)
    (r : poi_result) :
  In r (map finish
          (merge_sites cellsites_rbu
             (combine rows (poiddatareq self (map row_ground_distance rows))))) ->
  exists i row rb c,
    nth_error rows i = Some row /\
    nth_error (poiddatareq self (map row_ground_distance rows)) i = Some rb /\
    In c (merge_site cellsites_rbu (row_ict_id row)) /\
    r = finish (row, rb, c).
Proof.
  rewrite in_map_iff. intros (m & <- & Hm).
  unfold merge_sites in Hm. apply in_flat_map in Hm as ([row rb] & Hin & Hc).
  apply in_map_iff in Hc as (c & <- & Hc). cbn [fst] in Hc.
  apply In_nth_error in Hin as [i Hi].
  exists i, row, rb, c.
  assert (Hlt : (i < length (combine rows (poiddatareq self (map row_ground_distance rows))))%nat).
  { apply nth_error_Some. congruence. }
  rewrite length_combine in Hlt.
  destruct (nth_error rows i) as [row'|] eqn:Er;
    [|apply nth_error_None in Er; lia].
  destruct (nth_error (poiddatareq self (map row_ground_distance rows)) i) as [rb'|] eqn:Eb;
    [|apply nth_error_None in Eb; lia].
  assert (Hc' : nth_error (combine rows (poiddatareq self (map row_ground_distance rows))) i
                = Some (row', rb')).
  { clear - Er Eb. revert i Er Eb.
    generalize (poiddatareq self (map row_ground_distance rows)) as ys.
    induction rows as [|x xs IH]; intros ys [|i] Er Eb; destruct ys as [|y ys];
      simpl in *; try discriminate; try congruence.
    now apply IH. }
  rewrite Hc' in Hi. injection Hi as -> ->. auto.
Qed.

(** The requirement at a position whose distance is undefined is positive
    infinity, or not-a-number when the body of [poiddatareq] raised. *)
Lemma poiddatareq_at_nan (d : list float64) (i : nat) (rb : float64) :
  nth_error d i = Some NaN ->
  nth_error (poiddatareq self d) i = Some rb ->
  rb = PInf \/ rb = NaN.
Proof.
  intros Hd Hrb. destruct (poiddatareq_cases self d) as [E|E]; rewrite E in Hrb.
  - rewrite nth_error_map, Hd in Hrb. cbn in Hrb. injection Hrb as <-. now left.
  - apply nth_error_In, repeat_spec in Hrb. now right.
Qed.


(** What [calculate_buffer_areas] returned, in terms of its stages. *)
Lemma calculate_buffer_areas_inv (visibility : option (list visibility_pair))
    (pois : list poi) (sites : list Z) (cellsites_rbu : list site_capacity)
    (rings : list ring_record) (results : list poi_result) :
  value (calculate_buffer_areas self perform_pair_analysis within visibility pois
           sites cellsites_rbu) = Ok (rings, results) ->
  exists rows,
    rings_gdf self sites = Ok rings /\
    value (visibility_analysis perform_pair_analysis within visibility pois sites)
    = Ok rows /\
    results = map finish
                (merge_sites cellsites_rbu
                   (combine rows (poiddatareq self (map row_ground_distance rows)))).
Proof.
  unfold calculate_buffer_areas.
  destruct (estimate_utm_crs pois) as [u|e]; [|discriminate].
  destruct (rings_gdf self sites) as [rings'|e]; [|discriminate].
  destruct (visibility_analysis _ _ visibility pois sites) as [[rows|e] t];
    unfold value, tbind, tret; cbn [fst bind]; [|discriminate].
  rewrite poi_level_eq. cbn [bind]. intros [= <- <-].
  exists rows. auto.
Qed.

End PipelineFacts.

(** C8: in the table returned by [calculate_buffer_areas], every point
    without a site identifier has its available cell capacity set to zero
    and its sufficiency check false.  A precomputed pair that names no site
    is taken to carry no ground distance. *)
Theorem unassigned_points_insufficient (self : Capacity)
    (perform_pair_analysis : Z -> Z -> float64 * option bool)
    (within : poi -> Z -> bool)
    (visibility : option (list visibility_pair)) (pois : list poi) (sites : list Z)
    (cellsites_rbu : list site_capacity)
    (rings : list ring_record) (results : list poi_result) :
  (forall table v, visibility = Some table -> In v table ->
     vp_ict_id v = None -> vp_ground_distance v = NaN) ->
  value (calculate_buffer_areas self perform_pair_analysis within visibility pois
           sites cellsites_rbu) = Ok (rings, results) ->
  forall r, In r results -> res_ict_id r = None ->
    res_cellavcap r = zero /\ res_sufcapch r = false.
Proof.
  intros Hwf Hrun r Hr Hnone.
  apply calculate_buffer_areas_inv in Hrun as (rows & _ & Hrows & ->).
  apply poi_level_row in Hr as (i & row & rb & c & Hi & Hrb & Hc & ->).
  destruct c as [u a]. cbn in Hnone. rewrite Hnone in Hc. cbn in Hc.
  destruct Hc as [Hc|[]]. injection Hc as <- <-.
  assert (Hgd : row_ground_distance row = NaN).
  { apply nth_error_In in Hi. destruct visibility as [table|]; cbn in Hrows.
    - injection Hrows as <-.
      apply precomputed_unassigned with (2 := Hi); [|exact Hnone].
      intros v Hv. now apply (Hwf table).
    - apply live_visibility_rows in Hrows. subst rows.
      now apply live_row_unassigned with (1 := Hi). }
  assert (Hrb' : rb = PInf \/ rb = NaN).
  { apply poiddatareq_at_nan with (self := self) (d := map row_ground_distance rows) (i := i);
      [|exact Hrb].
    now rewrite nth_error_map, Hi, <- Hgd. }
  cbn. split; [reflexivity|]. destruct Hrb' as [-> | ->]; reflexivity.
Qed.

Lemma unassigned_points_insufficient_witness :
  exists r, In r (demo_results None) /\ res_ict_id r = None /\
            res_cellavcap r = zero /\ res_sufcapch r = false.
Proof.
  assert (Hrun : value (demo_run None) = Ok (demo_rings None, demo_results None))
    by (vm_compute; reflexivity).
  destruct (demo_results None) as [|r0 [|r results]] eqn:E;
    [vm_compute in E; discriminate E | vm_compute in E; discriminate E |].
  assert (Hnone : res_ict_id r = None)
    by (vm_compute in E; now injection E as _ <- _).
  exists r. split; [right; left; reflexivity|]. split; [exact Hnone|].
  apply (@unassigned_points_insufficient (scenario 2000 1000 1000) demo_oracle demo_within
           None demo_pois [7%Z] demo_rbu (demo_rings None) (r0 :: r :: results)).
  - intros table v H. discriminate H.
  - exact Hrun.
  - right. left. reflexivity.
  - exact Hnone.
Defined.



Section JoinFacts.

Lemma filter_filter {A : Type} (f g : A -> bool) (l : list A) :
  filter f (filter g l) = filter (fun x => g x && f x)%bool l.
Proof.
  induction l as [|x l IH]; [reflexivity|]. cbn [filter].
  destruct (g x); cbn [andb filter]; [|exact IH].
  destruct (f x); now rewrite IH.
Qed.

(** The merge of the source is the join by point identifier. *)
Lemma precomputed_is_join (table : list visibility_pair) (pois : list poi) :
  precomputed_visibility table pois = joined_by_poi_id table pois.
Proof.
  unfold precomputed_visibility, joined_by_poi_id.
  induction pois as [|p pois IH]; [reflexivity|].
  cbn [flat_map]. rewrite IH. f_equal.
  unfold merge_poi, rank1_pairs. rewrite filter_filter. reflexivity.
Qed.

Lemma rank1_pairs_In (table : list visibility_pair) (p : poi) (v : visibility_pair) :
  In v (rank1_pairs table p)
  <-> In v table /\ vp_order v = 1%Z /\ vp_poi_id v = poi_id p.
Proof.
  unfold rank1_pairs. rewrite filter_In, andb_true_iff, !Z.eqb_eq. tauto.
Qed.

Lemma joined_pair (table : list visibility_pair) (pois : list poi) (p : poi)
    (v : visibility_pair) :
  In p pois -> In v table -> vp_order v = 1%Z -> vp_poi_id v = poi_id p ->
  In (pair_row p v) (joined_by_poi_id table pois).
Proof.
  intros Hp Hv Ho Hid. unfold joined_by_poi_id. apply in_flat_map. exists p.
  split; [exact Hp|].
  assert (Hin : In v (rank1_pairs table p)) by now apply rank1_pairs_In.
  destruct (rank1_pairs table p) as [|v0 found] eqn:E; [destruct Hin|].
  now apply in_map.
Qed.

Lemma joined_missing (table : list visibility_pair) (pois : list poi) (p : poi) :
  In p pois ->
  (forall v, In v table -> vp_order v = 1%Z -> vp_poi_id v <> poi_id p) ->
  In (missing_row p) (joined_by_poi_id table pois).
Proof.
  intros Hp Hnone. unfold joined_by_poi_id. apply in_flat_map. exists p.
  split; [exact Hp|].
  destruct (rank1_pairs table p) as [|v0 found] eqn:E; [now left|].
  assert (Hin : In v0 (rank1_pairs table p)) by (rewrite E; now left).
  apply rank1_pairs_In in Hin as (Hv & Ho & Hid). now contradiction (Hnone v0).
Qed.

Lemma joined_inv (table : list visibility_pair) (pois : list poi) (row : poi_row) :
  In row (joined_by_poi_id table pois) ->
  In (row_poi row) pois /\
  ((row = missing_row (row_poi row) /\
    forall v, In v table -> vp_order v = 1%Z -> vp_poi_id v <> poi_id (row_poi row))
   \/ exists v, In v table /\ vp_order v = 1%Z /\
                vp_poi_id v = poi_id (row_poi row) /\
                row = pair_row (row_poi row) v).
Proof.
  unfold joined_by_poi_id. intros H. apply in_flat_map in H as (p & Hp & Hrow).
  destruct (rank1_pairs table p) as [|v0 found] eqn:E.
  - destruct Hrow as [<-|[]]. cbn [missing_row row_poi]. split; [exact Hp|].
    left. split; [reflexivity|]. intros v Hv Ho Hid.
    assert (Hin : In v (rank1_pairs table p)) by now apply rank1_pairs_In.
    rewrite E in Hin. destruct Hin.
  - rewrite <- E in Hrow. apply in_map_iff in Hrow as (v & <- & Hv).
    apply rank1_pairs_In in Hv as (Hv & Ho & Hid). cbn [pair_row row_poi].
    split; [exact Hp|]. right. now exists v.
Qed.

Lemma merge_site_nonempty (cellsites_rbu : list site_capacity) (o : option Z) :
  exists c, In c (merge_site cellsites_rbu o).
Proof.
  unfold merge_site. destruct o as [s|]; [|eexists; now left].
  destruct (filter (fun c => (sc_ict_id c =? s)%Z) cellsites_rbu) as [|c found];
    eexists; now left.
Qed.

Lemma visibility_columns_finish (row : poi_row) (rb : float64)
    (c : float64 * float64) :
  visibility_columns (finish (row, rb, c)) = row.
Proof. destruct row, c. reflexivity. Qed.

(** The returned table carries the rows of the visibility analysis: every
    returned row is one of them, and each of them is returned. *)
Lemma results_carry_rows (self : Capacity) (cellsites_rbu : list site_capacity)
    (rows : list poi_row) (row : poi_row) :
  In row rows <->
  exists r,
    In r (map finish
            (merge_sites cellsites_rbu
               (combine rows (poiddatareq self (map row_ground_distance rows)))))
    /\ visibility_columns r = row.
Proof.
  split.
  - intros Hrow. apply In_nth_error in Hrow as (i & Hi).
    assert (Hlt : (i < length (poiddatareq self (map row_ground_distance rows)))%nat).
    { rewrite poiddatareq_length, length_map. apply nth_error_Some. congruence. }
    apply nth_error_Some in Hlt.
    destruct (nth_error (poiddatareq self (map row_ground_distance rows)) i)
      as [rb|] eqn:Hrb; [|congruence].
    destruct (merge_site_nonempty cellsites_rbu (row_ict_id row)) as [c Hc].
    exists (finish (row, rb, c)). split; [|apply visibility_columns_finish].
    apply in_map. unfold merge_sites. apply in_flat_map. exists (row, rb). split.
    + apply nth_error_In with i. revert Hi Hrb.
      generalize (poiddatareq self (map row_ground_distance rows)). clear.
      revert i. induction rows as [|r0 rows IH]; intros [|i] [|b bs] H1 H2;
        try discriminate; cbn in *.
      * congruence.
      * now apply IH.
    + cbn [fst]. now apply in_map.
  - intros (r & Hr & <-).
    apply poi_level_row in Hr as (i & row & rb & c & Hi & _ & _ & ->).
    rewrite visibility_columns_finish. now apply nth_error_In with i.
Qed.

End JoinFacts.

(** C9: with a precomputed visibility table [calculate_buffer_areas] makes
    no oracle invocation, whatever the oracle and the spatial join are: its
    point rows are the points joined by point identifier to the pairs of
    rank order 1 -- every point gets a row for each of its rank-1 pairs, a
    point without any gets one row of missing values, and there is no other
    row -- these rows are those of the returned table, and rows of any
    other rank leave the result unchanged.  Without a table the oracle is
    invoked, in row order, once for every row that the spatial join
    assigned to a site (and the rows are those of the spatial join).  The
    table alone decides which of the two runs. *)
Theorem visibility_modes (self : Capacity)
    (perform_pair_analysis : Z -> Z -> float64 * option bool)
    (within : poi -> Z -> bool) (pois : list poi) (sites : list Z)
    (cellsites_rbu : list site_capacity) :
  (forall table,
      calls (calculate_buffer_areas self perform_pair_analysis within (Some table)
               pois sites cellsites_rbu) = [] /\
      visibility_analysis perform_pair_analysis within (Some table) pois sites
      = (Ok (joined_by_poi_id table pois), []) /\
      (forall p v, In p pois -> In v table -> vp_order v = 1%Z ->
         vp_poi_id v = poi_id p ->
         In (pair_row p v) (joined_by_poi_id table pois)) /\
      (forall p, In p pois ->
         (forall v, In v table -> vp_order v = 1%Z -> vp_poi_id v <> poi_id p) ->
         In (missing_row p) (joined_by_poi_id table pois)) /\
      (forall row, In row (joined_by_poi_id table pois) ->
         In (row_poi row) pois /\
         ((row = missing_row (row_poi row) /\
           forall v, In v table -> vp_order v = 1%Z ->
             vp_poi_id v <> poi_id (row_poi row))
          \/ exists v, In v table /\ vp_order v = 1%Z /\
                       vp_poi_id v = poi_id (row_poi row) /\
                       row = pair_row (row_poi row) v)) /\
      (forall rings results,
          value (calculate_buffer_areas self perform_pair_analysis within
                   (Some table) pois sites cellsites_rbu) = Ok (rings, results) ->
          forall row, In row (joined_by_poi_id table pois)
                      <-> exists r, In r results /\ visibility_columns r = row) /\
      (forall table',
          filter (fun v => (vp_order v =? 1)%Z) table'
          = filter (fun v => (vp_order v =? 1)%Z) table ->
          calculate_buffer_areas self perform_pair_analysis within (Some table')
            pois sites cellsites_rbu
          = calculate_buffer_areas self perform_pair_analysis within (Some table)
              pois sites cellsites_rbu) /\
      (forall oracle' within',
          calculate_buffer_areas self oracle' within' (Some table) pois sites cellsites_rbu
          = calculate_buffer_areas self perform_pair_analysis within (Some table)
              pois sites cellsites_rbu)) /\
  (calls (visibility_analysis perform_pair_analysis within None pois sites)
   = flat_map (live_call)
       (drop_duplicates [] (sjoin_left within pois sites)) /\
   (forall rings, rings_gdf self sites = Ok rings ->
      calls (calculate_buffer_areas self perform_pair_analysis within None
               pois sites cellsites_rbu)
      = flat_map (live_call)
          (drop_duplicates [] (sjoin_left within pois sites))) /\
   (forall rows,
      value (visibility_analysis perform_pair_analysis within None pois sites) = Ok rows ->
      rows = map (live_row perform_pair_analysis)
               (drop_duplicates [] (sjoin_left within pois sites)))).
Proof.
  split.
  - intros table. repeat match goal with |- _ /\ _ => split end.
    + unfold calculate_buffer_areas.
      destruct (estimate_utm_crs pois); [|reflexivity].
      destruct (rings_gdf self sites); reflexivity.
    + cbn [visibility_analysis]. now rewrite precomputed_is_join.
    + intros p v. apply joined_pair.
    + intros p. apply joined_missing.
    + intros row. apply joined_inv.
    + intros rings results Hrun row.
      apply calculate_buffer_areas_inv in Hrun as (rows & _ & Hrows & ->).
      cbn in Hrows. injection Hrows as <-. rewrite precomputed_is_join.
      apply results_carry_rows.
    + intros table' Hsame. unfold calculate_buffer_areas, visibility_analysis,
        precomputed_visibility. now rewrite Hsame.
    + intros oracle' within'. reflexivity.
  - split; [apply live_visibility_calls|]. split.
    + intros rings Hrings. unfold calculate_buffer_areas. rewrite Hrings.
      destruct pois as [|p pois']; [reflexivity|]. cbn [estimate_utm_crs].
      cbn [visibility_analysis].
      pose proof (live_visibility_calls perform_pair_analysis within (p :: pois') sites)
        as H.
      destruct (live_visibility perform_pair_analysis within (p :: pois') sites)
        as [v t].
      unfold calls, tbind, tret in *. cbn [snd] in *. now rewrite app_nil_r.
    + intros rows. apply live_visibility_rows.
Qed.

Lemma visibility_modes_witness :
  calls (demo_run (Some demo_visibility)) = [] /\
  calls (demo_run None) = [(1%Z, 7%Z)] /\
  value (visibility_analysis demo_oracle demo_within (Some demo_visibility)
           demo_pois [7%Z])
  = Ok [ pair_row {| poi_id := 1; lat := of_Z 10; lon := of_Z 20 |}
           {| vp_poi_id := 1; vp_ict_id := Some 7%Z; vp_order := 1;
              vp_ground_distance := of_Z 500; vp_is_visible := Some true |};
         missing_row {| poi_id := 2; lat := of_Z 11; lon := of_Z 21 |} ] /\
  In (pair_row {| poi_id := 1; lat := of_Z 10; lon := of_Z 20 |}
        {| vp_poi_id := 1; vp_ict_id := Some 7%Z; vp_order := 1;
           vp_ground_distance := of_Z 500; vp_is_visible := Some true |})
     (joined_by_poi_id demo_visibility demo_pois) /\
  In (missing_row {| poi_id := 2; lat := of_Z 11; lon := of_Z 21 |})
     (joined_by_poi_id demo_visibility demo_pois).
Proof.
  destruct (visibility_modes (scenario 2000 1000 1000) demo_oracle demo_within
              demo_pois [7%Z] demo_rbu) as [Hpre (_ & Hlive & _)].
  destruct (Hpre demo_visibility) as (Hcalls & Hrows & Hpair & Hmiss & _).
  split; [exact Hcalls|]. split; [|split; [|split]].
  - unfold demo_run. rewrite (Hlive (demo_rings None)); reflexivity.
  - rewrite Hrows. reflexivity.
  - apply Hpair; [now left|right; now left|reflexivity|reflexivity].
  - apply Hmiss; [right; now left|].
    intros v [<-|[<-|[]]]; cbn; [discriminate|discriminate].
Defined.

(* ================================================================= *)
(** * The ring table *)

Section ColumnFacts.

Import Columns.
Local Open Scope string_scope.

Lemma to_int_proper (z : Z) : Z.to_int z <> Pos Nil /\ Z.to_int z <> Neg Nil.
Proof.
  destruct z as [|p|p]; simpl; split; try discriminate.
  - intros [= H]. now apply Unsigned.to_uint_nonnil in H.
  - intros [= H]. now apply Unsigned.to_uint_nonnil in H.
Qed.

(** Distinct integers print differently. *)
Lemma str_inj (a b : Z) : str a = str b -> a = b.
Proof.
  unfold str. intros H. apply to_int_inj.
  destruct (to_int_proper a) as [Ha1 Ha2], (to_int_proper b) as [Hb1 Hb2].
  pose proof (NilZero.isi (Z.to_int a) Ha1 Ha2) as Ia.
  pose proof (NilZero.isi (Z.to_int b) Hb1 Hb2) as Ib.
  rewrite H in Ia. congruence.
Qed.

Lemma append_inv_head (p s s' : string) : p ++ s = p ++ s' -> s = s'.
Proof.
  induction p as [|c p IH]; simpl; [auto|]. intros [= H]. now apply IH.
Qed.

Lemma fmt_inj (p : string) (r r' : Z) : fmt p r = fmt p r' -> r = r'.
Proof.
  unfold fmt. intros H. apply append_inv_head in H.
  apply (append_inv_head "_") in H. now apply str_inj.
Qed.

Lemma take_digits_uint (u : uint) :
  take_digits (NilEmpty.string_of_uint u) = NilEmpty.string_of_uint u.
Proof.
  induction u; simpl; try reflexivity; now rewrite IHu.
Qed.

Lemma extract_digits_uint (u : uint) :
  u <> Nil ->
  extract_digits (NilZero.string_of_uint u) = Some (NilZero.string_of_uint u).
Proof.
  destruct u; intros H; try congruence; simpl; now rewrite take_digits_uint.
Qed.

Lemma astype_int_uint (p : positive) :
  astype_int (extract_digits (NilZero.string_of_uint (Pos.to_uint p)))
  = if (Zpos p <? int64_bound)%Z then Ok (Zpos p) else Raise OverflowError.
Proof.
  pose proof (Unsigned.to_uint_nonnil p) as Hn.
  rewrite extract_digits_uint by assumption. unfold astype_int.
  rewrite NilZero.usu by assumption.
  unfold Z.of_uint. now rewrite Unsigned.of_to.
Qed.

(** The label read back from a ring column name is the absolute value of
    the radius it was formatted from, as long as it fits 64 bits. *)
Lemma astype_int_clring_cases (r : Z) :
  astype_int (extract_digits (fmt "clring" r))
  = if (Z.abs r <? int64_bound)%Z then Ok (Z.abs r) else Raise OverflowError.
Proof.
  unfold fmt. cbn [append]. cbn [extract_digits is_digit].
  unfold str. destruct r as [|p|p]; cbn [Z.to_int NilZero.string_of_int Z.abs].
  - reflexivity.
  - apply astype_int_uint.
  - cbn [extract_digits is_digit]. apply astype_int_uint.
Qed.

Lemma astype_int_clring (r : Z) :
  (Z.abs r < int64_bound)%Z ->
  astype_int (extract_digits (fmt "clring" r)) = Ok (Z.abs r).
Proof.
  intros H. rewrite astype_int_clring_cases.
  now rewrite (proj2 (Z.ltb_lt _ _) H).
Qed.

Lemma astype_int_overflow (r : Z) :
  (int64_bound <= Z.abs r)%Z ->
  astype_int (extract_digits (fmt "clring" r)) = Raise OverflowError.
Proof.
  intros H. rewrite astype_int_clring_cases.
  now rewrite (proj2 (Z.ltb_ge _ _) H).
Qed.

Lemma has_column_In (name : string) (columns : list string) :
  has_column name columns = true <-> In name columns.
Proof.
  unfold has_column. rewrite existsb_exists. split.
  - intros (x & Hx & E). apply String.eqb_eq in E. now subst.
  - intros H. exists name. split; [exact H|apply String.eqb_refl].
Qed.

Lemma has_column_not_In (name : string) (columns : list string) :
  ~ In name columns -> has_column name columns = false.
Proof.
  intros H. destruct (has_column name columns) eqn:E; [|reflexivity].
  now apply has_column_In in E.
Qed.

Lemma set_column_fresh (name : string) (columns : list string) :
  ~ In name columns -> set_column name columns = (columns ++ [name])%list.
Proof.
  intros H. unfold set_column. now rewrite has_column_not_In.
Qed.

(** The names of two radii meet only when the radii are equal. *)
Lemma radius_columns_disjoint (r r' : Z) (name : string) :
  In name (radius_columns r) -> In name (radius_columns r') -> r = r'.
Proof.
  unfold radius_columns.
  intros [<-|[<-|[<-|[<-|[]]]]] [H|[H|[H|[H|[]]]]];
    try (now apply fmt_inj in H); unfold fmt in H; cbn [append] in H;
    discriminate H.
Qed.

Lemma radius_columns_not_base (r : Z) (name : string) :
  In name (radius_columns r) -> ~ In name base_columns.
Proof.
  unfold radius_columns, base_columns.
  intros [<-|[<-|[<-|[<-|[]]]]] [H|[H|[H|[H|[H|[]]]]]];
    unfold fmt in H; cbn [append] in H; discriminate H.
Qed.

Lemma radius_columns_NoDup (r : Z) : NoDup (radius_columns r).
Proof.
  unfold radius_columns.
  repeat constructor; cbn [In]; intros H;
    repeat (destruct H as [H|H]; [unfold fmt in H; cbn [append] in H; discriminate H|]);
    exact H.
Qed.

End ColumnFacts.

Section RingFacts.

Import Columns.
Variable self : Capacity.
Variable sites : list Z.
Hypothesis some_site : sites <> [].

Lemma apply_rows_ok : apply_rows sites = Ok tt.
Proof.
  unfold apply_rows. generalize some_site.
  destruct sites as [|s ids]; intros H; [now contradiction H|reflexivity].
Qed.

Lemma nth_radius_inj (j k : nat) :
  radius_step self <> 0%Z -> nth_radius self j = nth_radius self k -> j = k.
Proof.
  unfold nth_radius. intros Hs H.
  assert (E : (Z.of_nat j * radius_step self = Z.of_nat k * radius_step self)%Z) by lia.
  apply Z.mul_reg_r in E; [lia|exact Hs].
Qed.

Lemma ring_step_fresh (columns : list string) (r : Z) :
  (forall name, In name (radius_columns r) -> ~ In name columns) ->
  (r = min_radius self
   \/ In (fmt "buffer" (r - radius_step self)) columns) ->
  ring_step self sites columns r = Ok (columns ++ radius_columns r).
Proof.
  intros Hfresh Hprev.
  pose proof (radius_columns_NoDup r) as Hnd. unfold radius_columns in *.
  inversion Hnd as [|? ? N1 Hnd1]; subst.
  inversion Hnd1 as [|? ? N2 Hnd2]; subst.
  inversion Hnd2 as [|? ? N3 _]; subst.
  cbn [In] in *.
  unfold ring_step.
  rewrite (set_column_fresh (fmt "buffer" r)) by (apply Hfresh; auto).
  assert (Hring : set_column (fmt "ring" r) (columns ++ [fmt "buffer" r])
                  = (columns ++ [fmt "buffer" r]) ++ [fmt "ring" r]).
  { apply set_column_fresh. rewrite in_app_iff. intros [H|[H|[]]].
    - revert H. apply Hfresh. auto.
    - apply N1. auto. }
  assert (Hbranch :
            (if (r =? min_radius self)%Z
             then Ok (set_column (fmt "ring" r) (columns ++ [fmt "buffer" r]))
             else if has_column (fmt "buffer" (r - radius_step self))
                       (columns ++ [fmt "buffer" r])
                  then Ok (set_column (fmt "ring" r) (columns ++ [fmt "buffer" r]))
                  else Raise KeyError)
            = Ok ((columns ++ [fmt "buffer" r]) ++ [fmt "ring" r])).
  { destruct (Z.eqb_spec r (min_radius self)) as [E|N]; [now rewrite Hring|].
    destruct Hprev as [E|Hin]; [contradiction|].
    replace (has_column _ _) with true; [now rewrite Hring|].
    symmetry. apply has_column_In. rewrite in_app_iff. now left. }
  rewrite Hbranch. cbn [bind]. rewrite apply_rows_ok. cbn [bind].
  rewrite (set_column_fresh (fmt "clring" r)).
  - rewrite (set_column_fresh (fmt "clbuffer" r)).
    + now rewrite <- !app_assoc.
    + rewrite !in_app_iff. cbn [In].
      intros [[[H|[H|[]]]|[H|[]]]|[H|[]]].
      * revert H. apply Hfresh. auto.
      * apply N1. auto.
      * apply N2. auto.
      * apply N3. auto.
  - rewrite !in_app_iff. cbn [In].
    intros [[H|[H|[]]]|[H|[]]].
    + revert H. apply Hfresh. auto.
    + apply N1. auto.
    + apply N2. auto.
Qed.

(** The loop never misses its previous buffer: it adds the four columns
    of every radius, in order. *)
Lemma ring_loop_seq (n a : nat) (columns : list string) :
  radius_step self <> 0%Z ->
  (a = 0%nat \/ In (fmt "buffer" (nth_radius self (a - 1))) columns) ->
  (forall k name, (a <= k)%nat -> In name (radius_columns (nth_radius self k)) ->
                  ~ In name columns) ->
  ring_loop self sites (map (nth_radius self) (seq a n)) columns
  = Ok (columns ++ flat_map radius_columns (map (nth_radius self) (seq a n))).
Proof.
  intros Hs. revert a columns. induction n as [|n IH]; intros a columns Hprev Hfresh.
  - cbn. now rewrite app_nil_r.
  - cbn [seq map ring_loop flat_map].
    rewrite ring_step_fresh.
    + cbn [bind]. rewrite IH.
      * now rewrite <- app_assoc.
      * right. replace (S a - 1)%nat with a by lia.
        rewrite in_app_iff. right. unfold radius_columns. cbn [In]. auto.
      * intros k name Hk Hname. rewrite in_app_iff. intros [H|H].
        -- revert H. apply (Hfresh k); [lia|exact Hname].
        -- pose proof (@radius_columns_disjoint _ _ _ Hname H) as E.
           apply nth_radius_inj in E; [lia|exact Hs].
    + intros name. now apply (Hfresh a).
    + destruct Hprev as [->|Hin].
      * left. unfold nth_radius. cbn. lia.
      * destruct a as [|a]; [left; unfold nth_radius; cbn; lia|].
        right. replace (S a - 1)%nat with a in Hin by lia.
        replace (nth_radius self (S a) - radius_step self)%Z with (nth_radius self a);
          [exact Hin|].
        unfold nth_radius. lia.
Qed.

Lemma filter_clring (radii : list Z) :
  filter (startswith "clring") (flat_map radius_columns radii)
  = map (fmt "clring") radii.
Proof.
  induction radii as [|r radii IH]; [reflexivity|].
  cbn [flat_map map]. rewrite filter_app, IH.
  unfold radius_columns, fmt. cbn. reflexivity.
Qed.

Lemma clbuffer_In (r : Z) (radii : list Z) :
  In (fmt "clbuffer" r) (base_columns ++ flat_map radius_columns radii)
  <-> In r radii.
Proof.
  rewrite in_app_iff, in_flat_map. split.
  - intros [H|(r' & Hr' & H)].
    + exfalso. revert H. apply (@radius_columns_not_base r).
      unfold radius_columns. cbn [In]. auto.
    + assert (E : r = r').
      { apply radius_columns_disjoint with (fmt "clbuffer" r); [|exact H].
        unfold radius_columns. cbn [In]. auto. }
      now subst.
  - intros H. right. exists r. split; [exact H|].
    unfold radius_columns. cbn [In]. auto.
Qed.

Lemma ring_rows_app (xs ys : list (Z * string)) (rx ry : list ring_record) :
  ring_rows self xs = Ok rx -> ring_rows self ys = Ok ry ->
  ring_rows self (xs ++ ys) = Ok (rx ++ ry).
Proof.
  revert rx. induction xs as [|[s c] xs IH]; intros rx Hx Hy.
  - injection Hx as <-. exact Hy.
  - cbn [app ring_rows] in *.
    destruct (astype_int (extract_digits c)) as [label|e]; cbn [bind] in *;
      [|discriminate].
    destruct (ring_rows self xs) as [rest|e]; cbn [bind] in *; [|discriminate].
    injection Hx as <-. now rewrite (IH rest eq_refl Hy).
Qed.

Lemma ring_rows_eq (ids : list Z) (radii : list Z) :
  (forall r, In r radii -> (Z.abs r < int64_bound)%Z) ->
  ring_rows self (melt ids (map (fmt "clring") radii))
  = Ok (ring_table self ids radii).
Proof.
  unfold melt, ring_table. induction radii as [|r radii IH]; intros Hb;
    [reflexivity|].
  cbn [map flat_map]. apply ring_rows_app; [|apply IH; intros; apply Hb; now right].
  clear IH. induction ids as [|s ids IHs]; [reflexivity|].
  cbn [map ring_rows]. rewrite astype_int_clring by (apply Hb; now left).
  rewrite IHs. reflexivity.
Qed.

(** One label that does not fit makes the conversion of the whole column
    raise. *)
Lemma ring_rows_raises (melted : list (Z * string)) (s : Z) (c : string) :
  In (s, c) melted -> raises (astype_int (extract_digits c)) ->
  raises (ring_rows self melted).
Proof.
  induction melted as [|[s0 c0] melted IH]; intros Hin Hr; [destruct Hin|].
  cbn [ring_rows].
  destruct (astype_int (extract_digits c0)) as [label|e] eqn:E; cbn [bind];
    [|now exists e].
  destruct Hin as [[= -> ->]|Hin].
  - destruct Hr as [e He]. congruence.
  - destruct (IH Hin Hr) as [e He]. rewrite He. now exists e.
Qed.

Lemma ring_rows_overflow (radii : list Z) (r : Z) :
  In r radii -> (int64_bound <= Z.abs r)%Z ->
  raises (ring_rows self (melt sites (map (fmt "clring") radii))).
Proof.
  intros Hr Hb. generalize some_site.
  destruct sites as [|s ids]; intros Hne; [now contradiction Hne|].
  apply ring_rows_raises with (s := s) (c := fmt "clring" r).
  - unfold melt. apply in_flat_map. exists (fmt "clring" r).
    split; [now apply in_map|]. now left.
  - rewrite astype_int_overflow by exact Hb. now exists OverflowError.
Qed.

End RingFacts.

Section NoSites.

Import Columns.
Variable self : Capacity.

(** Without a cell site the ring part raises: the first iteration of the
    loop cannot assign the clipped ring, an empty range leaves no maximal
    buffer, and a zero step is refused by [range]. *)
Lemma rings_gdf_no_sites : raises (rings_gdf self []).
Proof.
  unfold rings_gdf, py_range.
  destruct (radius_step self =? 0)%Z; [now exists ValueError|]. cbn [bind].
  destruct (Z.to_nat (range_length (min_radius self) (max_radius self + 1)
                        (radius_step self))) as [|n].
  - cbn [seq map ring_loop bind].
    rewrite has_column_not_In; [now exists KeyError|].
    apply radius_columns_not_base with (r := max_radius self).
    unfold radius_columns. cbn [In]. auto.
  - cbn [seq map ring_loop]. unfold ring_step. cbv zeta. cbn [apply_rows].
    destruct (_ =? min_radius self)%Z; [cbn [bind]; now exists ValueError|].
    destruct (has_column _ _); cbn [bind];
      [now exists ValueError|now exists KeyError].
Qed.

End NoSites.

Section RangeFacts.

Import Columns.
Variable self : Capacity.

Lemma py_range_radii :
  radius_step self <> 0%Z ->
  py_range (min_radius self) (max_radius self + 1) (radius_step self)
  = Ok (map (nth_radius self)
          (seq 0 (Z.to_nat (range_length (min_radius self) (max_radius self + 1)
                              (radius_step self))))).
Proof.
  intros Hs. unfold py_range.
  destruct (Z.eqb_spec (radius_step self) 0) as [E|_]; [contradiction|reflexivity].
Qed.

Lemma range_length_even :
  evenly_divided self ->
  Z.to_nat (range_length (min_radius self) (max_radius self + 1) (radius_step self))
  = S (steps self).
Proof.
  intros (Hs & Hle & _). unfold range_length, steps.
  destruct (Z.ltb_spec 0 (radius_step self)) as [_|N]; [|lia].
  destruct (Z.ltb_spec (min_radius self) (max_radius self + 1)) as [_|N]; [|lia].
  replace (max_radius self + 1 - min_radius self - 1)%Z
    with (max_radius self - min_radius self)%Z by lia.
  assert (0 <= (max_radius self - min_radius self) / radius_step self)%Z
    by (apply Z.div_pos; lia).
  lia.
Qed.

Lemma last_radius : evenly_divided self -> nth_radius self (steps self) = max_radius self.
Proof.
  intros (Hs & Hle & Hmod). unfold nth_radius, steps.
  assert (H0 : (0 <= (max_radius self - min_radius self) / radius_step self)%Z)
    by (apply Z.div_pos; lia).
  rewrite Z2Nat.id by exact H0.
  pose proof (Z.div_mod (max_radius self - min_radius self) (radius_step self)
                ltac:(lia)) as Hdm.
  rewrite Hmod in Hdm. lia.
Qed.

(** [max_radius] is one of the radii of the loop exactly when the range
    is evenly divided. *)
Lemma max_radius_In :
  radius_step self <> 0%Z ->
  In (max_radius self)
     (map (nth_radius self)
        (seq 0 (Z.to_nat (range_length (min_radius self) (max_radius self + 1)
                            (radius_step self)))))
  <-> evenly_divided self.
Proof.
  intros Hs. split.
  - intros H. apply in_map_iff in H as (k & Hk & Hin).
    apply in_seq in Hin as [_ Hlt]. cbn in Hlt.
    unfold nth_radius in Hk. unfold range_length in Hlt. unfold evenly_divided.
    destruct (Z.ltb_spec 0 (radius_step self)) as [Hpos|Hneg].
    + destruct (Z.ltb_spec (min_radius self) (max_radius self + 1)) as [Hlt'|N];
        [|cbn in Hlt; lia].
      repeat split; try lia.
      replace (max_radius self - min_radius self)%Z
        with (Z.of_nat k * radius_step self)%Z by lia.
      apply Z.mod_mul. lia.
    + exfalso.
      destruct (Z.ltb_spec (max_radius self + 1) (min_radius self)) as [Hlt'|N];
        [|cbn in Hlt; lia].
      set (m := (- radius_step self)%Z) in *.
      assert (Hm : (0 < m)%Z) by (unfold m; lia).
      set (a := (min_radius self - (max_radius self + 1) - 1)%Z) in *.
      assert (Ha : (0 <= a)%Z) by (unfold a; lia).
      assert (Hq : (0 <= a / m)%Z) by (apply Z.div_pos; lia).
      assert (Hk' : (Z.of_nat k <= a / m)%Z) by lia.
      pose proof (Z.mul_div_le a m Hm) as Hmul.
      assert (Hkm : (Z.of_nat k * m <= a)%Z) by nia.
      unfold m, a in Hkm. lia.
  - intros Hev. rewrite (range_length_even Hev). apply in_map_iff.
    exists (steps self). split; [now apply last_radius|].
    apply in_seq. lia.
Qed.


(** The ring part of [calculate_buffer_areas] on the radii of the loop,
    with at least one cell site: it raises a [KeyError] when [max_radius]
    is not one of them, and converts the labels otherwise. *)
Lemma rings_gdf_radii (sites : list Z) :
  sites <> [] ->
  radius_step self <> 0%Z ->
  let radii := map (nth_radius self)
                 (seq 0 (Z.to_nat (range_length (min_radius self) (max_radius self + 1)
                                     (radius_step self)))) in
  rings_gdf self sites
  = if has_column (fmt "clbuffer" (max_radius self))
         (base_columns ++ flat_map radius_columns radii)
    then ring_rows self (melt sites (map (fmt "clring") radii))
    else Raise KeyError.
Proof.
  intros Hne Hs radii. unfold rings_gdf. rewrite py_range_radii by exact Hs.
  cbn [bind]. fold radii. unfold radii at 1.
  rewrite ring_loop_seq.
  - cbn [bind]. fold radii.
    destruct (has_column _ _); cbn [bind]; [|reflexivity].
    rewrite filter_app, filter_clring.
    replace (filter (startswith "clring") base_columns) with (@nil string)
      by reflexivity.
    reflexivity.
  - exact Hne.
  - exact Hs.
  - now left.
  - intros k name _. apply radius_columns_not_base.
Qed.

(** On an evenly divided range every radius lies between [min_radius] and
    [max_radius]. *)
Lemma arithmetic_radii_bounds (r : Z) :
  evenly_divided self -> In r (arithmetic_radii self) ->
  (min_radius self <= r <= max_radius self)%Z.
Proof.
  intros Hev Hr. pose proof (last_radius Hev) as Hlast.
  destruct Hev as (Hpos & Hle & Hmod).
  unfold arithmetic_radii in Hr. apply in_map_iff in Hr as (k & <- & Hk).
  apply in_seq in Hk. unfold nth_radius in *. nia.
Qed.

Lemma arithmetic_radii_fit (r : Z) :
  evenly_divided self -> int64_labels self -> In r (arithmetic_radii self) ->
  (Z.abs r < int64_bound)%Z.
Proof.
  intros Hev [Hlo Hhi] Hr. pose proof (arithmetic_radii_bounds Hev Hr). lia.
Qed.

(** On an evenly divided range, with at least one cell site and labels
    that fit 64 bits, the ring part returns the table of the arithmetic
    radii. *)
Lemma rings_gdf_returns (sites : list Z) :
  evenly_divided self -> sites <> [] -> int64_labels self ->
  rings_gdf self sites = Ok (ring_table self sites (arithmetic_radii self)).
Proof.
  intros Hev Hne Hfit.
  assert (Hs : radius_step self <> 0%Z) by (destruct Hev; lia).
  rewrite (rings_gdf_radii Hne Hs).
  replace (has_column _ _) with true.
  - rewrite (range_length_even Hev). apply ring_rows_eq.
    intros r Hr. now apply arithmetic_radii_fit.
  - symmetry. apply has_column_In, clbuffer_In. now apply max_radius_In.
Qed.

(** What the ring part returned. *)
Lemma rings_gdf_ok_inv (sites : list Z) (rings : list ring_record) :
  rings_gdf self sites = Ok rings ->
  evenly_divided self /\ sites <> [] /\ int64_labels self /\
  rings = ring_table self sites (arithmetic_radii self).
Proof.
  intros H.
  assert (Hev : evenly_divided self).
  { destruct sites as [|s ids] eqn:Es.
    - destruct (rings_gdf_no_sites self) as [e He]. congruence.
    - destruct (Z.eq_dec (radius_step self) 0) as [E|Hs].
      + unfold rings_gdf, py_range in H. rewrite E in H. cbn in H. discriminate.
      + rewrite (@rings_gdf_radii (s :: ids) ltac:(discriminate) Hs) in H.
        destruct (has_column _ _) eqn:Hc; [|discriminate].
        apply has_column_In, clbuffer_In in Hc. now apply max_radius_In in Hc. }
  assert (Hne : sites <> []).
  { intros ->. destruct (rings_gdf_no_sites self) as [e He]. congruence. }
  assert (Hfit : int64_labels self).
  { assert (Hs : radius_step self <> 0%Z) by (destruct Hev; lia).
    rewrite (rings_gdf_radii Hne Hs) in H.
    rewrite (range_length_even Hev) in H. fold (arithmetic_radii self) in H.
    destruct (has_column _ _); [|discriminate].
    assert (Hall : forall r, In r (arithmetic_radii self) ->
                     (Z.abs r < int64_bound)%Z).
    { intros r Hr. destruct (Z_lt_dec (Z.abs r) int64_bound) as [Hlt|Hge];
        [exact Hlt|].
      destruct (@ring_rows_overflow self sites Hne (arithmetic_radii self) r Hr
                  ltac:(lia)) as [e He].
      congruence. }
    assert (Hmin : In (min_radius self) (arithmetic_radii self)).
    { unfold arithmetic_radii. apply in_map_iff. exists 0%nat.
      split; [unfold nth_radius; cbn; lia|apply in_seq; lia]. }
    assert (Hmax : In (max_radius self) (arithmetic_radii self)).
    { unfold arithmetic_radii. apply in_map_iff. exists (steps self).
      split; [now apply last_radius|apply in_seq; lia]. }
    apply Hall in Hmin, Hmax. unfold int64_labels. lia. }
  repeat match goal with |- _ /\ _ => split end; try assumption.
  rewrite (rings_gdf_returns Hev Hne Hfit) in H. now injection H.
Qed.

Lemma evenly_divided_dec : evenly_divided self \/ ~ evenly_divided self.
Proof.
  unfold evenly_divided.
  destruct (Z_lt_dec 0 (radius_step self)); [|right; tauto].
  destruct (Z_le_dec (min_radius self) (max_radius self)); [|right; tauto].
  destruct (Z.eq_dec ((max_radius self - min_radius self) mod radius_step self) 0);
    [left; tauto|right; tauto].
Qed.

(** When the ring part raises. *)
Lemma rings_gdf_raises_iff (sites : list Z) :
  raises (rings_gdf self sites)
  <-> ~ evenly_divided self \/ sites = [] \/ ~ int64_labels self.
Proof.
  assert (Hnev : ~ evenly_divided self -> raises (rings_gdf self sites)).
  { intros Hn. destruct sites as [|s ids] eqn:Es; [apply rings_gdf_no_sites|].
    destruct (Z.eq_dec (radius_step self) 0) as [E|Hs].
    - exists ValueError. unfold rings_gdf, py_range. now rewrite E.
    - rewrite (@rings_gdf_radii (s :: ids) ltac:(discriminate) Hs).
      rewrite has_column_not_In; [now exists KeyError|].
      intros H. apply Hn. now apply clbuffer_In, max_radius_In in H. }
  split.
  - intros Hr. destruct sites as [|s ids] eqn:Es; [right; now left|].
    destruct evenly_divided_dec as [Hev|Hn]; [|now left].
    right. right. intros Hfit.
    rewrite (@rings_gdf_returns (s :: ids) Hev ltac:(discriminate) Hfit) in Hr.
    destruct Hr as [e He]. discriminate.
  - intros [Hn|[->|Hn]]; [now apply Hnev|apply rings_gdf_no_sites|].
    destruct sites as [|s ids] eqn:Es; [apply rings_gdf_no_sites|].
    destruct evenly_divided_dec as [Hev|Hn']; [|now apply Hnev].
    assert (Hs : radius_step self <> 0%Z) by (destruct Hev; lia).
    rewrite (@rings_gdf_radii (s :: ids) ltac:(discriminate) Hs).
    replace (has_column _ _) with true
      by (symmetry; apply has_column_In, clbuffer_In; now apply max_radius_In).
    rewrite (range_length_even Hev). fold (arithmetic_radii self).
    assert (Hmin : In (min_radius self) (arithmetic_radii self)).
    { unfold arithmetic_radii. apply in_map_iff. exists 0%nat.
      split; [unfold nth_radius; cbn; lia|apply in_seq; lia]. }
    assert (Hmax : In (max_radius self) (arithmetic_radii self)).
    { unfold arithmetic_radii. apply in_map_iff. exists (steps self).
      split; [now apply last_radius|apply in_seq; lia]. }
    unfold int64_labels in Hn.
    destruct (Z_lt_dec (- int64_bound) (min_radius self)) as [Hlo|Hlo].
    + apply ring_rows_overflow with (r := max_radius self);
        [discriminate|exact Hmax|lia].
    + apply ring_rows_overflow with (r := min_radius self);
        [discriminate|exact Hmin|lia].
Qed.



End RangeFacts.




(* ================================================================= *)
(** * [calculate_buffer_areas] returns *)

Section Returns.

Variable self : Capacity.
Variable perform_pair_analysis : Z -> Z -> float64 * option bool.
Variable within : poi -> Z -> bool.

Lemma joined_rows_nonempty (pois : list poi) (buffers : list Z) :
  pois <> [] -> drop_duplicates [] (sjoin_left within pois buffers) <> [].
Proof.
  destruct pois as [|p pois]; [congruence|]. intros _.
  unfold sjoin_left. cbn [flat_map].
  destruct (filter (within p) buffers) as [|s found]; cbn; discriminate.
Qed.

(** With an evenly divided radius range, labels that fit, at least one
    cell site and at least one point, [calculate_buffer_areas] returns its
    two tables. *)
Lemma calculate_buffer_areas_returns (visibility : option (list visibility_pair))
    (pois : list poi) (sites : list Z) (cellsites_rbu : list site_capacity) :
  evenly_divided self -> int64_labels self -> sites <> [] -> pois <> [] ->
  exists rings results,
    value (calculate_buffer_areas self perform_pair_analysis within visibility pois
             sites cellsites_rbu) = Ok (rings, results).
Proof.
  intros Hev Hfit Hne Hpois. unfold calculate_buffer_areas.
  destruct pois as [|p pois']; [now contradiction Hpois|]. cbn [estimate_utm_crs].
  rewrite (rings_gdf_returns Hev Hne Hfit).
  destruct visibility as [table|]; cbn [visibility_analysis].
  - unfold value, tbind, tret. cbn [fst bind]. rewrite poi_level_eq. cbn [bind].
    now do 2 eexists.
  - unfold live_visibility. rewrite apply_visibility_eq.
    unfold value, tbind, tret. cbn [fst].
    pose proof (@joined_rows_nonempty (p :: pois') sites ltac:(discriminate)) as Hne'.
    destruct (drop_duplicates [] (sjoin_left within (p :: pois') sites)) as [|row rows];
      [congruence|].
    cbn [map bind]. rewrite poi_level_eq. cbn [bind]. now do 2 eexists.
Qed.

End Returns.

(* ================================================================= *)
(** * Further properties of the radio capacity formulas *)

Section LookupOutcome.

Import Np.
Variable self : Capacity.

Lemma avrbpdsch_inv (av : float64) :
  avrbpdsch self = Ok av -> av = avrbpdsch_value self /\ nonzero (nrb self) = true.
Proof.
  unfold avrbpdsch. destruct (py_truediv _ _) as [q|e] eqn:E; cbn [bind]; [|discriminate].
  apply py_truediv_inv in E as [-> Hnz]. intros [= <-]. now split.
Qed.

Lemma avrbpdsch_raises :
  nonzero (nrb self) = false -> avrbpdsch self = Raise ZeroDivisionError.
Proof.
  intros H. unfold avrbpdsch. now rewrite py_truediv_zero.
Qed.

(** What [poiddatareq] and [brrbpopcd] return once the two things that can
    raise in their bodies have returned. *)
Lemma poiddatareq_of_ok (d dl : list float64) (av : float64) :
  get_dl_bitrate self d = Ok dl -> avrbpdsch self = Ok av ->
  poiddatareq self d =
  map (fun x => if (x <=? of_Z (max_radius self))%float
                then required_rb self x else PInf) d.
Proof.
  intros Hdl Hav. unfold poiddatareq, poiddatareq_body.
  rewrite Hdl, Hav. apply get_dl_bitrate_inv in Hdl. apply avrbpdsch_inv in Hav as [-> _].
  subst dl. cbn [bind].
  unfold compress. rewrite !length_map, Nat.eqb_refl. cbn [bind].
  rewrite place_exact.
  - cbn [bind]. rewrite place_scalar.
    + unfold full.
      rewrite (scatter_select_putmask
                 (fun b => (dlthtarg self * of_Z 1024 / (b / avrbpdsch_value self))%float)
                 (fun x => (x <=? of_Z (max_radius self))%float)
                 (weighted_bitrate self) NaN PInf d).
      reflexivity.
    + unfold invert. rewrite scatter_length. unfold full.
      now rewrite !length_map, repeat_length.
  - unfold full. now rewrite length_map, repeat_length.
  - rewrite length_map. apply count_true_select. now rewrite !length_map.
Qed.

Lemma brrbpopcd_of_ok (d dl : list float64) (av : float64) :
  get_dl_bitrate self d = Ok dl -> avrbpdsch self = Ok av ->
  brrbpopcd self d = map (bitrate_per_rb self) d.
Proof.
  intros Hdl Hav. unfold brrbpopcd. rewrite Hdl, Hav.
  apply get_dl_bitrate_inv in Hdl. apply avrbpdsch_inv in Hav as [-> _]. subst dl.
  cbn [bind]. now rewrite map_map.
Qed.

(** The two functions run the same lookup: either both hold their formula
    at every position, or both hold not-a-number at every position. *)
Lemma lookup_outcome (d : list float64) :
  (poiddatareq self d =
     map (fun x => if (x <=? of_Z (max_radius self))%float
                   then required_rb self x else PInf) d
   /\ brrbpopcd self d = map (bitrate_per_rb self) d)
  \/ (poiddatareq self d = repeat NaN (length d)
      /\ brrbpopcd self d = repeat NaN (length d)).
Proof.
  destruct (get_dl_bitrate self d) as [dl|e] eqn:Hdl.
  - destruct (avrbpdsch self) as [av|e] eqn:Hav.
    + left. split; [now apply poiddatareq_of_ok with dl av
                   |now apply brrbpopcd_of_ok with dl av].
    + right. unfold poiddatareq, poiddatareq_body, brrbpopcd. rewrite Hdl, Hav.
      cbn [bind]. unfold compress.
      apply get_dl_bitrate_inv in Hdl. subst dl.
      rewrite !length_map, Nat.eqb_refl. cbn [bind]. now split.
  - right. unfold poiddatareq, poiddatareq_body, brrbpopcd. rewrite Hdl. now split.
Qed.

End LookupOutcome.

(** X1: [brrbpopcd] never raises and returns one value per input distance.
    On a valid configuration it returns, at every position, the weighted
    bitrate divided by [avrbpdsch] -- whatever [max_radius] is -- and when
    the number of resource blocks is zero it returns not-a-number at every
    position instead of raising. *)
Theorem brrbpopcd_outcome (self : Capacity) (d : list float64) :
  length (brrbpopcd self d) = length d /\
  (config_ok self = true -> brrbpopcd self d = map (bitrate_per_rb self) d) /\
  (nonzero (nrb self) = false -> brrbpopcd self d = repeat NaN (length d)).
Proof.
  repeat match goal with |- _ /\ _ => split end.
  - destruct (lookup_outcome self d) as [[_ E]|[_ E]]; rewrite E;
      [apply length_map|apply repeat_length].
  - intros Hok. destruct (config_ok_inv self Hok) as (Hbw & Hnrb & Ht).
    eapply brrbpopcd_of_ok; [now apply get_dl_bitrate_eq|now apply avrbpdsch_eq].
  - intros Hz. unfold brrbpopcd. rewrite (avrbpdsch_raises self Hz).
    now destruct (get_dl_bitrate self d).
Qed.

Lemma brrbpopcd_outcome_witness :
  config_ok (scenario 2000 1000 1000) = true /\
  brrbpopcd (scenario 2000 1000 1000) [of_Z 500; of_Z 2500; of_Z 20000]
  = map (bitrate_per_rb (scenario 2000 1000 1000)) [of_Z 500; of_Z 2500; of_Z 20000].
Proof.
  split; [reflexivity|].
  apply (proj1 (proj2 (brrbpopcd_outcome (scenario 2000 1000 1000)
                         [of_Z 500; of_Z 2500; of_Z 20000]))).
  reflexivity.
Defined.

(** X2: at every position whose distance is within [max_radius],
    [poiddatareq] is the throughput target in kbps divided by the value of
    [brrbpopcd] at the same position, on every configuration: when the
    lookup raises both hold not-a-number. *)
Theorem poiddatareq_from_brrbpopcd (self : Capacity) (d : list float64)
    (i : nat) (x : float64) :
  nth_error d i = Some x ->
  (x <=? of_Z (max_radius self))%float = true ->
  exists b,
    nth_error (brrbpopcd self d) i = Some b /\
    nth_error (poiddatareq self d) i = Some (dlthtarg self * of_Z 1024 / b)%float.
Proof.
  intros Hx Hle. destruct (lookup_outcome self d) as [[Ep Eb]|[Ep Eb]];
    rewrite Ep, Eb.
  - exists (bitrate_per_rb self x). rewrite !nth_error_map, Hx. cbn [option_map].
    now rewrite Hle.
  - exists NaN.
    assert (Hlt : (i < length d)%nat) by (apply nth_error_Some; congruence).
    rewrite (nth_error_repeat _ Hlt). split; [reflexivity|].
    now rewrite div_nan_r.
Qed.

Lemma poiddatareq_from_brrbpopcd_witness :
  exists b,
    nth_error (brrbpopcd (scenario 2000 1000 1000) [of_Z 500]) 0 = Some b /\
    nth_error (poiddatareq (scenario 2000 1000 1000) [of_Z 500]) 0
    = Some (dlthtarg (scenario 2000 1000 1000) * of_Z 1024 / b)%float.
Proof.
  apply (@poiddatareq_from_brrbpopcd (scenario 2000 1000 1000) [of_Z 500] 0 (of_Z 500));
    reflexivity.
Defined.

(** X3: on a valid configuration the three lookups work position by
    position: the result for two batches put end to end is the two results
    put end to end. *)
Theorem batches_are_independent (self : Capacity) (d1 d2 : list float64) :
  config_ok self = true ->
  poiddatareq self (d1 ++ d2) = poiddatareq self d1 ++ poiddatareq self d2 /\
  brrbpopcd self (d1 ++ d2) = brrbpopcd self d1 ++ brrbpopcd self d2 /\
  exists o1 o2,
    get_dl_bitrate self d1 = Ok o1 /\ get_dl_bitrate self d2 = Ok o2 /\
    get_dl_bitrate self (d1 ++ d2) = Ok (o1 ++ o2).
Proof.
  intros Hok. destruct (config_ok_inv self Hok) as (Hbw & Hnrb & Ht).
  repeat match goal with |- _ /\ _ => split end.
  - rewrite !poiddatareq_eq by assumption. apply map_app.
  - assert (E : forall d, brrbpopcd self d = map (bitrate_per_rb self) d).
    { intros d. eapply brrbpopcd_of_ok;
        [now apply get_dl_bitrate_eq|now apply avrbpdsch_eq]. }
    rewrite !E. apply map_app.
  - do 2 eexists. rewrite !get_dl_bitrate_eq by assumption.
    repeat split. now rewrite map_app.
Qed.

Lemma batches_are_independent_witness :
  poiddatareq (scenario 2000 1000 1000) ([of_Z 500] ++ [of_Z 2500; NaN])
  = poiddatareq (scenario 2000 1000 1000) [of_Z 500]
    ++ poiddatareq (scenario 2000 1000 1000) [of_Z 2500; NaN].
Proof.
  apply (@batches_are_independent (scenario 2000 1000 1000) [of_Z 500] [of_Z 2500; NaN]).
  reflexivity.
Defined.

(** The hypothesis matters: with fewer bitrates than breakpoints one
    distance whose breakpoint has no bitrate turns the results of the whole
    batch into not-a-number. *)
Example one_bad_distance_spoils_the_batch :
  isnan (nth 0 (poiddatareq short_bitrates [of_Z 500]) NaN) = false /\
  poiddatareq short_bitrates [of_Z 500; of_Z 1500] = [NaN; NaN].
Proof. split; reflexivity. Qed.

Section NeverNegative.

Local Open Scope float_scope.

Lemma Qcinv_nonneg (q : Qc) : (0 < q)%Qc -> (0 <= / q)%Qc.
Proof.
  intros H. apply Qclt_le_weak. unfold Qclt, Qcinv. cbn [this Q2Qc].
  rewrite !Qred_correct. now apply Qinv_lt_0_compat.
Qed.

Lemma Qcdiv_nonneg (a b : Qc) : (0 <= a)%Qc -> (0 < b)%Qc -> (0 <= a / b)%Qc.
Proof.
  intros Ha Hb. unfold Qcdiv. replace 0%Qc with (0 * / b)%Qc by ring.
  apply Qcmult_le_compat_r; [exact Ha|now apply Qcinv_nonneg].
Qed.

Lemma Qc_eq_bool_false (q : Qc) : q <> 0%Qc -> Qc_eq_bool q 0 = false.
Proof.
  intros H. destruct (Qc_eq_bool q 0) eqn:E; [|reflexivity].
  now apply Qc_eq_bool_correct in E.
Qed.

Lemma is_nonneg_inv (x : float64) :
  is_nonneg x = true -> exists q, x = Fin q /\ (0 <= q)%Qc.
Proof.
  unfold is_nonneg. intros H. apply andb_true_iff in H as [Hf Hle].
  destruct x as [| | |q]; try discriminate. exists q. split; [reflexivity|].
  now apply leb_Fin.
Qed.

Lemma is_positive_inv (x : float64) :
  is_positive x = true -> exists q, x = Fin q /\ (0 < q)%Qc.
Proof.
  unfold is_positive. intros H. apply andb_true_iff in H as [Hf Hlt].
  destruct x as [| | |q]; try discriminate. exists q. split; [reflexivity|].
  now apply ltb_Fin.
Qed.

Lemma bitrate_at_nan_or_In (ds bs : list float64) (d : float64) :
  bitrate_at ds bs d = NaN \/ In (bitrate_at ds bs d) bs.
Proof.
  revert bs. induction ds as [|x ds IH]; intros bs; [now left|].
  destruct bs as [|b bs]; [now left|]. cbn [bitrate_at].
  destruct (x >=? d).
  - right. now left.
  - destruct (IH bs) as [H|H]; [now left|right; now right].
Qed.

Lemma mul_nan_or_nonneg (x : float64) (w : Qc) :
  nan_or_nonneg x -> (0 <= w)%Qc -> nan_or_nonneg (x * Fin w).
Proof.
  intros [->|(q & -> & Hq)] Hw; [now left|]. right. cbn [mul].
  eexists. split; [reflexivity|].
  replace 0%Qc with (0 * w)%Qc by ring. now apply Qcmult_le_compat_r.
Qed.

Lemma add_nan_or_nonneg (x y : float64) :
  nan_or_nonneg x -> nan_or_nonneg y -> nan_or_nonneg (x + y).
Proof.
  intros [->|(a & -> & Ha)] [->|(b & -> & Hb)]; try (now left).
  right. cbn [add]. eexists. split; [reflexivity|].
  replace 0%Qc with (0 + 0)%Qc by ring. now apply Qcplus_le_compat.
Qed.

Lemma div_pos_nan_or_nonneg (x : float64) (a : Qc) :
  nan_or_nonneg x -> (0 < a)%Qc -> nan_or_nonneg (x / Fin a).
Proof.
  intros [->|(q & -> & Hq)] Ha; [now left|]. right. cbn [div].
  rewrite Qc_eq_bool_false by (intros E; subst a; now apply Qclt_not_eq in Ha).
  eexists. split; [reflexivity|]. now apply Qcdiv_nonneg.
Qed.

(** A non-negative target divided by a bitrate that is not negative is
    never negative: it is not-a-number, positive infinity, or a finite
    number that is not negative. *)
Lemma div_never_negative (t : Qc) (y : float64) :
  (0 <= t)%Qc -> nan_or_nonneg y -> (Fin t / y <? zero) = false.
Proof.
  intros Ht [->|(q & -> & Hq)]; [reflexivity|]. cbn [div].
  destruct (Qc_eq_bool q 0) eqn:E.
  - destruct (t ?= 0)%Qc eqn:C; try reflexivity.
    apply Qclt_alt in C. now apply Qcle_not_lt in Ht.
  - assert (Hpos : (0 < q)%Qc).
    { apply Qcle_lt_or_eq in Hq as [H|H]; [exact H|].
      subst q. unfold Qc_eq_bool in E. now destruct (Qc_eq_dec 0 0). }
    destruct (Fin (t / q) <? zero) eqn:L; [|reflexivity].
    apply ltb_Fin in L. pose proof (Qcdiv_nonneg Ht Hpos) as H.
    now apply Qcle_not_lt in H.
Qed.

Variable self : Capacity.

Lemma band_value_nan_or_nonneg (b : band) (d : float64) :
  bitrates_nonneg self = true -> nan_or_nonneg (band_value self b d).
Proof.
  intros H. apply (forallb_bands _ b) in H. unfold band_value.
  destruct (bitrate_at_nan_or_In (bwdistance_km self b) (bwdlachievbr self b)
              (d / of_Z 1000)) as [E|Hin]; [now left|].
  right. rewrite forallb_forall in H. now apply is_nonneg_inv, H.
Qed.

Lemma weighted_bitrate_nan_or_nonneg (d : float64) :
  shares_ok self = true -> bitrates_nonneg self = true ->
  nan_or_nonneg (weighted_bitrate self d).
Proof.
  intros Hs Hb. unfold weighted_bitrate.
  destruct (share_nonneg self L850 Hs) as (w0 & E0 & P0).
  destruct (share_nonneg self L1800 Hs) as (w1 & E1 & P1).
  destruct (share_nonneg self L2600 Hs) as (w2 & E2 & P2).
  cbn [band_bw] in E0, E1, E2. rewrite E0, E1, E2.
  repeat apply add_nan_or_nonneg;
    try (apply mul_nan_or_nonneg; [now apply band_value_nan_or_nonneg|assumption]).
  right. exists 0%Qc. split; [reflexivity|apply Qcle_refl].
Qed.

End NeverNegative.

Lemma map_all_false {A : Type} (f : A -> bool) (xs : list A) :
  (forall x, In x xs -> f x = false) -> map f xs = repeat false (length xs).
Proof.
  induction xs as [|x xs IH]; intros H; [reflexivity|].
  cbn. rewrite (H x (or_introl eq_refl)), IH; [reflexivity|].
  intros y Hy. apply H. now right.
Qed.

(** X4: with bandwidths and bitrates that are not negative, a positive
    [avrbpdsch] and a throughput target that is not negative, no value
    returned by [poiddatareq] is negative (each is a finite number that is
    not negative, positive infinity or not-a-number); hence an available
    capacity of zero never passes [sufcapch] against any of them. *)
Theorem poiddatareq_never_negative (self : Capacity) (d : list float64) :
  shares_ok self = true ->
  bitrates_nonneg self = true ->
  is_positive (avrbpdsch_value self) = true ->
  is_nonneg (dlthtarg self) = true ->
  (forall i r, nth_error (poiddatareq self d) i = Some r -> (r <? zero)%float = false) /\
  sufcapch [zero] (poiddatareq self d) = Ok (repeat false (length d)).
Proof.
  intros Hs Hb Hav Ht.
  assert (Hall : forall i r, nth_error (poiddatareq self d) i = Some r ->
                             (r <? zero)%float = false).
  { intros i r Hr. destruct (poiddatareq_cases self d) as [E|E]; rewrite E in Hr.
    - rewrite nth_error_map in Hr. destruct (nth_error d i) as [x|]; [|discriminate].
      cbn [option_map] in Hr. injection Hr as <-.
      destruct (x <=? of_Z (max_radius self))%float; [|reflexivity].
      unfold required_rb.
      destruct (is_nonneg_inv _ Ht) as (t & -> & Pt).
      destruct (is_positive_inv _ Hav) as (a & -> & Pa).
      cbn [mul of_Z]. apply div_never_negative.
      + replace 0%Qc with (0 * Q2Qc (inject_Z 1024))%Qc by ring.
        apply Qcmult_le_compat_r; [exact Pt|]. now apply leb_Fin.
      + apply div_pos_nan_or_nonneg; [|exact Pa].
        now apply weighted_bitrate_nan_or_nonneg.
    - apply nth_error_In, repeat_spec in Hr. now subst r. }
  split; [exact Hall|].
  unfold sufcapch. cbn [length Nat.eqb negb andb]. rewrite broadcast2_scalar_l.
  f_equal. rewrite <- (poiddatareq_length self d).
  apply map_all_false. intros r Hr. apply In_nth_error in Hr as [i Hi].
  unfold gtb. now apply (Hall i).
Qed.

Lemma poiddatareq_never_negative_witness :
  sufcapch [zero] (poiddatareq (scenario 2000 1000 1000) [of_Z 500; of_Z 2500])
  = Ok (repeat false 2).
Proof.
  apply (@poiddatareq_never_negative (scenario 2000 1000 1000) [of_Z 500; of_Z 2500]);
    reflexivity.
Defined.

(* ================================================================= *)
(** * The demand formulas *)

Section DemandFacts.

Local Open Scope float_scope.

Lemma nonzero_of_Z (z : Z) : nonzero (of_Z z) = negb (z =? 0)%Z.
Proof.
  unfold nonzero, of_Z. destruct (Z.eqb_spec z 0) as [->|Hz]; [reflexivity|].
  cbn [negb]. apply negb_true_iff, Qc_eq_bool_false.
  intros E. apply (f_equal this) in E. cbn [this Q2Qc] in E.
  assert (H : Qred (inject_Z z) == Qred 0) by now rewrite E.
  rewrite !Qred_correct in H. unfold Qeq in H. cbn in H. lia.
Qed.

Variable demand : Demand.

Lemma div_Fin (a b : Qc) :
  Qc_eq_bool b 0 = false -> Fin a / Fin b = Fin (a / b).
Proof. intros H. cbn [div]. now rewrite H. Qed.

Lemma Qc_eq_bool_of_Z (z : Z) : z <> 0%Z -> Qc_eq_bool (Q2Qc (inject_Z z)) 0 = false.
Proof.
  intros Hz. pose proof (nonzero_of_Z z) as H. unfold nonzero, of_Z in H.
  apply negb_true_iff. rewrite H. now apply negb_true_iff, Z.eqb_neq.
Qed.

Lemma avubrnonbh_finite (a n : Qc) :
  nbhours demand <> 0%Z ->
  nonbhu demand = Fin n ->
  avubrnonbh demand (Fin a)
  = Ok (Fin (a * n * kbps_per_gb_month / Q2Qc (inject_Z (nbhours demand)))).
Proof.
  intros Hh Hn. unfold avubrnonbh.
  assert (Hnz : nonzero (of_Z (nbhours demand)) = true).
  { rewrite nonzero_of_Z. now apply negb_true_iff, Z.eqb_neq. }
  rewrite (py_truediv_ok (Fin a) days) by reflexivity. cbn [bind].
  rewrite py_truediv_ok by exact Hnz. cbn [bind].
  rewrite py_truediv_ok by reflexivity. cbn [bind].
  rewrite py_truediv_ok by reflexivity. cbn [bind].
  rewrite py_truediv_ok by reflexivity. cbn [bind].
  rewrite py_truediv_ok by reflexivity.
  rewrite Hn. unfold days, minperhour, secpermin, bitsingbyte, bitsinkbit, of_Z, of_Q.
  pose proof (Qc_eq_bool_of_Z Hh) as Hq.
  rewrite (div_Fin a) by reflexivity. rewrite div_Fin by exact Hq.
  cbn [mul]. rewrite div_Fin by reflexivity. rewrite div_Fin by reflexivity.
  rewrite div_Fin by reflexivity. cbn [mul]. rewrite div_Fin by reflexivity.
  do 2 f_equal. apply Qc_is_canon.
  assert (Hq' : ~ inject_Z (nbhours demand) == 0).
  { intros E. unfold Qeq in E. cbn in E. lia. }
  unfold kbps_per_gb_month, Qcdiv, Qcmult, Qcinv. cbn [this Q2Qc].
  rewrite !Qred_correct. field. exact Hq'.
Qed.

Lemma avubrnonbh_raises (u : float64) :
  raises (avubrnonbh demand u) <-> nbhours demand = 0%Z.
Proof.
  unfold avubrnonbh. rewrite (py_truediv_ok u days) by reflexivity. cbn [bind].
  destruct (Z.eq_dec (nbhours demand) 0) as [E|E].
  - rewrite py_truediv_zero by (rewrite nonzero_of_Z, E; reflexivity).
    cbn [bind]. split; [now intros _|]. intros _. now eexists.
  - rewrite py_truediv_ok
      by (rewrite nonzero_of_Z; now apply negb_true_iff, Z.eqb_neq).
    cbn [bind]. rewrite py_truediv_ok by reflexivity. cbn [bind].
    rewrite py_truediv_ok by reflexivity. cbn [bind].
    rewrite py_truediv_ok by reflexivity. cbn [bind].
    rewrite py_truediv_ok by reflexivity.
    split; [intros [e He]; discriminate|contradiction].
Qed.

Lemma upopbr_scalar_raises (a x : float64) :
  raises (upopbr demand a (Scalar x)) <-> sectors_per_site demand = 0%Z.
Proof.
  unfold upopbr. rewrite !py_truediv_ok by reflexivity. cbn [bind].
  destruct (Z.eq_dec (sectors_per_site demand) 0) as [E|E].
  - rewrite py_truediv_zero by (rewrite nonzero_of_Z, E; reflexivity).
    cbn [bind]. split; [now intros _|]. intros _. now eexists.
  - rewrite py_truediv_ok
      by (rewrite nonzero_of_Z; now apply negb_true_iff, Z.eqb_neq).
    cbn [bind]. split; [intros [e He]; discriminate|contradiction].
Qed.

Lemma upopbr_array (a : float64) (xs : list float64) :
  upopbr demand a (Array xs)
  = Ok (Array (map (fun x => a * x * (mbb_subscr demand / of_Z 100)
                             * (oppopshare demand / of_Z 100)
                             / of_Z (sectors_per_site demand)) xs)).
Proof. unfold upopbr. now rewrite !py_truediv_ok by reflexivity. Qed.

Lemma upopbr_scalar (a x : float64) :
  sectors_per_site demand <> 0%Z ->
  upopbr demand a (Scalar x)
  = Ok (Scalar (a * x * (mbb_subscr demand / of_Z 100)
                * (oppopshare demand / of_Z 100)
                / of_Z (sectors_per_site demand))).
Proof.
  intros E. unfold upopbr. rewrite !py_truediv_ok by reflexivity. cbn [bind].
  now rewrite py_truediv_ok
    by (rewrite nonzero_of_Z; now apply negb_true_iff, Z.eqb_neq).
Qed.

End DemandFacts.

(** X5: for a monthly volume given as a Python number, [avubrnonbh]
    raises exactly when [nbhours] is zero, whatever the volume; otherwise,
    for a finite volume [a] in GB and a finite usage [n] in percent, the
    bitrate in kbps is [a * n * K / nbhours] with the constant
    [K = 8589934592 / (30.4 * 100 * 60 * 60 * 1000)]. *)
Theorem avubrnonbh_outcome (demand : Demand) :
  (forall u, raises (avubrnonbh demand u) <-> nbhours demand = 0%Z) /\
  (forall a n : Qc,
     nbhours demand <> 0%Z -> nonbhu demand = Fin n ->
     avubrnonbh demand (Fin a)
     = Ok (Fin (a * n * kbps_per_gb_month / Q2Qc (inject_Z (nbhours demand))))).
Proof.
  split.
  - intros u. apply avubrnonbh_raises.
  - intros a n. apply avubrnonbh_finite.
Qed.

Lemma avubrnonbh_outcome_witness :
  avubrnonbh demo_demand (Fin (Q2Qc 5))
  = Ok (Fin (Q2Qc 5 * Q2Qc 50 * kbps_per_gb_month / Q2Qc (inject_Z 10))).
Proof.
  apply (proj2 (avubrnonbh_outcome demo_demand) (Q2Qc 5) (Q2Qc 50)).
  - cbn. lia.
  - reflexivity.
Defined.

(** X6: with a Python number for the population [upopbr] raises exactly
    when [sectors_per_site] is zero; with an array it never raises and
    returns one value per element, and when [sectors_per_site] is not zero
    each of them is the value returned for that element alone. *)
Theorem upopbr_scalar_and_array (demand : Demand) (a : float64) :
  (forall x, raises (upopbr demand a (Scalar x)) <-> sectors_per_site demand = 0%Z) /\
  (forall xs, exists ys,
     upopbr demand a (Array xs) = Ok (Array ys) /\
     length ys = length xs /\
     (sectors_per_site demand <> 0%Z ->
      forall i x, nth_error xs i = Some x ->
        exists y, nth_error ys i = Some y /\
                  upopbr demand a (Scalar x) = Ok (Scalar y))).
Proof.
  split.
  - intros x. apply upopbr_scalar_raises.
  - intros xs. eexists. split; [apply upopbr_array|]. split; [apply length_map|].
    intros E i x Hx. eexists. split.
    + rewrite nth_error_map, Hx. reflexivity.
    + now apply upopbr_scalar.
Qed.

Lemma upopbr_scalar_and_array_witness :
  exists ys,
    upopbr demo_demand (of_Z 2) (Array [of_Z 100; of_Z 0]) = Ok (Array ys) /\
    length ys = 2%nat /\
    exists y, nth_error ys 0 = Some y /\
              upopbr demo_demand (of_Z 2) (Scalar (of_Z 100)) = Ok (Scalar y).
Proof.
  destruct (proj2 (upopbr_scalar_and_array demo_demand (of_Z 2)) [of_Z 100; of_Z 0])
    as (ys & E & L & H).
  exists ys. split; [exact E|]. split; [exact L|].
  apply (H ltac:(cbn; lia) 0%nat (of_Z 100)). reflexivity.
Defined.

(* ================================================================= *)
(** * [capacity_checker] *)

Section CheckerFacts.

Import Np.
Local Open Scope float_scope.

Variable self : Capacity.
Variable demand : Demand.

Lemma brrbpopcd_length (d : list float64) : length (brrbpopcd self d) = length d.
Proof.
  destruct (lookup_outcome self d) as [[_ E]|[_ E]]; rewrite E;
    [apply length_map|apply repeat_length].
Qed.

Lemma broadcast2_In {A B : Type} (f : A -> A -> B) (xs ys : list A) (out : list B)
    (b : B) :
  broadcast2 f xs ys = Ok out -> In b out ->
  exists x y, In x xs /\ In y ys /\ b = f x y.
Proof.
  unfold broadcast2. destruct (length xs =? length ys)%nat.
  - intros [= <-] Hb. apply in_map_iff in Hb as ([x y] & <- & Hin).
    exists x, y. split; [now apply in_combine_l in Hin|].
    split; [now apply in_combine_r in Hin|reflexivity].
  - destruct xs as [|x [|x' xs]].
    + destruct ys as [|y [|y' ys]]; try discriminate.
      intros [= <-] [].
    + intros [= <-] Hb. apply in_map_iff in Hb as (y & <- & Hin).
      exists x, y. split; [now left|now split].
    + destruct ys as [|y [|y' ys]]; try discriminate.
      intros [= <-] Hb.
      change (In b (map (fun z => f z y) (x :: x' :: xs))) in Hb.
      apply in_map_iff in Hb as (z & <- & Hin).
      exists z, y. split; [exact Hin|]. split; [now left|reflexivity].
Qed.

Lemma first_scalar_length {B : Type} (op : float64 -> float64 -> B)
    (xs ys : list float64) (out : list B) :
  first_scalar op xs ys = Ok out -> length out = length ys.
Proof.
  unfold first_scalar.
  destruct (Nat.eqb_spec (length xs) 1) as [E1|N1].
  - destruct xs as [|x [|x' xs]]; try discriminate. cbn [negb andb].
    rewrite broadcast2_scalar_l. intros [= <-]. apply length_map.
  - destruct (Nat.eqb_spec (length xs) (length ys)) as [E2|N2]; cbn [negb andb];
      [|discriminate].
    rewrite broadcast2_same by assumption. intros [= <-].
    rewrite length_map, length_combine. lia.
Qed.

Lemma sufcapch_raises (xs ys : list float64) :
  raises (sufcapch xs ys) <->
  (length xs <> 1%nat /\ length ys <> 1%nat /\ length xs <> length ys).
Proof.
  unfold sufcapch.
  destruct (Nat.eqb_spec (length xs) 1) as [E1|N1]; cbn [negb andb].
  { destruct xs as [|x [|x' xs]]; try discriminate.
    rewrite broadcast2_scalar_l. split.
    - intros [e He]. discriminate.
    - intros [H _]. now contradiction H. }
  destruct (Nat.eqb_spec (length ys) 1) as [E2|N2]; cbn [negb andb].
  { destruct ys as [|y [|y' ys]]; try discriminate.
    rewrite broadcast2_scalar_r. split.
    - intros [e He]. discriminate.
    - intros (_ & H & _). now contradiction H. }
  destruct (Nat.eqb_spec (length xs) (length ys)) as [E3|N3]; cbn [negb].
  { rewrite broadcast2_same by assumption. split.
    - intros [e He]. discriminate.
    - intros (_ & _ & H). contradiction. }
  split; [now intros _|]. intros _. now exists ValueError.
Qed.

Lemma sufcapch_In (xs ys : list float64) (out : list bool) (b : bool) :
  sufcapch xs ys = Ok out -> In b out ->
  exists x y, In x xs /\ In y ys /\ b = (x >? y).
Proof.
  unfold sufcapch. destruct (_ && _); [discriminate|]. apply broadcast2_In.
Qed.

Lemma avrbpdsch_raise_inv (e : exn) :
  avrbpdsch self = Raise e -> nonzero (nrb self) = false.
Proof.
  intros H. destruct (nonzero (nrb self)) eqn:E; [|reflexivity].
  rewrite (avrbpdsch_eq self E) in H. discriminate.
Qed.

(** What [upopbr] does with either kind of population. *)
Lemma upopbr_cases (a : float64) (pop : operand) :
  (exists x, pop = Scalar x /\ sectors_per_site demand = 0%Z /\
             raises (upopbr demand a pop))
  \/ (exists up, upopbr demand a pop = Ok up /\
                 length (flatten up) = length (flatten pop) /\
                 ~ (exists x, pop = Scalar x /\ sectors_per_site demand = 0%Z)).
Proof.
  destruct pop as [x|xs].
  - destruct (Z.eq_dec (sectors_per_site demand) 0) as [E|E].
    + left. exists x. split; [reflexivity|]. split; [exact E|].
      now apply upopbr_scalar_raises.
    + right. eexists. split; [now apply upopbr_scalar|]. split; [reflexivity|].
      intros (y & _ & H). contradiction.
  - right. eexists. split; [apply upopbr_array|]. split; [apply length_map|].
    intros (y & H & _). discriminate.
Qed.

Lemma ltb_nan_l (x : float64) : (NaN <? x) = false.
Proof. reflexivity. Qed.

Lemma poiddatareq_beyond (d : list float64) (t : float64) :
  (forall x, In x d -> (x <=? of_Z (max_radius self)) = false) ->
  In t (poiddatareq self d) -> t = PInf \/ t = NaN.
Proof.
  intros Hall Ht. destruct (poiddatareq_cases self d) as [E|E]; rewrite E in Ht.
  - apply in_map_iff in Ht as (x & <- & Hx). rewrite (Hall x Hx). now left.
  - apply repeat_spec in Ht. now right.
Qed.

Lemma capacity_checker_capcheck (d popcd : list float64) (u : float64)
    (pop : operand) (r : checker_result) :
  capacity_checker self demand d popcd u pop = Ok r ->
  sufcapch (cc_cellavcap r) (poiddatareq self d) = Ok (cc_capcheck r).
Proof.
  unfold capacity_checker.
  destruct (avubrnonbh demand u) as [a|e]; cbn [bind]; [|discriminate].
  destruct (upopbr demand a pop) as [up|e]; cbn [bind]; [|discriminate].
  destruct (upoprbu _ _) as [ru|e]; cbn [bind]; [|discriminate].
  destruct (avrbpdsch self) as [av|e]; cbn [bind]; [|discriminate].
  destruct (cellavcap _ _) as [c|e]; cbn [bind]; [|discriminate].
  destruct (sufcapch _ _) as [cc|e] eqn:E; cbn [bind]; [|discriminate].
  intros [= <-]. exact E.
Qed.

End CheckerFacts.

(** X7: [capacity_checker] raises in exactly five situations: [nbhours]
    is zero; the population is a Python number and [sectors_per_site] is
    zero; the population is an array of a size that is neither one nor the
    number of population-centre distances; the number of resource blocks
    is zero; or the numbers of point distances and of population-centre
    distances differ and neither is one.  In particular a failed bitrate
    lookup never makes it raise. *)
Theorem capacity_checker_raises (self : Capacity) (demand : Demand)
    (d popcd : list float64) (u : float64) (pop : operand) :
  raises (capacity_checker self demand d popcd u pop)
  <-> checker_fails self demand d popcd pop.
Proof.
  unfold capacity_checker, checker_fails.
  pose proof (avubrnonbh_raises demand u) as Ha.
  destruct (avubrnonbh demand u) as [a|e] eqn:Ea; cbn [bind].
  2:{ split; [intros _; left; apply Ha; now eexists|intros _; now eexists]. }
  assert (Hh : nbhours demand <> 0%Z).
  { intros E. apply Ha in E. destruct E. discriminate. }
  clear Ha.
  destruct (upopbr_cases demand a pop) as [(x & -> & Hs & [e He])|(up & -> & Hlen & Hns)].
  { rewrite He. cbn [bind]. split; [|intros _; now eexists].
    intros _. right. left. now exists x. }
  cbn [bind].
  pose proof (first_scalar_raises div (flatten up) (brrbpopcd self popcd)) as Hu.
  rewrite brrbpopcd_length, Hlen in Hu.
  change (first_scalar div) with upoprbu in Hu.
  destruct (upoprbu (flatten up) (brrbpopcd self popcd)) as [ru|e] eqn:Eu; cbn [bind].
  2:{ split; [|intros _; now eexists].
      intros _. right. right. left. apply Hu. now eexists. }
  assert (Hsz : ~ (length (flatten pop) <> 1%nat
                   /\ length (flatten pop) <> length popcd)).
  { intros H. apply Hu in H. destruct H. discriminate. }
  apply (first_scalar_length div) in Eu. rewrite brrbpopcd_length in Eu.
  destruct (avrbpdsch self) as [av|e] eqn:Eav; cbn [bind].
  2:{ split; [|intros _; now eexists].
      intros _. do 3 right. left. now apply avrbpdsch_raise_inv with e. }
  apply avrbpdsch_inv in Eav as [_ Hnrb].
  change (cellavcap [av] ru) with (first_scalar sub [av] ru).
  rewrite first_scalar_l. cbn [bind].
  pose proof (sufcapch_raises (map (sub av) ru) (poiddatareq self d)) as Hc.
  rewrite length_map, Eu, poiddatareq_length in Hc.
  destruct (sufcapch (map (sub av) ru) (poiddatareq self d)) as [cc|e] eqn:Ec;
    cbn [bind].
  - split; [intros [e He]; discriminate|].
    intros [H|[H|[H|[H|H]]]].
    + contradiction.
    + contradiction.
    + contradiction.
    + congruence.
    + apply Hc in H. destruct H. discriminate.
  - split; [|intros _; now eexists].
    intros _. do 4 right. apply Hc. now eexists.
Qed.

(** X8: whatever the population and the traffic, [capacity_checker] reports
    no sufficient capacity when every point distance is beyond
    [max_radius] or undefined. *)
Theorem capacity_checker_beyond_max_radius (self : Capacity) (demand : Demand)
    (d popcd : list float64) (u : float64) (pop : operand) (r : checker_result) :
  (forall x, In x d -> (x <=? of_Z (max_radius self))%float = false) ->
  capacity_checker self demand d popcd u pop = Ok r ->
  forall b, In b (cc_capcheck r) -> b = false.
Proof.
  intros Hall Hr b Hb. apply capacity_checker_capcheck in Hr.
  destruct (@sufcapch_In _ _ _ _ Hr Hb) as (c & t & _ & Ht & ->).
  destruct (@poiddatareq_beyond self d t Hall Ht) as [->| ->]; unfold gtb.
  - apply ltb_pinf_l.
  - apply ltb_nan_l.
Qed.

Lemma capacity_checker_raises_witness :
  raises (capacity_checker (scenario 2000 1000 1000) demo_demand
            [of_Z 500; of_Z 600] [of_Z 1000; of_Z 1100; of_Z 1200] (of_Z 5)
            (Scalar (of_Z 1000))).
Proof.
  apply (proj2 (capacity_checker_raises (scenario 2000 1000 1000) demo_demand
                  [of_Z 500; of_Z 600] [of_Z 1000; of_Z 1100; of_Z 1200] (of_Z 5)
                  (Scalar (of_Z 1000)))).
  do 4 right. cbn. lia.
Defined.

Lemma capacity_checker_beyond_max_radius_witness :
  exists r, demo_check [of_Z 2500; NaN] = Ok r /\
            forall b, In b (cc_capcheck r) -> b = false.
Proof.
  destruct (demo_check [of_Z 2500; NaN]) as [r|e] eqn:E;
    [|vm_compute in E; discriminate E].
  exists r. split; [reflexivity|].
  apply (@capacity_checker_beyond_max_radius (scenario 2000 1000 1000) demo_demand
           [of_Z 2500; NaN] [of_Z 1000] (of_Z 5) (Scalar (of_Z 1000)) r).
  - intros x [<-|[<-|[]]]; reflexivity.
  - exact E.
Defined.

(* ================================================================= *)
(** * Ring- and site-level computations *)

Section GroupFacts.

Local Open Scope Z_scope.

Lemma insert_key_In (k x : Z) (keys : list Z) :
  In x (insert_key Z.compare k keys) <-> x = k \/ In x keys.
Proof.
  induction keys as [|k' keys IH]; cbn [insert_key].
  - cbn. intuition.
  - destruct (Z.compare_spec k k') as [->|Hlt|Hgt]; cbn [In].
    + intuition.
    + intuition.
    + rewrite IH. intuition.
Qed.

Lemma group_keys_In (x : Z) (ks : list Z) :
  In x (group_keys Z.compare ks) <-> In x ks.
Proof.
  induction ks as [|k ks IH]; cbn [group_keys fold_right]; [reflexivity|].
  fold (group_keys Z.compare ks). rewrite insert_key_In, IH. cbn [In]. intuition.
Qed.

Lemma insert_key_sorted (k : Z) (keys : list Z) :
  ascending keys -> ascending (insert_key Z.compare k keys).
Proof.
  induction keys as [|k' keys IH]; cbn [insert_key ascending].
  - intros _. split; [constructor|exact I].
  - intros [Hall Hs]. destruct (Z.compare_spec k k') as [->|Hlt|Hgt];
      cbn [ascending].
    + now split.
    + split; [|now split]. constructor; [exact Hlt|].
      eapply Forall_impl; [|exact Hall]. intros z Hz. lia.
    + split; [|now apply IH]. apply Forall_forall. intros z Hz.
      apply insert_key_In in Hz as [->|Hz]; [lia|].
      now apply (proj1 (Forall_forall _ _) Hall).
Qed.

Lemma group_keys_sorted (ks : list Z) : ascending (group_keys Z.compare ks).
Proof.
  induction ks as [|k ks IH]; cbn [group_keys fold_right]; [exact I|].
  now apply insert_key_sorted.
Qed.

Lemma sorted_NoDup (ks : list Z) : ascending ks -> NoDup ks.
Proof.
  induction ks as [|k ks IH]; cbn [ascending]; [constructor|].
  intros [Hall Hs]. constructor; [|now apply IH].
  intros Hin. apply (proj1 (Forall_forall _ _) Hall) in Hin. lia.
Qed.

Lemma groupby_sum_keys (rows : list (Z * float64)) :
  map fst (groupby_sum rows) = group_keys Z.compare (map fst rows).
Proof. unfold groupby_sum. rewrite map_map. cbn [fst]. apply map_id. Qed.

Lemma groupby_sum_In (rows : list (Z * float64)) (g : Z * float64) :
  In g (groupby_sum rows) ->
  In (fst g) (map fst rows) /\
  snd g = nansum (map snd (filter (fun r => fst r =? fst g) rows)).
Proof.
  unfold groupby_sum. intros H. apply in_map_iff in H as (k & <- & Hk).
  apply (proj1 (group_keys_In _ _)) in Hk. cbn [fst snd]. split; [exact Hk|reflexivity].
Qed.

End GroupFacts.

Section MapM.

Variables (A B : Type).

Lemma mapM_ok (f : A -> result B) (g : A -> B) (xs : list A) :
  (forall x, In x xs -> f x = Ok (g x)) -> mapM f xs = Ok (map g xs).
Proof.
  induction xs as [|x xs IH]; intros H; cbn [mapM map]; [reflexivity|].
  rewrite (H x) by now left. cbn [bind]. rewrite IH by (intros y Hy; apply H; now right).
  reflexivity.
Qed.

Lemma mapM_raise (f : A -> result B) (e : exn) (xs : list A) :
  xs <> [] -> (forall x, In x xs -> f x = Raise e) -> mapM f xs = Raise e.
Proof.
  destruct xs as [|x xs]; [contradiction|]. intros _ H. cbn [mapM].
  now rewrite (H x) by now left.
Qed.

End MapM.

Section DemandPipeline.

Import Np.
Local Open Scope float_scope.

Variable self : Capacity.
Variable demand : Demand.
Variable population_within : Z -> Z -> list float64.

Lemma first_brrbpopcd (x : float64) :
  first (brrbpopcd self [x]) = Ok (nth 0 (brrbpopcd self [x]) NaN).
Proof.
  pose proof (brrbpopcd_length self [x]) as H.
  destruct (brrbpopcd self [x]) as [|b l]; [discriminate|reflexivity].
Qed.

Lemma ring_columns (f1 f2 f3 : ring_record -> float64) (rings : list ring_record) :
  ring_level_rows rings (map f1 rings) (map f2 rings) (map f3 rings)
    (map (fun p => fst p / snd p) (combine (map f3 rings) (map f1 rings)))
  = map (fun r => {| rl_ring := r;
                     rl_brrbpopcd := f1 r;
                     rl_population := f2 r;
                     rl_upopbr := f3 r;
                     rl_upoprbu := f3 r / f1 r |}) rings.
Proof.
  unfold ring_level_rows. induction rings as [|r rings IH]; [reflexivity|].
  cbn [map combine fst snd]. f_equal. exact IH.
Qed.

(** The ring level once its two fallible inputs are named. *)
Lemma ring_level_eq (rings : list ring_record) :
  ring_level self demand population_within rings
  = (u <- udatavmonth_pu demand ;;
     a <- avubrnonbh demand u ;;
     Ok (map (ring_row self demand population_within a) rings)).
Proof.
  unfold ring_level.
  rewrite (@mapM_ok _ _ (fun r => first (brrbpopcd self [ring_radius r]))
             (ring_bitrate self))
    by (intros r _; apply first_brrbpopcd).
  cbn [bind]. destruct (udatavmonth_pu demand) as [u|e]; [|reflexivity]. cbn [bind].
  destruct (avubrnonbh demand u) as [a|e]; [|reflexivity]. cbn [bind].
  rewrite upopbr_array. cbn [bind flatten]. rewrite map_map.
  change (upoprbu ?x ?y) with (first_scalar div x y).
  rewrite first_scalar_same by now rewrite !length_map.
  cbn [bind]. f_equal.
  apply (ring_columns (ring_bitrate self) (ring_population population_within)
           (fun r => upopbr_value demand a (ring_population population_within r))).
Qed.

Lemma udatavmonth_pu_raises :
  raises (udatavmonth_pu demand) <-> length (country_rows demand) <> 1%nat.
Proof.
  unfold udatavmonth_pu. destruct (country_rows demand) as [|r [|r' l]]; cbn.
  - split; [intros _; lia|intros _; now eexists].
  - split; [intros [e He]; discriminate|intros H; now contradiction H].
  - split; [intros _; lia|intros _; now eexists].
Qed.

Lemma site_loads_nil (rr : list ring_level_row) : site_loads rr = [] -> rr = [].
Proof.
  destruct rr as [|r rr]; [reflexivity|]. intros H.
  assert (Hin : In (ring_ict_id (rl_ring r)) (map fst (site_loads (r :: rr)))).
  { unfold site_loads. rewrite groupby_sum_keys. apply group_keys_In.
    rewrite map_map. now left. }
  rewrite H in Hin. destruct Hin.
Qed.

Lemma site_level_ok (av : float64) (rr : list ring_level_row) :
  avrbpdsch self = Ok av ->
  site_level self rr = Ok (map (site_row av) (site_loads rr)).
Proof.
  intros H. unfold site_level. fold (site_loads rr). apply mapM_ok.
  intros g _. rewrite H. reflexivity.
Qed.

Lemma site_level_raise (e : exn) (rr : list ring_level_row) :
  avrbpdsch self = Raise e -> rr <> [] -> site_level self rr = Raise e.
Proof.
  intros H Hrr. unfold site_level. fold (site_loads rr). apply mapM_raise.
  - intros E. now apply site_loads_nil in E.
  - intros g _. now rewrite H.
Qed.

Lemma site_level_inv (rr : list ring_level_row) (caps : list site_capacity) :
  site_level self rr = Ok caps ->
  caps = map (site_row (avrbpdsch_value self)) (site_loads rr).
Proof.
  destruct (avrbpdsch self) as [av|e] eqn:E.
  - rewrite (site_level_ok rr E). intros [= <-].
    now apply avrbpdsch_inv in E as [-> _].
  - destruct rr as [|r rr]; [now intros [= <-]|].
    rewrite (@site_level_raise e (r :: rr)) by (assumption || discriminate).
    discriminate.
Qed.

Variable perform_pair_analysis : Z -> Z -> float64 * option bool.
Variable within : poi -> Z -> bool.

Lemma live_visibility_value (pois : list poi) (buffers : list Z) :
  value (live_visibility perform_pair_analysis within pois buffers)
  = match pois with
    | [] => Raise ValueError
    | _ => Ok (map (live_row perform_pair_analysis)
                 (drop_duplicates [] (sjoin_left within pois buffers)))
    end.
Proof.
  unfold live_visibility. rewrite apply_visibility_eq. unfold tbind, tret, value.
  cbn [fst snd]. destruct pois as [|p pois]; [reflexivity|].
  pose proof (@joined_rows_nonempty within (p :: pois) buffers) as Hne.
  destruct (drop_duplicates [] (sjoin_left within (p :: pois) buffers)) as [|j js];
    [now contradiction Hne|reflexivity].
Qed.

Lemma demand_pipeline_eq (visibility : option (list visibility_pair))
    (pois : list poi) (sites : list Z) (rings : list ring_record) :
  pois <> [] ->
  rings_gdf self sites = Ok rings ->
  calculate_buffer_areas_demand self demand population_within perform_pair_analysis
    within visibility pois sites
  = (rows <- value (visibility_analysis perform_pair_analysis within visibility
                      pois sites) ;;
     rr <- ring_level self demand population_within rings ;;
     caps <- site_level self rr ;;
     Ok (rr, map finish
               (merge_sites caps
                  (combine rows (poiddatareq self (map row_ground_distance rows))))),
     calls (visibility_analysis perform_pair_analysis within visibility pois sites)).
Proof.
  intros Hp H. unfold calculate_buffer_areas_demand.
  replace (estimate_utm_crs pois) with (Ok tt : result unit)
    by (destruct pois; [now contradiction Hp|reflexivity]).
  rewrite H.
  destruct (visibility_analysis perform_pair_analysis within visibility pois sites)
    as [v t].
  unfold tbind, tret, value, calls. cbn [fst snd]. rewrite app_nil_r. f_equal.
  destruct v as [rows|e]; [|reflexivity]. cbn [bind].
  destruct (ring_level self demand population_within rings) as [rr|e];
    [|reflexivity]. cbn [bind].
  destruct (site_level self rr) as [caps|e]; [|reflexivity]. cbn [bind].
  now rewrite poi_level_eq.
Qed.

Lemma demand_pipeline_inv (visibility : option (list visibility_pair))
    (pois : list poi) (sites : list Z) (rr : list ring_level_row)
    (results : list poi_result) :
  value (calculate_buffer_areas_demand self demand population_within
           perform_pair_analysis within visibility pois sites) = Ok (rr, results) ->
  exists rings rows u a,
    rings_gdf self sites = Ok rings /\
    value (visibility_analysis perform_pair_analysis within visibility pois sites)
    = Ok rows /\
    udatavmonth_pu demand = Ok u /\
    avubrnonbh demand u = Ok a /\
    rr = map (ring_row self demand population_within a) rings /\
    results = map finish
                (merge_sites (map (site_row (avrbpdsch_value self)) (site_loads rr))
                   (combine rows (poiddatareq self (map row_ground_distance rows)))).
Proof.
  destruct pois as [|p pois'] eqn:Ep; [discriminate|]. rewrite <- Ep in *.
  assert (Hp : pois <> []) by (rewrite Ep; discriminate).
  destruct (rings_gdf self sites) as [rings|e] eqn:Er.
  2:{ unfold calculate_buffer_areas_demand. rewrite Ep, Er. discriminate. }
  rewrite (@demand_pipeline_eq visibility pois sites rings Hp Er).
  unfold value at 1. cbn [fst].
  destruct (value (visibility_analysis perform_pair_analysis within visibility
                     pois sites)) as [rows|e]; [|discriminate]. cbn [bind].
  rewrite ring_level_eq.
  destruct (udatavmonth_pu demand) as [u|e]; [|discriminate]. cbn [bind].
  destruct (avubrnonbh demand u) as [a|e] eqn:Ea; [|discriminate]. cbn [bind].
  destruct (site_level self _) as [caps|e] eqn:Es; [|discriminate]. cbn [bind].
  intros [= <- <-]. apply site_level_inv in Es. subst caps.
  exists rings, rows, u, a. repeat match goal with |- _ /\ _ => split end;
    reflexivity || assumption.
Qed.

End DemandPipeline.

Lemma ring_table_some_site (self : Capacity) (s : Z) (sites : list Z) :
  ring_table self (s :: sites) (arithmetic_radii self) <> [].
Proof.
  unfold ring_table, arithmetic_radii. cbn [seq map flat_map app]. discriminate.
Qed.

(** X9: [calculate_buffer_areas] raises in exactly seven situations: the
    point table is empty; the radius range is not evenly divided by a
    positive [radius_step]; the site table is empty; a radius label does
    not fit a 64-bit integer; the traffic table does not hold exactly one
    row for the country; [nbhours] is zero; or the number of resource blocks
    is zero.  Neither the visibility table nor a failed bitrate lookup
    bears on it.  (The geometry operations and the functions of other
    modules are taken to return.) *)
Theorem pipeline_raises (self : Capacity) (demand : Demand)
    (population_within : Z -> Z -> list float64)
    (perform_pair_analysis : Z -> Z -> float64 * option bool)
    (within : poi -> Z -> bool)
    (visibility : option (list visibility_pair)) (pois : list poi) (sites : list Z) :
  raises (value (calculate_buffer_areas_demand self demand population_within
                   perform_pair_analysis within visibility pois sites))
  <-> pipeline_fails self demand pois sites.
Proof.
  unfold pipeline_fails.
  destruct pois as [|p pois'] eqn:Ep.
  { unfold calculate_buffer_areas_demand. cbn.
    split; [intros _; now left|intros _; now eexists]. }
  rewrite <- Ep. assert (Hp : pois <> []) by (rewrite Ep; discriminate).
  assert (Hp' : ~ p :: pois' = []) by discriminate.
  pose proof (rings_gdf_raises_iff self sites) as Hrings.
  destruct (rings_gdf self sites) as [rg|e] eqn:Er.
  2:{ unfold calculate_buffer_areas_demand. rewrite Ep, Er. cbn.
      split; [|intros _; now eexists]. intros _.
      destruct (proj1 Hrings) as [H|[H|H]]; [now eexists|tauto|tauto|tauto]. }
  assert (Hno : ~ (~ evenly_divided self \/ sites = [] \/ ~ int64_labels self)).
  { intros H. apply Hrings in H. destruct H. discriminate. }
  pose proof (@rings_gdf_ok_inv self sites rg Er) as (Hev & Hne & Hfit & Hrg).
  rewrite (@demand_pipeline_eq self demand population_within perform_pair_analysis
             within visibility pois sites rg Hp Er).
  unfold value at 1. cbn [fst].
  assert (Hvis : exists rows,
            value (visibility_analysis perform_pair_analysis within visibility
                     pois sites) = Ok rows).
  { destruct visibility as [t|]; [eexists; reflexivity|].
    cbn [visibility_analysis]. rewrite live_visibility_value, Ep.
    eexists. reflexivity. }
  destruct Hvis as (rows & ->). cbn [bind]. rewrite ring_level_eq.
  pose proof (udatavmonth_pu_raises demand) as Hu.
  destruct (udatavmonth_pu demand) as [u|e]; cbn [bind].
  2:{ split; [|intros _; now eexists].
      intros _. do 4 right. left. apply Hu. now eexists. }
  assert (Hu' : ~ length (country_rows demand) <> 1%nat).
  { intros H. apply Hu in H. destruct H. discriminate. }
  pose proof (avubrnonbh_raises demand u) as Ha.
  destruct (avubrnonbh demand u) as [a|e]; cbn [bind].
  2:{ split; [|intros _; now eexists].
      intros _. do 5 right. left. apply Ha. now eexists. }
  assert (Ha' : nbhours demand <> 0%Z).
  { intros H. apply Ha in H. destruct H. discriminate. }
  destruct (avrbpdsch self) as [av|e] eqn:Eav.
  - rewrite (@site_level_ok self av _ Eav). cbn [bind].
    split; [intros [e He]; discriminate|].
    apply avrbpdsch_inv in Eav as [_ Hnz].
    intros [H|[H|[H|[H|[H|[H|H]]]]]]; try tauto; try congruence.
  - rewrite (@site_level_raise self e) ; [|exact Eav|].
    + cbn [bind]. split; [|intros _; now eexists].
      intros _. do 6 right. now apply avrbpdsch_raise_inv with e.
    + intros E. apply map_eq_nil in E. rewrite Hrg in E.
      destruct sites as [|s ids]; [now contradiction Hne|].
      now apply ring_table_some_site in E.
Qed.

Lemma pipeline_raises_witness :
  raises (value (calculate_buffer_areas_demand (scenario 2000 1000 1000) demo_demand
                   demo_population demo_oracle demo_within (Some demo_visibility)
                   demo_pois [])) /\
  ~ raises (value (demo_full_run None demo_oracle)).
Proof.
  split.
  - apply (proj2 (@pipeline_raises (scenario 2000 1000 1000) demo_demand
                    demo_population demo_oracle demo_within (Some demo_visibility)
                    demo_pois [])).
    right. right. now left.
  - intros H.
    apply (proj1 (@pipeline_raises (scenario 2000 1000 1000) demo_demand
                    demo_population demo_oracle demo_within None demo_pois [7%Z]))
      in H.
    unfold pipeline_fails in H.
    destruct H as [H|[H|[H|[H|[H|[H|H]]]]]]; try discriminate H.
    + apply H. unfold evenly_divided. cbn. repeat split; lia.
    + apply H. unfold int64_labels, Columns.int64_bound. cbn. lia.
    + apply H. reflexivity.
Defined.

(* ================================================================= *)
(** * The rows of the annotated point table *)

Section ResultRows.

Local Open Scope Z_scope.

Lemma existsb_eqb_In (x : Z) (seen : list Z) :
  existsb (Z.eqb x) seen = true <-> In x seen.
Proof.
  rewrite existsb_exists. split.
  - intros (y & Hy & E). apply Z.eqb_eq in E. now subst.
  - intros H. exists x. split; [exact H|apply Z.eqb_refl].
Qed.

Lemma drop_duplicates_seen {A : Type} (seen : list Z) (p : poi)
    (f : A -> option Z) (l : list A) (rest : list (poi * option Z)) :
  In (poi_id p) seen ->
  drop_duplicates seen (map (fun s => (p, f s)) l ++ rest)
  = drop_duplicates seen rest.
Proof.
  intros Hin. induction l as [|s l IH]; [reflexivity|].
  cbn [map app drop_duplicates].
  now rewrite (proj2 (existsb_eqb_In (poi_id p) seen) Hin).
Qed.

Variable within : poi -> Z -> bool.

(** With distinct point identifiers the deduplicated spatial join holds
    the points themselves, in order. *)
Lemma drop_duplicates_sjoin (buffers : list Z) (pois : list poi) (seen : list Z) :
  NoDup (map poi_id pois) ->
  (forall p, In p pois -> ~ In (poi_id p) seen) ->
  map fst (drop_duplicates seen (sjoin_left within pois buffers)) = pois.
Proof.
  revert seen. induction pois as [|p pois IH]; intros seen Hnd Hseen; [reflexivity|].
  cbn [map] in Hnd. apply NoDup_cons_iff in Hnd as [Hp Hnd].
  assert (Hfresh : existsb (Z.eqb (poi_id p)) seen = false).
  { destruct (existsb (Z.eqb (poi_id p)) seen) eqn:E; [|reflexivity].
    apply existsb_eqb_In in E. now apply Hseen in E; [|left]. }
  assert (Hrest : forall q, In q pois -> ~ In (poi_id q) (poi_id p :: seen)).
  { intros q Hq [E|Hin].
    - apply Hp. rewrite E. now apply in_map.
    - apply (Hseen q); [now right|exact Hin]. }
  unfold sjoin_left. cbn [flat_map]. fold (sjoin_left within pois buffers).
  destruct (filter (within p) buffers) as [|s found].
  - cbn [app drop_duplicates fst]. rewrite Hfresh. cbn [map fst]. f_equal.
    now apply IH.
  - cbn [map app drop_duplicates fst]. rewrite Hfresh. cbn [map fst]. f_equal.
    rewrite (@drop_duplicates_seen Z (poi_id p :: seen) p Some found)
      by now left.
    now apply IH.
Qed.

Lemma filter_key_le1 {A : Type} (key : A -> Z) (s : Z) (l : list A) :
  NoDup (map key l) -> (length (filter (fun c => (key c =? s)%Z) l) <= 1)%nat.
Proof.
  induction l as [|c l IH]; cbn [map filter]; [intros _; cbn; lia|].
  intros Hnd. apply NoDup_cons_iff in Hnd as [Hc Hnd].
  destruct (Z.eqb_spec (key c) s) as [E|E]; [|now apply IH].
  assert (Hnone : filter (fun c0 => key c0 =? s) l = []).
  { destruct (filter (fun c0 => key c0 =? s) l) as [|c' l'] eqn:F; [reflexivity|].
    assert (Hin : In c' (filter (fun c0 => key c0 =? s) l)) by (rewrite F; now left).
    apply filter_In in Hin as [Hin Hk]. apply Z.eqb_eq in Hk.
    exfalso. apply Hc. rewrite E, <- Hk. now apply in_map. }
  rewrite Hnone. cbn. lia.
Qed.

Lemma merge_site_single (caps : list site_capacity) (o : option Z) :
  NoDup (map sc_ict_id caps) -> exists c, merge_site caps o = [c].
Proof.
  intros Hnd. unfold merge_site. destruct o as [s|]; [|now eexists].
  pose proof (@filter_key_le1 _ sc_ict_id s caps Hnd) as Hle.
  destruct (filter (fun c => sc_ict_id c =? s) caps) as [|c [|c' l]].
  - now eexists.
  - now eexists.
  - cbn in Hle. lia.
Qed.

Lemma merge_sites_single (caps : list site_capacity)
    (rows : list (poi_row * float64)) :
  NoDup (map sc_ict_id caps) ->
  map fst (merge_sites caps rows) = rows.
Proof.
  intros Hnd. unfold merge_sites. induction rows as [|r rows IH]; [reflexivity|].
  cbn [flat_map]. rewrite map_app, IH.
  destruct (@merge_site_single caps (row_ict_id (fst r)) Hnd) as [c ->]. reflexivity.
Qed.

Lemma site_keys_NoDup (av : float64) (rr : list ring_level_row) :
  NoDup (map sc_ict_id (map (site_row av) (site_loads rr))).
Proof.
  rewrite map_map. cbn [site_row sc_ict_id]. unfold site_loads.
  rewrite groupby_sum_keys. apply sorted_NoDup, group_keys_sorted.
Qed.

(** With one row per site in the site table the merge keeps the point
    rows one to one. *)
Lemma results_rows (self : Capacity) (caps : list site_capacity)
    (rows : list poi_row) :
  NoDup (map sc_ict_id caps) ->
  map res_poi
    (map finish
       (merge_sites caps
          (combine rows (poiddatareq self (map row_ground_distance rows)))))
  = map row_poi rows.
Proof.
  intros Hnd. rewrite map_map.
  rewrite (@map_ext _ _ (fun m => res_poi (finish m))
             (fun m : merged_row => row_poi (fst (fst m))))
    by now intros [[row rb] [u c]].
  transitivity
    (map (fun x : poi_row * float64 => row_poi (fst x))
       (map fst (merge_sites caps
                   (combine rows (poiddatareq self (map row_ground_distance rows))))));
    [now rewrite map_map|].
  rewrite (@merge_sites_single caps _ Hnd).
  assert (Hlen : length (poiddatareq self (map row_ground_distance rows))
                 = length rows)
    by now rewrite poiddatareq_length, length_map.
  revert Hlen. generalize (poiddatareq self (map row_ground_distance rows)).
  induction rows as [|row rows IH]; intros [|rb rbs] Hlen; try discriminate;
    [reflexivity|].
  cbn [combine map fst]. f_equal. apply IH. now injection Hlen.
Qed.

Lemma merge_poi_single (filtered : list visibility_pair) (p : poi) :
  (length (filter (fun v => (vp_poi_id v =? poi_id p)%Z) filtered) <= 1)%nat ->
  map row_poi (merge_poi filtered p) = [p].
Proof.
  unfold merge_poi.
  destruct (filter (fun v => vp_poi_id v =? poi_id p) filtered) as [|v [|v' l]].
  - reflexivity.
  - reflexivity.
  - cbn. lia.
Qed.

End ResultRows.

(** X10: without a visibility table and with distinct point identifiers,
    the table returned by [calculate_buffer_areas] holds exactly the input
    points, one row each and in input order, also when a point lies within
    the buffers of several sites. *)
Theorem live_table_has_the_points (self : Capacity) (demand : Demand)
    (population_within : Z -> Z -> list float64)
    (perform_pair_analysis : Z -> Z -> float64 * option bool)
    (within : poi -> Z -> bool) (pois : list poi) (sites : list Z)
    (rings : list ring_level_row) (results : list poi_result) :
  NoDup (map poi_id pois) ->
  value (calculate_buffer_areas_demand self demand population_within
           perform_pair_analysis within None pois sites) = Ok (rings, results) ->
  map res_poi results = pois.
Proof.
  intros Hnd Hrun.
  apply demand_pipeline_inv in Hrun as (rg & rows & u & a & _ & Hrows & _ & _ & _ & ->).
  rewrite results_rows by apply site_keys_NoDup.
  cbn [visibility_analysis] in Hrows. apply live_visibility_rows in Hrows. subst rows.
  rewrite map_map. cbn [live_row row_poi].
  now apply drop_duplicates_sjoin.
Qed.

Lemma live_table_has_the_points_witness :
  map res_poi (demo_full_results None demo_oracle) = demo_pois.
Proof.
  assert (Hrun : value (demo_full_run None demo_oracle)
                 = Ok (demo_full_rings None demo_oracle,
                       demo_full_results None demo_oracle))
    by (vm_compute; reflexivity).
  apply (@live_table_has_the_points (scenario 2000 1000 1000) demo_demand
           demo_population demo_oracle demo_within demo_pois [7%Z]
           (demo_full_rings None demo_oracle) (demo_full_results None demo_oracle)).
  - repeat constructor; cbn; intuition discriminate.
  - exact Hrun.
Defined.

(** X11: with a visibility table that holds at most one pair of rank
    order 1 for each point, the table returned by [calculate_buffer_areas]
    holds exactly the input points, one row each and in input order,
    whether or not the table mentions them. *)
Theorem precomputed_table_has_the_points (self : Capacity) (demand : Demand)
    (population_within : Z -> Z -> list float64)
    (perform_pair_analysis : Z -> Z -> float64 * option bool)
    (within : poi -> Z -> bool) (table : list visibility_pair)
    (pois : list poi) (sites : list Z)
    (rings : list ring_level_row) (results : list poi_result) :
  (forall p, In p pois ->
     (length (filter (fun v => (vp_order v =? 1)%Z && (vp_poi_id v =? poi_id p)%Z)
                table) <= 1)%nat) ->
  value (calculate_buffer_areas_demand self demand population_within
           perform_pair_analysis within (Some table) pois sites)
  = Ok (rings, results) ->
  map res_poi results = pois.
Proof.
  intros Hone Hrun.
  apply demand_pipeline_inv in Hrun as (rg & rows & u & a & _ & Hrows & _ & _ & _ & ->).
  rewrite results_rows by apply site_keys_NoDup.
  cbn in Hrows. injection Hrows as <-.
  unfold precomputed_visibility. clear rg.
  induction pois as [|p pois IH]; [reflexivity|].
  cbn [flat_map]. rewrite map_app, IH by (intros q Hq; apply Hone; now right).
  rewrite merge_poi_single; [reflexivity|].
  rewrite filter_filter. apply Hone. now left.
Qed.

Lemma precomputed_table_has_the_points_witness :
  map res_poi (demo_full_results (Some demo_visibility) demo_oracle) = demo_pois.
Proof.
  assert (Hrun : value (demo_full_run (Some demo_visibility) demo_oracle)
                 = Ok (demo_full_rings (Some demo_visibility) demo_oracle,
                       demo_full_results (Some demo_visibility) demo_oracle))
    by (vm_compute; reflexivity).
  apply (@precomputed_table_has_the_points (scenario 2000 1000 1000) demo_demand
           demo_population demo_oracle demo_within demo_visibility demo_pois [7%Z]
           (demo_full_rings (Some demo_visibility) demo_oracle)
           (demo_full_results (Some demo_visibility) demo_oracle)).
  - intros p [<-|[<-|[]]]; cbn; lia.
  - exact Hrun.
Defined.

Section Verdict.

Local Open Scope float_scope.

Variable self : Capacity.

(** A verdict of sufficient capacity needs a requirement that is neither
    infinite nor undefined, hence a distance within [max_radius]. *)
Lemma served_within (caps : list site_capacity) (rows : list poi_row)
    (r : poi_result) :
  In r (map finish
          (merge_sites caps
             (combine rows (poiddatareq self (map row_ground_distance rows))))) ->
  res_sufcapch r = true ->
  (res_ground_distance r <=? of_Z (max_radius self)) = true /\
  (res_cellavcap r >? res_rbdlthtarg r) = true.
Proof.
  intros Hr Hs. apply poi_level_row in Hr as (i & row & rb & c & Hi & Hrb & _ & ->).
  destruct c as [u cap]. cbn in Hs |- *. split; [|exact Hs].
  destruct (poiddatareq_cases self (map row_ground_distance rows)) as [E|E];
    rewrite E in Hrb.
  - rewrite !nth_error_map, Hi in Hrb. cbn [option_map] in Hrb.
    destruct (row_ground_distance row <=? of_Z (max_radius self)); [reflexivity|].
    injection Hrb as <-. unfold gtb in Hs. now rewrite ltb_pinf_l in Hs.
  - apply nth_error_In, repeat_spec in Hrb. subst rb. unfold gtb in Hs.
    now rewrite ltb_nan_l in Hs.
Qed.

Lemma without_flag_finish (caps : list site_capacity) (rows1 rows2 : list poi_row)
    (rbs : list float64) :
  map row_without_flag rows1 = map row_without_flag rows2 ->
  map without_flag (map finish (merge_sites caps (combine rows1 rbs)))
  = map without_flag (map finish (merge_sites caps (combine rows2 rbs))).
Proof.
  revert rows2 rbs. induction rows1 as [|r1 rows1 IH]; intros [|r2 rows2] rbs H;
    try discriminate; [reflexivity|].
  cbn [map] in H. injection H as Hp Hi Hd Hrest.
  destruct rbs as [|rb rbs]; [reflexivity|].
  unfold merge_sites in *. cbn [combine flat_map fst]. rewrite !map_app.
  f_equal; [|now apply IH].
  rewrite Hi, !map_map. apply map_ext. intros [u cap].
  unfold without_flag, finish. cbn. now rewrite Hp, Hi, Hd.
Qed.

Lemma without_flag_results (caps : list site_capacity) (rows1 rows2 : list poi_row) :
  map row_without_flag rows1 = map row_without_flag rows2 ->
  map without_flag
    (map finish
       (merge_sites caps
          (combine rows1 (poiddatareq self (map row_ground_distance rows1)))))
  = map without_flag
      (map finish
         (merge_sites caps
            (combine rows2 (poiddatareq self (map row_ground_distance rows2))))).
Proof.
  intros H.
  assert (Hd : map row_ground_distance rows1 = map row_ground_distance rows2).
  { transitivity (map snd (map row_without_flag rows1)); [now rewrite map_map|].
    rewrite H. now rewrite map_map. }
  rewrite Hd. now apply without_flag_finish.
Qed.

Lemma filter_same_keys {A K : Type} (key : A -> K) (p : A -> bool) (q : K -> bool)
    (l1 l2 : list A) :
  (forall x, p x = q (key x)) ->
  map key l1 = map key l2 ->
  map key (filter p l1) = map key (filter p l2).
Proof.
  intros Hp. revert l2. induction l1 as [|x l1 IH]; intros [|y l2] H;
    try discriminate; [reflexivity|].
  cbn [map] in H. injection H as Hk Hrest. cbn [filter].
  rewrite (Hp x), (Hp y), Hk. destruct (q (key y)); cbn [map];
    [f_equal; [exact Hk|]|]; now apply IH.
Qed.

Lemma merge_poi_same_keys (f1 f2 : list visibility_pair) (p : poi) :
  map pair_without_flag f1 = map pair_without_flag f2 ->
  map row_without_flag (merge_poi f1 p) = map row_without_flag (merge_poi f2 p).
Proof.
  intros H. unfold merge_poi.
  pose proof (@filter_same_keys _ _ pair_without_flag
                (fun v => (vp_poi_id v =? poi_id p)%Z)
                (fun k => (fst (fst (fst k)) =? poi_id p)%Z) f1 f2
                (fun v => eq_refl) H) as Hf.
  revert Hf.
  generalize (filter (fun v => (vp_poi_id v =? poi_id p)%Z) f1).
  generalize (filter (fun v => (vp_poi_id v =? poi_id p)%Z) f2).
  intros l2 l1 Hl. destruct l1 as [|v1 l1], l2 as [|v2 l2]; try discriminate;
    [reflexivity|].
  rewrite !map_map. unfold row_without_flag. cbn [row_poi row_ict_id row_ground_distance].
  transitivity (map (fun k : Z * option Z * Z * float64 =>
                       (p, snd (fst (fst k)), snd k))
                  (map pair_without_flag (v1 :: l1))); [now rewrite map_map|].
  rewrite Hl. now rewrite map_map.
Qed.

Lemma precomputed_same_keys (t1 t2 : list visibility_pair) (pois : list poi) :
  map pair_without_flag t1 = map pair_without_flag t2 ->
  map row_without_flag (precomputed_visibility t1 pois)
  = map row_without_flag (precomputed_visibility t2 pois).
Proof.
  intros H. unfold precomputed_visibility.
  pose proof (@filter_same_keys _ _ pair_without_flag
                (fun v => (vp_order v =? 1)%Z)
                (fun k => (snd (fst k) =? 1)%Z) t1 t2
                (fun v => eq_refl) H) as Hf.
  induction pois as [|p pois IH]; [reflexivity|].
  cbn [flat_map]. rewrite !map_app, IH. f_equal. now apply merge_poi_same_keys.
Qed.

End Verdict.

(** X12: in the table returned by [calculate_buffer_areas] a point is
    marked as served only if its ground distance is defined and within
    [max_radius], and the available capacity of its site exceeds its
    requirement. *)
Theorem served_points_are_within_max_radius (self : Capacity) (demand : Demand)
    (population_within : Z -> Z -> list float64)
    (perform_pair_analysis : Z -> Z -> float64 * option bool)
    (within : poi -> Z -> bool)
    (visibility : option (list visibility_pair)) (pois : list poi) (sites : list Z)
    (rings : list ring_level_row) (results : list poi_result) (r : poi_result) :
  value (calculate_buffer_areas_demand self demand population_within
           perform_pair_analysis within visibility pois sites) = Ok (rings, results) ->
  In r results -> res_sufcapch r = true ->
  (res_ground_distance r <=? of_Z (max_radius self))%float = true /\
  (res_cellavcap r >? res_rbdlthtarg r)%float = true.
Proof.
  intros Hrun Hr Hs.
  apply demand_pipeline_inv in Hrun as (rg & rows & u & a & _ & _ & _ & _ & _ & ->).
  now apply served_within with (1 := Hr).
Qed.

(** X13: the visibility flag has no influence on the capacity results: two
    runs whose visibility sources -- the oracles, or the precomputed
    tables -- agree on everything but the flags return the same ring table
    and point tables that differ at most in the flag column, or raise the
    same exception. *)
Theorem verdict_ignores_visibility_flag (self : Capacity) (demand : Demand)
    (population_within : Z -> Z -> list float64)
    (oracle1 oracle2 : Z -> Z -> float64 * option bool)
    (within : poi -> Z -> bool)
    (visibility1 visibility2 : option (list visibility_pair))
    (pois : list poi) (sites : list Z) :
  (forall p s, fst (oracle1 p s) = fst (oracle2 p s)) ->
  option_map (map pair_without_flag) visibility1
  = option_map (map pair_without_flag) visibility2 ->
  same_but_flags
    (value (calculate_buffer_areas_demand self demand population_within oracle1
              within visibility1 pois sites))
    (value (calculate_buffer_areas_demand self demand population_within oracle2
              within visibility2 pois sites)).
Proof.
  intros Ho Hv.
  destruct pois as [|p pois'] eqn:Ep; [reflexivity|]. rewrite <- Ep.
  assert (Hp : pois <> []) by (rewrite Ep; discriminate).
  destruct (rings_gdf self sites) as [rg|e] eqn:Er.
  2:{ unfold calculate_buffer_areas_demand. rewrite Ep, Er. reflexivity. }
  rewrite !(@demand_pipeline_eq self demand population_within _ within _ pois sites
              rg Hp Er).
  unfold value at 1 3. cbn [fst].
  assert (Hrows :
    (exists e,
       value (visibility_analysis oracle1 within visibility1 pois sites) = Raise e /\
       value (visibility_analysis oracle2 within visibility2 pois sites) = Raise e)
    \/ (exists rows1 rows2,
          value (visibility_analysis oracle1 within visibility1 pois sites) = Ok rows1 /\
          value (visibility_analysis oracle2 within visibility2 pois sites) = Ok rows2 /\
          map row_without_flag rows1 = map row_without_flag rows2)).
  { destruct visibility1 as [t1|], visibility2 as [t2|]; try discriminate.
    - right. do 2 eexists. split; [reflexivity|]. split; [reflexivity|].
      apply precomputed_same_keys. now injection Hv.
    - cbn [visibility_analysis]. rewrite !live_visibility_value, Ep.
      right. do 2 eexists. split; [reflexivity|]. split; [reflexivity|].
      rewrite !map_map. apply map_ext. intros [q [s|]]; [|reflexivity].
      unfold row_without_flag, live_row. cbn. now rewrite Ho. }
  destruct Hrows as [(e & -> & ->)|(rows1 & rows2 & -> & -> & Hk)]; [reflexivity|].
  cbn [bind].
  destruct (ring_level self demand population_within rg) as [rr|e]; [|reflexivity].
  cbn [bind]. destruct (site_level self rr) as [caps|e]; [|reflexivity].
  cbn [bind same_but_flags]. split; [reflexivity|].
  now apply without_flag_results.
Qed.

Lemma served_points_are_within_max_radius_witness :
  exists r, In r (demo_full_results None demo_oracle) /\
            res_sufcapch r = true /\
            (res_ground_distance r <=? of_Z 2000)%float = true.
Proof.
  assert (Hrun : value (demo_full_run None demo_oracle)
                 = Ok (demo_full_rings None demo_oracle,
                       demo_full_results None demo_oracle))
    by (vm_compute; reflexivity).
  destruct (demo_full_results None demo_oracle) as [|r results] eqn:E;
    [vm_compute in E; discriminate E|].
  assert (Hs : res_sufcapch r = true)
    by (vm_compute in E; now injection E as <- _).
  exists r. split; [now left|]. split; [exact Hs|].
  apply (@served_points_are_within_max_radius (scenario 2000 1000 1000) demo_demand
           demo_population demo_oracle demo_within None demo_pois [7%Z]
           (demo_full_rings None demo_oracle) (r :: results) r Hrun);
    [now left|exact Hs].
Defined.

Lemma verdict_ignores_visibility_flag_witness :
  same_but_flags (value (demo_full_run None demo_oracle))
    (value (demo_full_run None demo_oracle_blocked)) /\
  same_but_flags (value (demo_full_run (Some demo_visibility) demo_oracle))
    (value (demo_full_run (Some demo_visibility_other) demo_oracle)).
Proof.
  split.
  - apply (@verdict_ignores_visibility_flag (scenario 2000 1000 1000) demo_demand
             demo_population demo_oracle demo_oracle_blocked demo_within None None
             demo_pois [7%Z]).
    + intros p s. reflexivity.
    + reflexivity.
  - apply (@verdict_ignores_visibility_flag (scenario 2000 1000 1000) demo_demand
             demo_population demo_oracle demo_oracle demo_within
             (Some demo_visibility) (Some demo_visibility_other) demo_pois [7%Z]).
    + intros p s. reflexivity.
    + reflexivity.
Defined.

(* ================================================================= *)
(** * The load of a site *)

Section SiteLoad.

Local Open Scope float_scope.

Lemma filter_map_comm {A B : Type} (f : A -> B) (p : B -> bool) (l : list A) :
  filter p (map f l) = map f (filter (fun x => p (f x)) l).
Proof.
  induction l as [|x l IH]; [reflexivity|]. cbn [map filter].
  destruct (p (f x)); cbn [map]; now rewrite IH.
Qed.

Lemma site_load_of (rr : list ring_level_row) (g : Z * float64) :
  In g (site_loads rr) ->
  In (fst g) (map (fun x => ring_ict_id (rl_ring x)) rr) /\
  snd g = nansum (map rl_upoprbu
                    (filter (fun x => (ring_ict_id (rl_ring x) =? fst g)%Z) rr)).
Proof.
  intros H. apply groupby_sum_In in H as [Hin ->]. rewrite map_map in Hin.
  split; [exact Hin|]. rewrite filter_map_comm, map_map. reflexivity.
Qed.

Lemma site_loads_key (rr : list ring_level_row) (s : Z) :
  In s (map (fun x => ring_ict_id (rl_ring x)) rr) ->
  exists g, In g (site_loads rr) /\ fst g = s.
Proof.
  intros H.
  assert (Hk : In s (map fst (site_loads rr))).
  { unfold site_loads. rewrite groupby_sum_keys. apply group_keys_In.
    now rewrite map_map. }
  apply in_map_iff in Hk as (g & E & Hg). now exists g.
Qed.

Lemma ring_table_site (self : Capacity) (sites : list Z) (s : Z) :
  In s sites ->
  In s (map ring_ict_id (ring_table self sites (arithmetic_radii self))).
Proof.
  intros H. unfold ring_table, arithmetic_radii. cbn [seq map flat_map].
  rewrite map_app. apply in_or_app. left. rewrite map_map. cbn [ring_ict_id].
  now rewrite map_id.
Qed.

(** The site columns of a point row whose site is one of the sites of the
    ring table. *)
Lemma point_load (self : Capacity) (rr : list ring_level_row) (rows : list poi_row)
    (r : poi_result) (s : Z) :
  In r (map finish
          (merge_sites (map (site_row (avrbpdsch_value self)) (site_loads rr))
             (combine rows (poiddatareq self (map row_ground_distance rows))))) ->
  res_ict_id r = Some s ->
  In s (map (fun x => ring_ict_id (rl_ring x)) rr) ->
  res_upoprbu r
  = nansum (map rl_upoprbu
              (filter (fun x => (ring_ict_id (rl_ring x) =? s)%Z) rr)) /\
  res_cellavcap r = fillna zero (avrbpdsch_value self - res_upoprbu r).
Proof.
  intros Hr Hs Hin.
  apply poi_level_row in Hr as (i & row & rb & c & _ & _ & Hc & ->).
  destruct c as [u cap]. cbn in Hs |- *. rewrite Hs in Hc. unfold merge_site in Hc.
  destruct (site_loads_key rr s Hin) as (g & Hg & Hk).
  assert (Hfound : In (site_row (avrbpdsch_value self) g)
                     (filter (fun c => (sc_ict_id c =? s)%Z)
                        (map (site_row (avrbpdsch_value self)) (site_loads rr)))).
  { apply filter_In. split; [now apply in_map|]. cbn. now apply Z.eqb_eq. }
  destruct (filter (fun c => (sc_ict_id c =? s)%Z)
              (map (site_row (avrbpdsch_value self)) (site_loads rr)))
    as [|c0 found] eqn:Ef; [destruct Hfound|].
  apply in_map_iff in Hc as (c & Ec & Hc). injection Ec as <- <-.
  rewrite <- Ef in Hc. apply filter_In in Hc as [Hc Hkey].
  apply in_map_iff in Hc as (g' & <- & Hg'). cbn in Hkey |- *.
  apply Z.eqb_eq in Hkey. apply site_load_of in Hg' as [_ ->].
  rewrite Hkey. now split.
Qed.

Lemma mul_zero_r (a : float64) : zero_or_nan (a * zero).
Proof.
  destruct a as [| | |q]; try (left; reflexivity).
  right. unfold zero. cbn [mul]. f_equal. ring.
Qed.

Lemma zero_or_nan_mul (x y : float64) : zero_or_nan x -> zero_or_nan (x * y).
Proof.
  intros [->| ->]; [left; apply mul_nan_l|].
  destruct y as [| | |b]; try (left; reflexivity).
  right. unfold zero. cbn [mul]. f_equal. ring.
Qed.

Lemma zero_or_nan_div (x y : float64) : zero_or_nan x -> zero_or_nan (x / y).
Proof.
  intros [->| ->]; [left; apply div_nan_l|].
  destruct y as [| | |b]; try (left; reflexivity); try (right; reflexivity).
  unfold zero. cbn [div]. destruct (Qc_eq_bool b 0); [left; reflexivity|].
  right. unfold zero. f_equal. unfold Qcdiv. ring.
Qed.

Lemma nansum_zero (l : list float64) :
  (forall x, In x l -> zero_or_nan x) -> nansum l = zero.
Proof.
  unfold nansum. induction l as [|x l IH]; intros H; [reflexivity|].
  cbn [fold_left]. destruct (H x (or_introl eq_refl)) as [->| ->]; cbn [isnan].
  - apply IH. intros y Hy. apply H. now right.
  - replace (zero + zero) with zero by (unfold zero; cbn [add]; f_equal; ring).
    apply IH. intros y Hy. apply H. now right.
Qed.

Lemma sub_zero_r (x : float64) : x - zero = x.
Proof.
  destruct x as [| | |q]; try reflexivity.
  unfold sub, zero. cbn [neg add]. f_equal. ring.
Qed.

End SiteLoad.

(** X14: in the tables returned by [calculate_buffer_areas], the
    utilisation of a point assigned to one of the cell sites is the sum,
    over the rings of that site in the returned ring table, of the ring
    utilisations that are defined, and its available capacity is
    [avrbpdsch] minus that sum (zero when the difference is undefined). *)
Theorem point_load_is_site_sum (self : Capacity) (demand : Demand)
    (population_within : Z -> Z -> list float64)
    (perform_pair_analysis : Z -> Z -> float64 * option bool)
    (within : poi -> Z -> bool)
    (visibility : option (list visibility_pair)) (pois : list poi) (sites : list Z)
    (rings : list ring_level_row) (results : list poi_result)
    (r : poi_result) (s : Z) :
  value (calculate_buffer_areas_demand self demand population_within
           perform_pair_analysis within visibility pois sites) = Ok (rings, results) ->
  In r results -> res_ict_id r = Some s -> In s sites ->
  res_upoprbu r
  = nansum (map rl_upoprbu
              (filter (fun x => (ring_ict_id (rl_ring x) =? s)%Z) rings)) /\
  res_cellavcap r = fillna zero (avrbpdsch_value self - res_upoprbu r)%float.
Proof.
  intros Hrun Hr Hs Hin.
  apply demand_pipeline_inv in Hrun as (rg & rows & u & a & Er & _ & _ & _ & Hrr & ->).
  apply rings_gdf_ok_inv in Er as (_ & _ & _ & ->).
  apply point_load with (1 := Hr); [exact Hs|].
  rewrite Hrr, map_map. cbn [ring_row rl_ring]. now apply ring_table_site.
Qed.

Lemma point_load_is_site_sum_witness :
  exists r, In r (demo_full_results None demo_oracle) /\
            res_ict_id r = Some 7%Z /\
            res_upoprbu r
            = nansum (map rl_upoprbu
                        (filter (fun x => (ring_ict_id (rl_ring x) =? 7)%Z)
                           (demo_full_rings None demo_oracle))).
Proof.
  assert (Hrun : value (demo_full_run None demo_oracle)
                 = Ok (demo_full_rings None demo_oracle,
                       demo_full_results None demo_oracle))
    by (vm_compute; reflexivity).
  destruct (demo_full_results None demo_oracle) as [|r results] eqn:E;
    [vm_compute in E; discriminate E|].
  assert (Hs : res_ict_id r = Some 7%Z)
    by (vm_compute in E; now injection E as <- _).
  exists r. split; [now left|]. split; [exact Hs|].
  apply (@point_load_is_site_sum (scenario 2000 1000 1000) demo_demand
           demo_population demo_oracle demo_within None demo_pois [7%Z]
           (demo_full_rings None demo_oracle) (r :: results) r 7%Z Hrun);
    [now left|exact Hs|now left].
Defined.

(** X15: a cell site without population in any of its rings keeps its whole
    capacity: every ring of the site in the returned ring table has
    population zero and a utilisation that is zero or undefined, and every
    point assigned to the site gets utilisation zero and the available
    capacity [avrbpdsch]. *)
Theorem uninhabited_site_has_full_capacity (self : Capacity) (demand : Demand)
    (population_within : Z -> Z -> list float64)
    (perform_pair_analysis : Z -> Z -> float64 * option bool)
    (within : poi -> Z -> bool)
    (visibility : option (list visibility_pair)) (pois : list poi) (sites : list Z)
    (rings : list ring_level_row) (results : list poi_result) (s : Z) :
  value (calculate_buffer_areas_demand self demand population_within
           perform_pair_analysis within visibility pois sites) = Ok (rings, results) ->
  In s sites ->
  (forall b, population_within s b = []) ->
  (forall x, In x rings -> ring_ict_id (rl_ring x) = s ->
     rl_population x = zero /\ zero_or_nan (rl_upoprbu x)) /\
  (forall r, In r results -> res_ict_id r = Some s ->
     res_upoprbu r = zero /\
     res_cellavcap r = fillna zero (avrbpdsch_value self)).
Proof.
  intros Hrun Hin Hpop.
  apply demand_pipeline_inv in Hrun as (rg & rows & u & a & Er & _ & _ & _ & Hrr & ->).
  apply rings_gdf_ok_inv in Er as (_ & _ & _ & ->).
  assert (Hrings : forall x, In x rings -> ring_ict_id (rl_ring x) = s ->
                     rl_population x = zero /\ zero_or_nan (rl_upoprbu x)).
  { intros x Hx Hs. rewrite Hrr in Hx. apply in_map_iff in Hx as (ring & <- & _).
    cbn [ring_row rl_ring rl_population rl_upoprbu] in Hs |- *.
    assert (Hz : ring_population population_within ring = zero).
    { unfold ring_population. now rewrite Hs, Hpop. }
    rewrite Hz. split; [reflexivity|].
    apply zero_or_nan_div. unfold upopbr_value.
    apply zero_or_nan_div. do 2 apply zero_or_nan_mul. apply mul_zero_r. }
  split; [exact Hrings|].
  intros r Hr Hs.
  destruct (@point_load self rings rows r s Hr Hs) as [Hu Hc].
  { rewrite Hrr, map_map. cbn [ring_row rl_ring]. now apply ring_table_site. }
  assert (Hzero : res_upoprbu r = zero).
  { rewrite Hu. apply nansum_zero. intros y Hy.
    apply in_map_iff in Hy as (x & <- & Hx). apply filter_In in Hx as [Hx Hk].
    apply Z.eqb_eq in Hk. now apply Hrings. }
  split; [exact Hzero|]. now rewrite Hc, Hzero, sub_zero_r.
Qed.

Lemma uninhabited_site_has_full_capacity_witness :
  exists r, In r demo_empty_results /\
            res_ict_id r = Some 7%Z /\
            res_upoprbu r = zero /\
            res_cellavcap r = fillna zero (avrbpdsch_value (scenario 2000 1000 1000)).
Proof.
  assert (Hrun : value demo_empty_run = Ok (demo_empty_rings, demo_empty_results))
    by (vm_compute; reflexivity).
  destruct demo_empty_results as [|r results] eqn:E;
    [vm_compute in E; discriminate E|].
  assert (Hs : res_ict_id r = Some 7%Z)
    by (vm_compute in E; now injection E as <- _).
  exists r. split; [now left|]. split; [exact Hs|].
  apply (proj2 (@uninhabited_site_has_full_capacity (scenario 2000 1000 1000)
                  demo_demand nobody demo_oracle demo_within None demo_pois [7%Z]
                  demo_empty_rings (r :: results) 7%Z Hrun (or_introl eq_refl)
                  (fun b => eq_refl)));
    [now left|exact Hs].
Defined.

(* ================================================================= *)
(** * [mbbtps] *)

Section MbbtpsFacts.

Local Open Scope Z_scope.

Lemma insert_name_In (k x : string) (keys : list string) :
  In x (insert_key String.compare k keys) <-> x = k \/ In x keys.
Proof.
  induction keys as [|k' keys IH]; cbn [insert_key].
  - cbn. intuition.
  - destruct (String.compare k k') eqn:E; cbn [In].
    + apply String.compare_eq_iff in E. subst. intuition.
    + intuition.
    + rewrite IH. intuition.
Qed.

Lemma group_names_In (x : string) (ks : list string) :
  In x (group_keys String.compare ks) <-> In x ks.
Proof.
  induction ks as [|k ks IH]; cbn [group_keys fold_right]; [reflexivity|].
  fold (group_keys String.compare ks). rewrite insert_name_In, IH. cbn [In].
  intuition.
Qed.

Lemma fold_left_max_spec (ys : list Z) (y : Z) :
  In (fold_left Z.max ys y) (y :: ys) /\
  forall z, In z (y :: ys) -> z <= fold_left Z.max ys y.
Proof.
  revert y. induction ys as [|a ys IH]; intros y; cbn [fold_left].
  - split; [now left|]. intros z [<-|[]]. lia.
  - destruct (IH (Z.max y a)) as [Hin Hle]. split.
    + destruct Hin as [E|Hin].
      * rewrite <- E. destruct (Z.max_spec y a) as [[_ ->]|[_ ->]];
          [right; now left|now left].
      * right. now right.
    + intros z [E|[E|Hz]].
      * specialize (Hle (Z.max y a) (or_introl eq_refl)). lia.
      * specialize (Hle (Z.max y a) (or_introl eq_refl)). lia.
      * apply Hle. now right.
Qed.

Variables mbbsubscr mbbtraffic : list itu_row.

Lemma merge_itu_In (p : itu_pair) :
  In p (merge_itu mbbsubscr mbbtraffic) <->
  In (pair_subscr p) mbbsubscr /\ In (pair_traffic p) mbbtraffic /\
  itu_entityName (pair_traffic p) = itu_entityName (pair_subscr p) /\
  itu_dataYear (pair_traffic p) = itu_dataYear (pair_subscr p).
Proof.
  unfold merge_itu. rewrite in_flat_map. split.
  - intros (s & Hs & Hp). apply in_map_iff in Hp as (t & <- & Ht).
    apply filter_In in Ht as [Ht Hk]. apply andb_true_iff in Hk as [Hn Hy].
    apply String.eqb_eq in Hn. apply Z.eqb_eq in Hy. cbn. auto.
  - intros (Hs & Ht & Hn & Hy). exists (pair_subscr p). split; [exact Hs|].
    apply in_map_iff. exists (pair_traffic p). split; [now destruct p|].
    apply filter_In. split; [exact Ht|].
    now rewrite Hn, Hy, String.eqb_refl, Z.eqb_refl.
Qed.

Lemma usable_pairs_In (p : itu_pair) :
  In p (usable_pairs mbbsubscr mbbtraffic) <->
  usable mbbsubscr mbbtraffic (pair_subscr p) (pair_traffic p).
Proof.
  unfold usable_pairs, usable. rewrite filter_In, merge_itu_In, andb_true_iff.
  tauto.
Qed.

Lemma latest_years_In (filtered : list itu_pair) (l : string * Z) :
  In l (latest_years filtered) ->
  exists p, In p filtered /\ pair_name p = fst l /\ pair_year p = snd l /\
            forall q, In q filtered -> pair_name q = fst l -> pair_year q <= snd l.
Proof.
  unfold latest_years. intros H. apply in_map_iff in H as (name & <- & Hn).
  apply group_names_In, in_map_iff in Hn as (p0 & Hp0 & Hin0). cbn [fst snd].
  assert (Hmem : forall q, In q filtered -> pair_name q = name ->
                   In (pair_year q)
                      (map pair_year
                         (filter (fun p => String.eqb (pair_name p) name) filtered))).
  { intros q Hq Hname. apply in_map, filter_In. split; [exact Hq|].
    now apply String.eqb_eq. }
  pose proof (Hmem p0 Hin0 Hp0) as Hne.
  destruct (map pair_year
              (filter (fun p => String.eqb (pair_name p) name) filtered))
    as [|y ys] eqn:Ey; [destruct Hne|].
  destruct (fold_left_max_spec ys y) as [Hmax Hle].
  rewrite <- Ey in Hmax. apply in_map_iff in Hmax as (p & Hy & Hp).
  apply filter_In in Hp as [Hp Hname]. apply String.eqb_eq in Hname.
  exists p. split; [exact Hp|]. split; [exact Hname|]. split; [exact Hy|].
  intros q Hq Hqn. apply Hle. now apply Hmem.
Qed.

Lemma latest_years_complete (filtered : list itu_pair) (p : itu_pair) :
  In p filtered -> exists l, In l (latest_years filtered) /\ fst l = pair_name p.
Proof.
  intros Hp. unfold latest_years. eexists. split.
  - apply in_map_iff. exists (pair_name p). split; [reflexivity|].
    apply group_names_In. now apply in_map.
  - reflexivity.
Qed.

Lemma mbbtps_In (r : mbbtps_row) :
  In r (mbbtps mbbsubscr mbbtraffic) <->
  exists p, In p (usable_pairs mbbsubscr mbbtraffic) /\
            In (pair_name p, pair_year p)
               (latest_years (usable_pairs mbbsubscr mbbtraffic)) /\
            r = mbbtps_row_of (pair_subscr p) (pair_traffic p).
Proof.
  unfold mbbtps. fold (usable_pairs mbbsubscr mbbtraffic).
  cbv zeta. rewrite in_map_iff. split.
  - intros (p & <- & Hp). apply in_flat_map in Hp as (p' & Hp' & Hp).
    apply in_map_iff in Hp as (l & -> & Hl). apply filter_In in Hl as [Hl Hk].
    apply andb_true_iff in Hk as [Hn Hy]. apply String.eqb_eq in Hn.
    apply Z.eqb_eq in Hy. exists p. split; [exact Hp'|]. split; [|reflexivity].
    rewrite <- Hn, <- Hy. now destruct l.
  - intros (p & Hp & Hl & ->). exists p. split; [reflexivity|].
    apply in_flat_map. exists p. split; [exact Hp|].
    apply in_map_iff. exists (pair_name p, pair_year p). split; [reflexivity|].
    apply filter_In. split; [exact Hl|]. cbn [fst snd].
    now rewrite String.eqb_refl, Z.eqb_refl.
Qed.

Lemma mbbtps_sound (r : mbbtps_row) :
  In r (mbbtps mbbsubscr mbbtraffic) ->
  exists s t,
    usable mbbsubscr mbbtraffic s t /\ r = mbbtps_row_of s t /\
    forall s' t', usable mbbsubscr mbbtraffic s' t' ->
      itu_entityName s' = itu_entityName s -> itu_dataYear s' <= itu_dataYear s.
Proof.
  intros H. apply mbbtps_In in H as (p & Hp & Hl & ->).
  exists (pair_subscr p), (pair_traffic p).
  split; [now apply usable_pairs_In|]. split; [reflexivity|].
  intros s' t' Hu Hname.
  apply latest_years_In in Hl as (p1 & _ & _ & _ & Hmax). cbn [fst snd] in Hmax.
  apply (Hmax {| pair_subscr := s'; pair_traffic := t' |}).
  - now apply usable_pairs_In.
  - exact Hname.
Qed.

Lemma mbbtps_complete (s t : itu_row) :
  usable mbbsubscr mbbtraffic s t ->
  exists r, In r (mbbtps mbbsubscr mbbtraffic) /\
            entityName r = itu_entityName s /\ itu_dataYear s <= dataYear r.
Proof.
  intros Hu.
  assert (Hp : In {| pair_subscr := s; pair_traffic := t |}
                  (usable_pairs mbbsubscr mbbtraffic))
    by now apply usable_pairs_In.
  destruct (latest_years_complete _ _ Hp) as (l & Hl & Hname).
  pose proof Hl as Hl'.
  apply latest_years_In in Hl' as (p1 & Hp1 & Hn1 & Hy1 & Hmax).
  exists (mbbtps_row_of (pair_subscr p1) (pair_traffic p1)). split.
  - apply mbbtps_In. exists p1. split; [exact Hp1|]. split; [|reflexivity].
    rewrite Hn1, Hy1. now destruct l.
  - cbn [mbbtps_row_of entityName dataYear]. split.
    + unfold pair_name in Hn1, Hname. cbn in Hname. congruence.
    + unfold pair_year in Hy1. rewrite Hy1.
      apply (Hmax {| pair_subscr := s; pair_traffic := t |} Hp).
      now rewrite Hname.
Qed.

End MbbtpsFacts.

(** X16: [mbbtps] keeps, for every entity, the latest year for which both
    ITU tables hold a value that is not equal to zero (a missing value is
    not equal to zero): every row of the result is built from such a pair
    of rows, with the traffic per subscription and month
    [traffic * 1024^3 / subscriptions / 12], and no such pair of the same
    entity has a later year; and every entity with such a pair has a row. *)
Theorem mbbtps_latest_usable_year (mbbsubscr mbbtraffic : list itu_row) :
  (forall r, In r (mbbtps mbbsubscr mbbtraffic) ->
     exists s t,
       usable mbbsubscr mbbtraffic s t /\ r = mbbtps_row_of s t /\
       forall s' t', usable mbbsubscr mbbtraffic s' t' ->
         itu_entityName s' = itu_entityName s ->
         (itu_dataYear s' <= itu_dataYear s)%Z) /\
  (forall s t, usable mbbsubscr mbbtraffic s t ->
     exists r, In r (mbbtps mbbsubscr mbbtraffic) /\
               entityName r = itu_entityName s /\
               (itu_dataYear s <= dataYear r)%Z).
Proof.
  split.
  - intros r. apply mbbtps_sound.
  - intros s t. apply mbbtps_complete.
Qed.

Lemma mbbtps_latest_usable_year_witness :
  exists r, In r (mbbtps demo_mbbsubscr demo_mbbtraffic) /\
            entityName r = "Spain"%string /\ (2021 <= dataYear r)%Z.
Proof.
  apply (proj2 (mbbtps_latest_usable_year demo_mbbsubscr demo_mbbtraffic)
           {| itu_entityName := "Spain"; itu_entityIso := "ESP";
              itu_dataYear := 2021; itu_dataValue := of_Z 1000 |}
           {| itu_entityName := "Spain"; itu_entityIso := "ESP";
              itu_dataYear := 2021; itu_dataValue := of_Z 5 |}).
  unfold usable. repeat match goal with |- _ /\ _ => split end;
    try reflexivity; now left.
Defined.

(** A year whose traffic value is missing counts as a year with data: it
    is selected when it is the latest, and the result is not-a-number. *)
Example mbbtps_missing_value_is_selected :
  map (fun r => (dataYear r, isnan (mbb_traffic_per_subscr_per_month r)))
    (mbbtps
       [ {| itu_entityName := "Spain"; itu_entityIso := "ESP";
            itu_dataYear := 2021; itu_dataValue := of_Z 1000 |};
         {| itu_entityName := "Spain"; itu_entityIso := "ESP";
            itu_dataYear := 2022; itu_dataValue := of_Z 1100 |} ]
       [ {| itu_entityName := "Spain"; itu_entityIso := "ESP";
            itu_dataYear := 2021; itu_dataValue := of_Z 5 |};
         {| itu_entityName := "Spain"; itu_entityIso := "ESP";
            itu_dataYear := 2022; itu_dataValue := NaN |} ])
  = [(2022%Z, true)].
Proof. reflexivity. Qed.

(* ================================================================= *)
(** * The traffic table *)

Lemma udatavmonth_year_raises (demand : Demand) :
  raises (udatavmonth_year demand) <-> length (country_rows demand) <> 1%nat.
Proof.
  unfold udatavmonth_year. destruct (country_rows demand) as [|r [|r' l]]; cbn.
  - split; [intros _; lia|intros _; now eexists].
  - split; [intros [e He]; discriminate|intros H; now contradiction H].
  - split; [intros _; lia|intros _; now eexists].
Qed.

(** X17: [udatavmonth_pu] and [udatavmonth_year] raise together, exactly
    when the traffic table does not hold exactly one row for the country
    (none, or several); when they return, the volume and the year are
    those of the same row of the table. *)
Theorem udatavmonth_same_row (demand : Demand) :
  (raises (udatavmonth_pu demand) <-> length (country_rows demand) <> 1%nat) /\
  (raises (udatavmonth_year demand) <-> length (country_rows demand) <> 1%nat) /\
  (forall u y,
     udatavmonth_pu demand = Ok u -> udatavmonth_year demand = Ok y ->
     exists r, In r (mbbt demand) /\
               entityIso_mbbsubscr r = country_code demand /\
               mbb_traffic_per_subscr_per_month r = u /\ dataYear r = y).
Proof.
  split; [apply udatavmonth_pu_raises|]. split; [apply udatavmonth_year_raises|].
  intros u y. unfold udatavmonth_pu, udatavmonth_year.
  destruct (country_rows demand) as [|r [|r' l]] eqn:E; cbn; try discriminate.
  intros [= <-] [= <-]. exists r.
  assert (Hin : In r (country_rows demand)) by (rewrite E; now left).
  apply filter_In in Hin as [Hin Hk]. apply String.eqb_eq in Hk. now split.
Qed.

Lemma udatavmonth_same_row_witness :
  exists r, In r (mbbt demo_demand) /\
            entityIso_mbbsubscr r = country_code demo_demand /\
            mbb_traffic_per_subscr_per_month r = of_Z 5 /\ dataYear r = 2022%Z.
Proof.
  apply (proj2 (proj2 (udatavmonth_same_row demo_demand)) (of_Z 5) 2022%Z);
    reflexivity.
Defined.

(* ================================================================= *)
(** * The oracle invocations *)

Section OracleCalls.

Variable within : poi -> Z -> bool.

(** With distinct point identifiers the deduplicated spatial join pairs
    every point with the first site whose buffer contains it. *)
Lemma drop_duplicates_first (buffers : list Z) (pois : list poi) (seen : list Z) :
  NoDup (map poi_id pois) ->
  (forall p, In p pois -> ~ In (poi_id p) seen) ->
  drop_duplicates seen (sjoin_left within pois buffers)
  = map (fun p => (p, first_site within buffers p)) pois.
Proof.
  revert seen. induction pois as [|p pois IH]; intros seen Hnd Hseen; [reflexivity|].
  cbn [map] in Hnd. apply NoDup_cons_iff in Hnd as [Hp Hnd].
  assert (Hfresh : existsb (Z.eqb (poi_id p)) seen = false).
  { destruct (existsb (Z.eqb (poi_id p)) seen) eqn:E; [|reflexivity].
    apply existsb_eqb_In in E. now apply Hseen in E; [|left]. }
  assert (Hrest : forall q, In q pois -> ~ In (poi_id q) (poi_id p :: seen)).
  { intros q Hq [E|Hin].
    - apply Hp. rewrite E. now apply in_map.
    - apply (Hseen q); [now right|exact Hin]. }
  unfold sjoin_left. cbn [flat_map map]. fold (sjoin_left within pois buffers).
  unfold first_site at 1.
  destruct (filter (within p) buffers) as [|s found].
  - cbn [app drop_duplicates fst hd_error]. rewrite Hfresh. f_equal.
    now apply IH.
  - cbn [map app drop_duplicates fst hd_error]. rewrite Hfresh. f_equal.
    rewrite (@drop_duplicates_seen Z (poi_id p :: seen) p Some found)
      by now left.
    now apply IH.
Qed.

Lemma results_column {B : Type} (self : Capacity) (caps : list site_capacity)
    (rows : list poi_row) (f : poi_result -> B) (g : poi_row -> B) :
  (forall row rb c, f (finish (row, rb, c)) = g row) ->
  NoDup (map sc_ict_id caps) ->
  map f
    (map finish
       (merge_sites caps
          (combine rows (poiddatareq self (map row_ground_distance rows)))))
  = map g rows.
Proof.
  intros Hf Hnd. rewrite map_map.
  rewrite (@map_ext _ _ (fun m => f (finish m))
             (fun m : merged_row => g (fst (fst m))))
    by (intros [[row rb] c]; apply Hf).
  transitivity
    (map (fun x : poi_row * float64 => g (fst x))
       (map fst (merge_sites caps
                   (combine rows (poiddatareq self (map row_ground_distance rows))))));
    [now rewrite map_map|].
  rewrite (@merge_sites_single caps _ Hnd).
  assert (Hlen : length (poiddatareq self (map row_ground_distance rows))
                 = length rows)
    by now rewrite poiddatareq_length, length_map.
  revert Hlen. generalize (poiddatareq self (map row_ground_distance rows)).
  induction rows as [|row rows IH]; intros [|rb rbs] Hlen; try discriminate;
    [reflexivity|].
  cbn [combine map fst]. f_equal. apply IH. now injection Hlen.
Qed.

End OracleCalls.

Lemma live_calls_first_site (within : poi -> Z -> bool) (sites : list Z)
    (pois : list poi) :
  flat_map live_call (map (fun p => (p, first_site within sites p)) pois)
  = flat_map (point_call within sites) pois.
Proof.
  induction pois as [|p pois IH]; [reflexivity|].
  cbn [map flat_map]. now rewrite IH.
Qed.

Lemma point_call_no_sites (within : poi -> Z -> bool) (pois : list poi) :
  flat_map (point_call within []) pois = [].
Proof. induction pois as [|p pois IH]; [reflexivity|exact IH]. Qed.

(** X18: without a visibility table, with distinct point identifiers, an
    evenly divided radius range and labels that fit 64 bits,
    [calculate_buffer_areas] invokes the visibility analyzer at most once
    per point, in point order: once for every point that lies within the
    buffer of some site, against the first such site that the spatial
    join lists (here in the order of the site table), and never for the
    other points; and the point table assigns every point to that site. *)
Theorem each_point_analysed_once (self : Capacity) (demand : Demand)
    (population_within : Z -> Z -> list float64)
    (perform_pair_analysis : Z -> Z -> float64 * option bool)
    (within : poi -> Z -> bool) (pois : list poi) (sites : list Z) :
  evenly_divided self ->
  int64_labels self ->
  NoDup (map poi_id pois) ->
  calls (calculate_buffer_areas_demand self demand population_within
           perform_pair_analysis within None pois sites)
  = flat_map (point_call within sites) pois /\
  (forall rings results,
     value (calculate_buffer_areas_demand self demand population_within
              perform_pair_analysis within None pois sites) = Ok (rings, results) ->
     map res_ict_id results = map (first_site within sites) pois).
Proof.
  intros Hev Hfit Hnd.
  pose proof (@drop_duplicates_first within sites pois [] Hnd (fun p _ H => H))
    as Hjoin.
  split.
  - destruct pois as [|p pois'] eqn:Ep; [reflexivity|]. rewrite <- Ep in *.
    assert (Hp : pois <> []) by (rewrite Ep; discriminate).
    destruct sites as [|s ids] eqn:Es.
    + rewrite point_call_no_sites. unfold calculate_buffer_areas_demand.
      rewrite Ep. cbn [estimate_utm_crs].
      destruct (rings_gdf_no_sites self) as [e He]. now rewrite He.
    + rewrite <- Es in *.
      assert (Hne : sites <> []) by (rewrite Es; discriminate).
      rewrite (@demand_pipeline_eq self demand population_within
                 perform_pair_analysis within None pois sites _ Hp
                 (@rings_gdf_returns self sites Hev Hne Hfit)).
      unfold calls at 1. cbn [snd visibility_analysis].
      rewrite live_visibility_calls, Hjoin. apply live_calls_first_site.
  - intros rings results Hrun.
    apply demand_pipeline_inv in Hrun
      as (rg & rows & u & a & _ & Hrows & _ & _ & _ & ->).
    rewrite (@results_column _ self _ rows res_ict_id row_ict_id)
      by (reflexivity || apply site_keys_NoDup || now intros row rb [x c]).
    cbn [visibility_analysis] in Hrows. apply live_visibility_rows in Hrows.
    subst rows. rewrite Hjoin, !map_map. reflexivity.
Qed.

Lemma each_point_analysed_once_witness :
  calls (demo_full_run None demo_oracle) = [(1%Z, 7%Z)] /\
  map res_ict_id (demo_full_results None demo_oracle) = [Some 7%Z; None].
Proof.
  assert (Hev : evenly_divided (scenario 2000 1000 1000))
    by (unfold evenly_divided; cbn; repeat split; lia).
  assert (Hnd : NoDup (map poi_id demo_pois))
    by (repeat constructor; cbn; intuition discriminate).
  assert (Hfit : int64_labels (scenario 2000 1000 1000))
    by (unfold int64_labels, Columns.int64_bound; cbn; lia).
  destruct (@each_point_analysed_once (scenario 2000 1000 1000) demo_demand
              demo_population demo_oracle demo_within demo_pois [7%Z] Hev Hfit Hnd)
    as [Hcalls Hsites].
  split; [exact Hcalls|].
  apply (Hsites (demo_full_rings None demo_oracle)).
  vm_compute. reflexivity.
Defined.
